(** * tinygrad: the autograd core of [tinygrad/tensor.py]

    A shallow embedding of the [Tensor] node, the [Function] operation
    context, the registry with its [dispatch] closures, the [deepwalk]
    graph walker and [Tensor.backward], followed by the properties of the
    engine proved on that embedding.

    Python objects are compared by identity and mutated in place, so tensors
    live in a store ([heap]) and are referred to by address; every method is
    a computation in a small state-and-exception monad. *)

From stdpp Require Import gmap strings list fin_maps.
From Stdlib Require QArith Qabs.

Set Default Proof Using "Type".
Set Warnings "-register-all,-clear-no-such-hyp".

(** ** Scalars

    The arrays hold floating point numbers.  Nothing in the engine depends
    on how they are represented: it only needs the constant one (for
    [np.ones]) and the addition that the registered [add] kernel applies to
    each pair of elements. *)
Class Element (elem : Type) := {
  one : elem;
  add : elem → elem → elem
}.

(** ** Exceptions and results *)

(** The exceptions the module can raise.  An [AssertionError] carries the
    operation named by its message, when the [assert] has a message. *)
Inductive PyErr :=
  | AssertionError (named : option string)
  | TypeError
  | ValueError
  | AttributeError
  | KeyError
  | IndexError
  | Exception
  | RecursionError
  | ReferenceError.

Inductive Result (A : Type) :=
  | Ok (a : A)
  | Raise (e : PyErr).
Arguments Ok {A} a.
Arguments Raise {A} e.

(** ** Raw buffers *)

(** [np.ndarray] on the host, [cl.Buffer] on the accelerator. *)
Inductive BufKind := NdArray | ClBuffer.

Inductive DType := Float32 | Float64 | Int64.

#[global] Instance BufKind_eq_dec : EqDecision BufKind.
Proof. solve_decision. Defined.
#[global] Instance DType_eq_dec : EqDecision DType.
Proof. solve_decision. Defined.

Definition is_floating (d : DType) : bool :=
  match d with Float32 | Float64 => true | Int64 => false end.

(** Objects are identified by their address in the store. *)
Abbreviation addr := nat.

Section Engine.
Context {elem : Type} `{Element elem}.

(** A buffer carries its shape and element type ([cuda] copies both onto
    the [cl.Buffer] it creates) and its elements in row-major order. *)
Record Buffer := mkBuffer {
  kind : BufKind;
  shape : list nat;
  dtype : DType;
  elems : list elem
}.

(** A nested list of numbers, as in [Tensor([[1., 2.], [3., 4.]])]. *)
Inductive Lit :=
  | LNum (x : elem)
  | LList (l : list Lit).

(** The Python values that reach the engine: what a caller hands to
    [Tensor(...)], what a kernel's [forward] returns, what its [backward]
    returns, and what is stored as an attribute of a context.  [PFloat] is
    a Python number, [PScalar] a numpy scalar such as [np.float32(1)]. *)
Inductive PyObj :=
  | PNone
  | PFloat (x : elem)
  | PScalar (d : DType) (x : elem)
  | PList (l : list Lit)
  | PTuple (l : list PyObj)
  | PBuf (b : Buffer).

(** *** numpy *)

(** The shape [np.array] finds for a nested list; [None] when the nesting
    is ragged. *)
Fixpoint lit_shape (x : Lit) : option (list nat) :=
  match x with
  | LNum _ => Some []
  | LList l =>
      match map lit_shape l with
      | [] => Some [0]
      | Some s :: rest =>
          if forallb (λ o, bool_decide (o = Some s)) rest
          then Some (length l :: s) else None
      | None :: _ => None
      end
  end.

Fixpoint lit_flat (x : Lit) : list elem :=
  match x with
  | LNum v => [v]
  | LList l => concat (map lit_flat l)
  end.

(** [np.array(data, dtype=np.float32)] for a list [data]. *)
Definition np_array (l : list Lit) : Result Buffer :=
  match lit_shape (LList l) with
  | Some s => Ok (mkBuffer NdArray s Float32 (lit_flat (LList l)))
  | None => Raise ValueError
  end.

(** [np.ones(shape, dtype=dtype)]. *)
Definition np_ones (s : list nat) (d : DType) : Buffer :=
  mkBuffer NdArray s d (replicate (foldr Nat.mul 1 s) one).

(** [g.shape]: arrays, accelerator buffers and numpy scalars have one. *)
Definition get_shape (g : PyObj) : Result (list nat) :=
  match g with
  | PBuf b => Ok (shape b)
  | PScalar _ _ => Ok []
  | _ => Raise AttributeError
  end.

Definition lit_obj (x : Lit) : PyObj :=
  match x with
  | LNum v => PFloat v
  | LList l => PList l
  end.

(** Iterating over an array walks its first axis: sub-arrays, or numpy
    scalars when the array has one axis; an array without axes cannot be
    iterated. *)
Definition rows (b : Buffer) : Result (list PyObj) :=
  match shape b with
  | [] => Raise TypeError
  | [n] => Ok (map (PScalar (dtype b)) (take n (elems b)))
  | n :: rest =>
      let sz := foldr Nat.mul 1 rest in
      Ok (map (λ i, PBuf (mkBuffer NdArray rest (dtype b)
                            (take sz (drop (i * sz) (elems b)))))
              (seq 0 n))
  end.

(** [iter(o)], as [zip] calls it. *)
Definition py_iter (o : PyObj) : Result (list PyObj) :=
  match o with
  | PTuple l => Ok l
  | PList l => Ok (map lit_obj l)
  | PBuf b =>
      match kind b with
      | NdArray => rows b
      | ClBuffer => Raise TypeError
      end
  | _ => Raise TypeError
  end.

(** [cl.Buffer(..., hostbuf=data.ravel())] followed by the two assignments
    [data.shape = self.shape] and [data.dtype = self.data.dtype]. *)
Definition cl_Buffer (b : Buffer) : Buffer :=
  mkBuffer ClBuffer (shape b) (dtype b) (elems b).

(** ** Tensors, contexts and operations *)


(** The instance state of a [Function] object (a context): the parents, in
    order, what [forward] saved, and the attributes set with [setattr]. *)
Record Context := mkContext {
  parents : list addr;
  saved_tensors : list PyObj;
  attrs : gmap string PyObj
}.

(** A registered operation: a subclass of [Function] with its two static
    methods.  [defaults] lists the parameters of [forward] that declare a
    default value, in signature order.  [forward] receives the context, the
    raw buffers of the inputs and the keyword arguments; it returns what it
    passed to [save_for_backward] together with its result. *)
Record Function := mkFunction {
  fname : string;
  defaults : list (string * PyObj);
  forward : Context → list Buffer → gmap string PyObj →
            Result (list PyObj * PyObj);
  backward : Context → Buffer → Result PyObj
}.

(** A context object: its class and its instance state. *)
Record Ctx := mkCtx {
  cls : Function;
  inst : Context
}.

Record Tensor := mkTensor {
  data : Buffer;
  grad : option addr;
  _ctx : option Ctx;
  gpu : bool
}.

(** What [register] installs on the class [Tensor] with [setattr]. *)
Inductive Method :=
  | Dispatch (name : string)
  | InPlace (name : string).

(** What the module prints. *)
Inductive Output :=
  | FloatWarning (s : list nat).

(** ** The state of the process *)

Record State := mkState {
  heap : list Tensor;
  ops : gmap string Function;
  opsgpu : gmap string Function;
  methods : gmap string Method;
  GPU : bool;
  default_gpu : bool;
  did_float_warning : bool;
  stdout : list Output
}.

Definition set_heap (f : list Tensor → list Tensor) (st : State) : State :=
  mkState (f (heap st)) (ops st) (opsgpu st) (methods st) (GPU st)
          (default_gpu st) (did_float_warning st) (stdout st).

Definition set_ops (f : gmap string Function → gmap string Function)
    (st : State) : State :=
  mkState (heap st) (f (ops st)) (opsgpu st) (methods st) (GPU st)
          (default_gpu st) (did_float_warning st) (stdout st).

Definition set_opsgpu (f : gmap string Function → gmap string Function)
    (st : State) : State :=
  mkState (heap st) (ops st) (f (opsgpu st)) (methods st) (GPU st)
          (default_gpu st) (did_float_warning st) (stdout st).

Definition set_methods (f : gmap string Method → gmap string Method)
    (st : State) : State :=
  mkState (heap st) (ops st) (opsgpu st) (f (methods st)) (GPU st)
          (default_gpu st) (did_float_warning st) (stdout st).

Definition warn_float (s : list nat) (st : State) : State :=
  mkState (heap st) (ops st) (opsgpu st) (methods st) (GPU st)
          (default_gpu st) true (stdout st ++ [FloatWarning s]).

(** ** The monad *)

Definition M (A : Type) : Type := State → Result A * State.

Definition ret {A} (a : A) : M A := λ st, (Ok a, st).

Definition raise {A} (e : PyErr) : M A := λ st, (Raise e, st).

Definition bind {A B} (m : M A) (k : A → M B) : M B :=
  λ st, match m st with
        | (Ok a, st') => k a st'
        | (Raise e, st') => (Raise e, st')
        end.

Definition lift {A} (r : Result A) : M A := λ st, (r, st).

Definition gets {A} (f : State → A) : M A := λ st, (Ok (f st), st).

Definition modify (f : State → State) : M unit := λ st, (Ok tt, f st).

Notation "x <- m ; k" := (bind m (λ x : _, k))
  (at level 20, m at level 100, k at level 200, only parsing).

(** Run [f] on every element, left to right, stopping at the first
    exception. *)
Fixpoint forM_ {A} (f : A → M unit) (l : list A) : M unit :=
  match l with
  | [] => ret tt
  | x :: l' => _ <- f x ; forM_ f l'
  end.

(** *** The store *)

(** A new object gets the next free address. *)
Definition alloc (t : Tensor) : M addr :=
  λ st, (Ok (length (heap st)), set_heap (λ h, h ++ [t]) st).

(** Following a reference.  References always point at live objects in
    Python; [ReferenceError] stands for an address outside the store. *)
Definition read (a : addr) : M Tensor :=
  λ st, match heap st !! a with
        | Some t => (Ok t, st)
        | None => (Raise ReferenceError, st)
        end.

Definition set_data (a : addr) (b : Buffer) : M unit :=
  modify (set_heap (alter (λ t, mkTensor b (grad t) (_ctx t) (gpu t)) a)).

Definition set_grad (a : addr) (g : option addr) : M unit :=
  modify (set_heap (alter (λ t, mkTensor (data t) g (_ctx t) (gpu t)) a)).

Definition set_ctx (a : addr) (c : option Ctx) : M unit :=
  modify (set_heap (alter (λ t, mkTensor (data t) (grad t) c (gpu t)) a)).

(** ** [Tensor.__init__] *)

(** [self.cuda_()] as [__init__] runs it, on a tensor whose [grad] is still
    [None]: [cuda] raises without the accelerator module, returns [self]
    when the data is already on the accelerator, and otherwise copies a
    float32 array into a new [cl.Buffer]; [cuda_] keeps that buffer.  The
    accelerator runtime ([require_init_gpu]) is taken to start. *)
Definition cuda_ (self_gpu : bool) (d : Buffer) : M Buffer :=
  G <- gets GPU ;
  if negb G then raise Exception
  else if self_gpu then ret d
  else if decide (dtype d = Float32) then ret (cl_Buffer d)
  else raise (AssertionError None).

Definition Tensor_init (data0 : PyObj) (gpu0 : option bool) : M addr :=
  gpu1 <- match gpu0 with
          | None => gets default_gpu
          | Some g => ret g
          end ;
  G <- gets GPU ;
  d <- match data0 with
       | PList l => lift (np_array l)
       | PBuf b =>
           match kind b with
           | ClBuffer => if G then ret b else raise TypeError
           | NdArray => ret b
           end
       | _ => raise TypeError
       end ;
  self_gpu <- match kind d with
              | NdArray =>
                  w <- gets did_float_warning ;
                  _ <- (if bool_decide (dtype d ≠ Float32) && negb w
                        then modify (warn_float (shape d))
                        else ret tt) ;
                  ret false
              | ClBuffer => ret true
              end ;
  d' <- (if gpu1 then cuda_ self_gpu d else ret d) ;
  alloc (mkTensor d' None None (gpu1 || self_gpu)).

(** ** [Tensor.assign] *)

Definition Tensor_assign (self x : addr) : M unit :=
  X <- read x ;
  set_data self (data X).

(** ** [Function.apply] *)

Definition setattr (c : Context) (k : string) (v : PyObj) : Context :=
  mkContext (parents c) (saved_tensors c) (<[k:=v]> (attrs c)).

Definition save_for_backward (c : Context) (x : list PyObj) : Context :=
  mkContext (parents c) (saved_tensors c ++ x) (attrs c).

Fixpoint forM {A B} (f : A → M B) (l : list A) : M (list B) :=
  match l with
  | [] => ret []
  | x :: l' => y <- f x ; ys <- forM f l' ; ret (y :: ys)
  end.

(** The attributes of the context [apply] builds: the declared defaults
    first, then the keyword arguments of the call. *)
Definition resolve (op : Function) (x : list addr)
    (kwargs : gmap string PyObj) : Context :=
  let ctx := mkContext x [] ∅ in
  let ctx := foldl (λ c p, setattr c p.1 p.2) ctx (defaults op) in
  map_fold (λ k v c, setattr c k v) ctx kwargs.

Definition Function_apply (op : Function) (x : list addr)
    (kwargs : gmap string PyObj) : M addr :=
  let ctx := resolve op x kwargs in
  ts <- forM read x ;
  r <- lift (forward op ctx (map data ts) kwargs) ;
  out <- Tensor_init r.2 None ;
  _ <- set_ctx out (Some (mkCtx op (save_for_backward ctx r.1))) ;
  ret out.

(** ** [register] and the closures it installs *)

(** The closure [dispatch] that [register name ...] creates. *)
Definition dispatch (name : string) (x : list addr)
    (kwargs : gmap string PyObj) : M addr :=
  match x with
  | [] => raise IndexError
  | x0 :: _ =>
      T0 <- read x0 ;
      table <- gets (if gpu T0 then opsgpu else ops) ;
      match table !! name with
      | None => raise KeyError
      | Some f => Function_apply f x kwargs
      end
  end.

(** Calling an installed attribute.  The in-place form is
    [lambda self,x: self.assign(dispatch(self,x))]: two positional
    arguments, no keywords, and the value of [assign], which is [None]. *)
Definition invoke (m : Method) (args : list addr)
    (kwargs : gmap string PyObj) : M (option addr) :=
  match m with
  | Dispatch name => r <- dispatch name args kwargs ; ret (Some r)
  | InPlace name =>
      match args with
      | [self; x] =>
          if decide (size kwargs = 0) then
            r <- dispatch name [self; x] ∅ ;
            _ <- Tensor_assign self r ;
            ret None
          else raise TypeError
      | _ => raise TypeError
      end
  end.

(** [a.<name>(b)] for an attribute set by [register]. *)
Definition call_method (name : string) (a b : addr) : M (option addr) :=
  ms <- gets methods ;
  match ms !! name with
  | None => raise AttributeError
  | Some m => invoke m [a; b] ∅
  end.

(** [a + b] on two tensors: [Tensor.__add__], a [TypeError] when the class
    has none. *)
Definition Tensor_plus (a b : addr) : M (option addr) :=
  ms <- gets methods ;
  match ms !! "__add__" with
  | None => raise TypeError
  | Some m => invoke m [a; b] ∅
  end.

Definition arithmetic : list string := ["add"; "sub"; "mul"; "div"].

Definition register (name : string) (fxn : Function) (gpu0 : bool) : M unit :=
  _ <- modify (if gpu0 then set_opsgpu (<[name:=fxn]>)
               else set_ops (<[name:=fxn]>)) ;
  _ <- modify (set_methods (<[name:=Dispatch name]>)) ;
  if bool_decide (name ∈ arithmetic) then
    _ <- modify (set_methods (<["__" +:+ name +:+ "__" := Dispatch name]>)) ;
    modify (set_methods (<["__i" +:+ name +:+ "__" := InPlace name]>))
  else ret tt.

(** ** [Tensor.backward] *)

(** The local function [deepwalk] with the two variables it closes over,
    [visited] and [nodes], passed in and returned.  [fuel] bounds the depth
    of the recursion; the walk only reads the store. *)
Fixpoint deepwalk (fuel : nat) (h : list Tensor) (node : addr)
    (s : gset addr * list addr) : Result (gset addr * list addr) :=
  match fuel with
  | 0 => Raise RecursionError
  | S fuel' =>
      let visited := {[node]} ∪ s.1 in
      match h !! node with
      | None => Raise ReferenceError
      | Some t =>
          match _ctx t with
          | None => Ok (visited, s.2)
          | Some c =>
              match
                foldl (λ acc i,
                         match acc with
                         | Ok s' => if decide (i ∈ s'.1) then Ok s'
                                    else deepwalk fuel' h i s'
                         | Raise e => Raise e
                         end)
                      (Ok (visited, s.2)) (parents (inst c))
              with
              | Ok s' => Ok (s'.1, s'.2 ++ [node])
              | Raise e => Raise e
              end
          end
      end
  end.

(** The body of [for t,g in zip(t0._ctx.parents, grads)].  [self_ctx] is
    [self._ctx], which the message of the assertion prints. *)
Definition accumulate (self_ctx : Ctx) (t : addr) (g : PyObj) : M unit :=
  match g with
  | PNone => ret tt
  | _ =>
      gs <- lift (get_shape g) ;
      T <- read t ;
      if decide (gs = shape (data T)) then
        match grad T with
        | None =>
            n <- Tensor_init g None ;
            set_grad t (Some n)
        | Some tg =>
            n <- Tensor_init g None ;
            r <- Tensor_plus tg n ;
            set_grad t r
        end
      else raise (AssertionError (Some (fname (cls self_ctx))))
  end.

(** The body of [for t0 in reversed(nodes)]. *)
Definition backward_node (self_ctx : Ctx) (t0 : addr) : M unit :=
  T0 <- read t0 ;
  match grad T0 with
  | None => raise (AssertionError None)
  | Some g0 =>
      match _ctx T0 with
      | None => raise AttributeError
      | Some c =>
          G0 <- read g0 ;
          grads <- lift (backward (cls c) (inst c) (data G0)) ;
          grads <- lift (if decide (length (parents (inst c)) = 1)
                         then Ok [grads] else py_iter grads) ;
          forM_ (λ p, accumulate self_ctx p.1 p.2)
                (zip (parents (inst c)) grads)
      end
  end.

(** Lines 130-134: the implicit creation of the first gradient. *)
Definition fill_grad (self : addr) (allow_fill : bool) : M unit :=
  T <- read self ;
  match grad T with
  | None =>
      if allow_fill then
        if decide (shape (data T) = [1]) then
          n <- Tensor_init (PBuf (np_ones (shape (data T)) (dtype (data T))))
                           (Some (gpu T)) ;
          set_grad self (Some n)
        else raise (AssertionError None)
      else ret tt
  | Some _ => ret tt
  end.

(** Lines 137-146: the walk from [self], on the store as it is then. *)
Definition walk (self : addr) : M (list addr) :=
  h <- gets heap ;
  s <- lift (deepwalk (S (length h)) h self (∅, [])) ;
  ret s.2.

Definition Tensor_backward (self : addr) (allow_fill : bool) : M unit :=
  T <- read self ;
  match _ctx T with
  | None => ret tt
  | Some c =>
      _ <- fill_grad self allow_fill ;
      nodes <- walk self ;
      forM_ (backward_node c) (reverse nodes)
  end.

(** ** The kernel registered as [add] *)

(** [x + y] on two arrays of the same shape. *)
Definition np_add (x y : Buffer) : Buffer :=
  mkBuffer NdArray (shape x)
           (if decide (dtype x = dtype y) then dtype x else Float64)
           (zip_with add (elems x) (elems y)).

(** The kernels live in [tinygrad/ops.py], which [tensor.py] imports for
    its side effect of calling [register].  What the engine relies on is
    stated as two properties of whatever is registered under ["add"]: on
    two host arrays of one shape [forward] returns their elementwise sum,
    and [backward] hands the upstream gradient to both parents. *)
Definition adds_elementwise (f : Function) : Prop :=
  ∀ c x y, kind x = NdArray → kind y = NdArray → shape x = shape y →
    ∃ s, forward f c [x; y] ∅ = Ok (s, PBuf (np_add x y)).

Definition passes_gradient (f : Function) : Prop :=
  ∀ c g, backward f c g = Ok (PTuple [PBuf g; PBuf g]).

(** The shape of the tensor that [Tensor(o)] builds. *)
Definition obj_shape (o : PyObj) : option (list nat) :=
  match o with
  | PBuf b => Some (shape b)
  | PList l => lit_shape (LList l)
  | _ => None
  end.

(** A kernel keeps shapes when, on two buffers of one shape, what it
    returns has that shape again. *)
Definition keeps_shape (f : Function) : Prop :=
  ∀ c x y kw s o, forward f c [x; y] kw = Ok (s, o) →
    shape x = shape y → obj_shape o = Some (shape x).

(** ** The graph in the store *)

Definition parents_of (h : list Tensor) (a : addr) : list addr :=
  match h !! a with
  | Some T =>
      match _ctx T with
      | Some c => parents (inst c)
      | None => []
      end
  | None => []
  end.


(** [reach h a b]: [b] is [a] or an ancestor of [a] along producer-parent
    edges. *)
Inductive reach (h : list Tensor) : addr → addr → Prop :=
  | reach_refl a : reach h a a
  | reach_step a p b : p ∈ parents_of h a → reach h p b → reach h a b.

(** [apply] gives its result a new address after reading its inputs, and
    nothing reassigns [_ctx]: in a store built by the engine every parent
    is older than the tensor it feeds. *)
Definition dag (h : list Tensor) : Prop :=
  ∀ a p, p ∈ parents_of h a → p < a.





(** [dag], as a test on an explicit store. *)
Definition dag_check (h : list Tensor) : bool :=
  forallb (λ a, forallb (λ p, bool_decide (p < a)) (parents_of h a))
          (seq 0 (length h)).

(** The shape invariant at one address. *)
Definition grad_ok (h : list Tensor) (a : addr) : Prop :=
  ∀ T g, h !! a = Some T → grad T = Some g →
    ∃ G, h !! g = Some G ∧ shape (data G) = shape (data T).

(** A tensor built directly, not yet given a gradient. *)
Definition is_leaf (h : list Tensor) (x : addr) (X : Tensor) : Prop :=
  h !! x = Some X ∧ _ctx X = None ∧ grad X = None.

(** The result of an operation on the tensors [ps], not yet given a
    gradient. *)
Definition is_output (h : list Tensor) (t : addr) (T : Tensor) (c : Ctx)
    (ps : list addr) : Prop :=
  h !! t = Some T ∧ _ctx T = Some c ∧ parents (inst c) = ps ∧ grad T = None.


(** The registry is only written by [register]. *)
Definition same_registry (st st' : State) : Prop :=
  ops st' = ops st ∧ opsgpu st' = opsgpu st ∧ methods st' = methods st ∧
  GPU st' = GPU st ∧ default_gpu st' = default_gpu st.

(** [frame st st']: the registry is the same, every tensor of [st] is still
    there with the same buffer, producer and device, and the shape
    invariant holds in [st'] at every address where it held in [st]. *)
Definition frame (st st' : State) : Prop :=
  same_registry st st' ∧
  (∀ a T, heap st !! a = Some T →
     ∃ T', heap st' !! a = Some T' ∧ data T' = data T ∧
           _ctx T' = _ctx T ∧ gpu T' = gpu T) ∧
  (∀ a, grad_ok (heap st) a → grad_ok (heap st') a).

(** [t] is the result of an operation with context [c] on [ps]; [x] was
    built directly. *)
Definition produced (h : list Tensor) (t : addr) (c : Ctx)
    (ps : list addr) : Prop :=
  ∃ T, h !! t = Some T ∧ _ctx T = Some c ∧ parents (inst c) = ps.

Definition unproduced (h : list Tensor) (x : addr) : Prop :=
  ∃ X, h !! x = Some X ∧ _ctx X = None.

(** A process that builds tensors one after the other, going on after a
    failed construction. *)
Fixpoint construct_all (calls : list (PyObj * option bool)) (st : State)
    : State :=
  match calls with
  | [] => st
  | c :: calls' => construct_all calls' (Tensor_init c.1 c.2 st).2
  end.

End Engine.

Arguments Buffer : clear implicits.
Arguments Lit : clear implicits.
Arguments PyObj : clear implicits.
Arguments Context : clear implicits.
Arguments Function : clear implicits.
Arguments Ctx : clear implicits.
Arguments Tensor : clear implicits.
Arguments State : clear implicits.
Arguments M : clear implicits.

Notation "x <- m ; k" := (bind m (λ x : _, k))
  (at level 20, m at level 100, k at level 200, only parsing).

Arguments bind : simpl never.
Arguments Tensor_init : simpl never.
Arguments Function_apply : simpl never.
Arguments dispatch : simpl never.
Arguments invoke : simpl never.
Arguments Tensor_plus : simpl never.
Arguments accumulate : simpl never.
Arguments backward_node : simpl never.
Arguments fill_grad : simpl never.
Arguments walk : simpl never.
Arguments Tensor_backward : simpl never.
Arguments deepwalk : simpl never.

(** * The rest of the class

    What [Tensor] offers besides construction, dispatch and [backward]: the
    constructors [zeros], [ones] and [eye], the moves between the host and
    the accelerator, [detach], and the operations that the class composes
    from registered ones ([mean], [sqrt], [div], [swish], [tanh]). *)

(** The numbers those methods write into arrays or that the kernels they
    call compute: the constants 0, 0.5, 2 and -1, the product and the power
    of two elements, and [recip d n], which is [1/n] as
    [np.array([1/n], dtype=d)] stores it. *)
Class Constants (elem : Type) := {
  zero : elem;
  half : elem;
  two : elem;
  minus_one : elem;
  recip : DType → nat → elem;
  mul : elem → elem → elem;
  pow : elem → elem → elem
}.

Section Methods.
Context {elem : Type} `{Element elem} `{Constants elem}.

(** *** numpy *)

(** [np.zeros(s, dtype=d) + v] and [np.zeros(s, dtype=d) - v] for a Python
    number: every element is the constant. *)
Definition np_full (s : list nat) (d : DType) (v : elem) : Buffer elem :=
  mkBuffer NdArray s d (replicate (foldr Nat.mul 1 s) v).

Definition np_zeros (s : list nat) (d : DType) : Buffer elem :=
  np_full s d zero.

(** [np.eye(n).astype(np.float32)]. *)
Definition np_eye (n : nat) : Buffer elem :=
  mkBuffer NdArray [n; n] Float32
    (flat_map (λ i, map (λ j, if decide (i = j) then one else zero)
                        (seq 0 n))
              (seq 0 n)).

(** The element type of [a + 0.5] for an array [a]: integers become
    float64, floating types are kept. *)
Definition with_fraction (d : DType) : DType :=
  match d with Int64 => Float64 | _ => d end.

(** ** The property [shape] and the static constructors *)

Definition Tensor_shape (self : addr) : M elem (list nat) :=
  T <- read self ; ret (shape (data T)).

Definition Tensor_zeros (s : list nat) : M elem addr :=
  Tensor_init (PBuf (np_zeros s Float32)) None.

Definition Tensor_ones (s : list nat) : M elem addr :=
  Tensor_init (PBuf (np_ones s Float32)) None.

Definition Tensor_eye (dim : nat) : M elem addr :=
  Tensor_init (PBuf (np_eye dim)) None.

(** ** Host and accelerator *)

Definition set_gpu (a : addr) (g : bool) : M elem unit :=
  modify (set_heap (alter (λ t, mkTensor (data t) (grad t) (_ctx t) g) a)).

(** [Tensor.cuda].  The method calls itself on [self.grad]; [fuel] bounds
    the depth of that recursion.  A tensor flagged as on the host whose
    buffer is a [cl.Buffer] (which [assign] can produce) passes the
    assertion on the element type and fails on [self.data.ravel()]. *)
Fixpoint cuda_from (fuel : nat) (self : addr) : M elem addr :=
  match fuel with
  | 0 => raise RecursionError
  | S fuel' =>
      G <- gets GPU ;
      if negb G then raise Exception
      else
        T <- read self ;
        if gpu T then ret self
        else if decide (dtype (data T) = Float32) then
          match kind (data T) with
          | ClBuffer => raise AttributeError
          | NdArray =>
              r <- Tensor_init (PBuf (cl_Buffer (data T))) None ;
              match grad T with
              | None => ret r
              | Some g =>
                  g' <- cuda_from fuel' g ;
                  _ <- set_grad r (Some g') ;
                  ret r
              end
          end
        else raise (AssertionError None)
  end.

(** A chain of gradients without a cycle is no longer than the store. *)
Definition Tensor_cuda (self : addr) : M elem addr :=
  h <- gets heap ; cuda_from (S (length h)) self.

(** [Tensor.cuda_]: the tensor that [cuda] returns is dropped once its
    buffer has been taken. *)
Definition Tensor_cuda_ (self : addr) : M elem unit :=
  r <- Tensor_cuda self ;
  R <- read r ;
  _ <- set_data self (data R) ;
  set_gpu self true.

(** What [np.empty(self.shape, dtype=np.float32)] holds once
    [cl.enqueue_copy] has filled it from the device buffer.  Nothing reads
    the array between its creation and the copy, so the tensor is built
    with these contents at once.  The copy moves bytes: the elements are
    those of the source when the source holds float32, which is all that
    [cuda] puts on the accelerator. *)
Definition host_copy (d : Buffer elem) : Buffer elem :=
  mkBuffer NdArray (shape d) Float32 (elems d).

(** [Tensor.cpu].  The method does not test [GPU]: without the module the
    name [cl] is unbound, and the [NameError] this raises is rendered as
    [Exception], its base class.  [cl.enqueue_copy] refuses a transfer
    between two host arrays with a [TypeError]. *)
Fixpoint cpu_from (fuel : nat) (self : addr) : M elem addr :=
  match fuel with
  | 0 => raise RecursionError
  | S fuel' =>
      T <- read self ;
      if gpu T then
        r <- Tensor_init (PBuf (host_copy (data T))) (Some false) ;
        G <- gets GPU ;
        if negb G then raise Exception
        else
          match kind (data T) with
          | NdArray => raise TypeError
          | ClBuffer =>
              match grad T with
              | None => ret r
              | Some g =>
                  g' <- cpu_from fuel' g ;
                  _ <- set_grad r (Some g') ;
                  ret r
              end
          end
      else ret self
  end.

Definition Tensor_cpu (self : addr) : M elem addr :=
  h <- gets heap ; cpu_from (S (length h)) self.

(** ** [Tensor.detach] *)

Definition Tensor_detach (self : addr) : M elem addr :=
  T <- read self ;
  Tensor_init (PBuf (data T)) (Some (gpu T)).

(** ** Operators and attributes *)

(** Looking up an attribute that only [register] provides. *)
Definition getattr (name : string) : M elem Method :=
  ms <- gets methods ;
  match ms !! name with
  | None => raise AttributeError
  | Some m => ret m
  end.

(** [a.<name>]: what a call returned is either a tensor or [None], and
    [None] has no attributes. *)
Definition receiver (r : option addr) : M elem addr :=
  match r with
  | Some a => ret a
  | None => raise AttributeError
  end.

(** Calling an installed attribute on [self] with [None] as the second
    argument: the closure finds the kernel in the table of [self]'s
    device, and [apply] fails on [None.data] before [forward] runs. *)
Definition invoke_None (m : Method) (self : addr) : M elem (option addr) :=
  let name := match m with Dispatch n | InPlace n => n end in
  T0 <- read self ;
  table <- gets (if gpu T0 then opsgpu else ops) ;
  match table !! name with
  | None => raise KeyError
  | Some _ => raise AttributeError
  end.

(** [a <op> b] for the operator whose special method is [__<name>__]. *)
Definition Tensor_binop (name : string) (a b : addr) : M elem (option addr) :=
  ms <- gets methods ;
  match ms !! ("__" +:+ name +:+ "__") with
  | None => raise TypeError
  | Some m => invoke m [a; b] ∅
  end.

(** ** The operations composed by the class *)

(** A method that the class defines itself is replaced when an operation
    is registered under its name: [register] uses [setattr] on the
    class. *)
Definition class_method (name : string) (args : list addr)
    (body : M elem (option addr)) : M elem (option addr) :=
  ms <- gets methods ;
  match ms !! name with
  | Some m => invoke m args ∅
  | None => body
  end.

Definition Tensor_mean (self : addr) : M elem (option addr) :=
  T <- read self ;
  div <- Tensor_init
           (PBuf (mkBuffer NdArray [1] (dtype (data T))
                    [recip (dtype (data T))
                           (foldr Nat.mul 1 (shape (data T)))]))
           (Some (gpu T)) ;
  sum <- getattr "sum" ;
  s <- invoke sum [self] ∅ ;
  s <- receiver s ;
  mul <- getattr "mul" ;
  invoke mul [s; div] ∅.

Definition Tensor_sqrt (self : addr) : M elem (option addr) :=
  T <- read self ;
  root <- Tensor_init
            (PBuf (np_full (shape (data T)) (with_fraction (dtype (data T)))
                           half))
            (Some (gpu T)) ;
  pow <- getattr "pow" ;
  invoke pow [self; root] ∅.

(** In [self.mul(y.pow(root))] the attribute [self.mul] is looked up
    before the argument is evaluated. *)
Definition Tensor_div (self y : addr) : M elem (option addr) :=
  T <- read self ;
  root <- Tensor_init
            (PBuf (np_full (shape (data T)) (dtype (data T)) minus_one))
            (Some (gpu T)) ;
  mul <- getattr "mul" ;
  pow <- getattr "pow" ;
  p <- invoke pow [y; root] ∅ ;
  match p with
  | Some p => invoke mul [self; p] ∅
  | None => invoke_None mul self
  end.

Definition Tensor_swish (self : addr) : M elem (option addr) :=
  mul <- getattr "mul" ;
  sigmoid <- getattr "sigmoid" ;
  s <- invoke sigmoid [self] ∅ ;
  match s with
  | Some s => invoke mul [self; s] ∅
  | None => invoke_None mul self
  end.

Definition Tensor_tanh (self : addr) : M elem (option addr) :=
  T <- read self ;
  t2 <- Tensor_init (PBuf (np_full (shape (data T)) (dtype (data T)) two))
                    (Some (gpu T)) ;
  t1 <- Tensor_init (PBuf (np_full (shape (data T)) (dtype (data T)) one))
                    (Some (gpu T)) ;
  mul <- getattr "mul" ;
  a <- invoke mul [self; t2] ∅ ;
  a <- receiver a ;
  sigmoid <- getattr "sigmoid" ;
  b <- invoke sigmoid [a] ∅ ;
  b <- receiver b ;
  mul' <- getattr "mul" ;
  c <- invoke mul' [b; t2] ∅ ;
  match c with
  | Some c => Tensor_binop "sub" c t1
  | None => raise TypeError
  end.

(** ** Programs

    The calls a client makes on the module, and a client that makes them
    one after the other, going on after a call that raised. *)
Inductive Call :=
  | CTensor (o : PyObj elem) (gp : option bool)
  | CZeros (s : list nat)
  | COnes (s : list nat)
  | CEye (dim : nat)
  | CAssign (self x : addr)
  | CRegister (name : string) (fxn : Function elem) (gp : bool)
  | CApply (f : Function elem) (x : list addr) (kw : gmap string (PyObj elem))
  | CMethod (name : string) (x : list addr) (kw : gmap string (PyObj elem))
  | CBinop (name : string) (a b : addr)
  | CBackward (self : addr) (allow_fill : bool)
  | CCuda (self : addr)
  | CCuda_ (self : addr)
  | CCpu (self : addr)
  | CDetach (self : addr)
  | CMean (self : addr)
  | CSqrt (self : addr)
  | CDiv (self y : addr)
  | CSwish (self : addr)
  | CTanh (self : addr).

Definition after {A} (m : M elem A) (st : State elem) : State elem := (m st).2.

Definition call (c : Call) : State elem → State elem :=
  match c with
  | CTensor o gp => after (Tensor_init o gp)
  | CZeros s => after (Tensor_zeros s)
  | COnes s => after (Tensor_ones s)
  | CEye dim => after (Tensor_eye dim)
  | CAssign self x => after (Tensor_assign self x)
  | CRegister name fxn gp => after (register name fxn gp)
  | CApply f x kw => after (Function_apply f x kw)
  | CMethod name x kw => after (m <- getattr name ; invoke m x kw)
  | CBinop name a b => after (Tensor_binop name a b)
  | CBackward self allow_fill => after (Tensor_backward self allow_fill)
  | CCuda self => after (Tensor_cuda self)
  | CCuda_ self => after (Tensor_cuda_ self)
  | CCpu self => after (Tensor_cpu self)
  | CDetach self => after (Tensor_detach self)
  | CMean self => after (class_method "mean" [self] (Tensor_mean self))
  | CSqrt self => after (class_method "sqrt" [self] (Tensor_sqrt self))
  | CDiv self y => after (class_method "div" [self; y] (Tensor_div self y))
  | CSwish self => after (class_method "swish" [self] (Tensor_swish self))
  | CTanh self => after (class_method "tanh" [self] (Tensor_tanh self))
  end.

Definition run (cs : list Call) (st : State elem) : State elem :=
  foldl (λ s c, call c s) st cs.

(** ** Invariants of programs *)

(** [m] never leads from a state to one that is not [R]-related to it,
    whether it returns or raises. *)
Definition stable {A} (R : relation (State elem)) (m : M elem A) : Prop :=
  ∀ st r st', m st = (r, st') → R st st'.

(** Acyclicity is kept. *)
Definition keeps_dag : relation (State elem) :=
  λ st st', dag (heap st) → dag (heap st').

(** Every tensor is on the host, flag and buffer. *)
Definition all_host (h : list (Tensor elem)) : Prop :=
  ∀ a T, h !! a = Some T → gpu T = false ∧ kind (data T) = NdArray.

Definition stays_on_host : relation (State elem) :=
  λ st st', GPU st = false ∧ all_host (heap st) →
            GPU st' = false ∧ all_host (heap st').

(** The warnings printed so far, plus the one that may still come. *)
Definition warnings_bound (st : State elem) : nat :=
  length (stdout st) + (if did_float_warning st then 0 else 1).

Definition warns_once : relation (State elem) :=
  λ st st', warnings_bound st' ≤ warnings_bound st.

(** Once the warning has been printed nothing more is printed. *)
Definition quiet : relation (State elem) :=
  λ st st', did_float_warning st = true →
            did_float_warning st' = true ∧ stdout st' = stdout st.

(** ** What the composed operations expect of the kernels *)

(** [x * y] on two arrays of one shape. *)
Definition np_mul (x y : Buffer elem) : Buffer elem :=
  mkBuffer NdArray (shape x)
           (if decide (dtype x = dtype y) then dtype x else Float64)
           (zip_with mul (elems x) (elems y)).

(** [x ** y] on two arrays of one shape. *)
Definition np_pow (x y : Buffer elem) : Buffer elem :=
  mkBuffer NdArray (shape x)
           (if decide (dtype x = dtype y) then dtype x else Float64)
           (zip_with pow (elems x) (elems y)).

(** [np.array([x.sum()])]: one element, the sum of all of [x].  numpy
    chooses the order in which it adds; [total] is the reduction it
    computes. *)
Definition np_sum (total : list elem → elem) (x : Buffer elem) : Buffer elem :=
  mkBuffer NdArray [1] (dtype x) [total (elems x)].

(** As for ["add"]: the kernels registered as ["mul"], ["pow"] and ["sum"]
    are in [tinygrad/ops.py]; what is expected of them on host arrays is
    stated here. *)
Definition multiplies_elementwise (f : Function elem) : Prop :=
  ∀ c x y, kind x = NdArray → kind y = NdArray → shape x = shape y →
    ∃ s, forward f c [x; y] ∅ = Ok (s, PBuf (np_mul x y)).


Definition sums_all (total : list elem → elem) (f : Function elem) : Prop :=
  ∀ c x, kind x = NdArray →
    ∃ s, forward f c [x] ∅ = Ok (s, PBuf (np_sum total x)).

End Methods.

Arguments Call : clear implicits.
Arguments cuda_from : simpl never.
Arguments cpu_from : simpl never.
Arguments Tensor_cuda : simpl never.
Arguments Tensor_cpu : simpl never.

(** ** Concrete instances

    Integers stand in for the scalars wherever a statement is checked on
    an explicit store. *)

#[global] Instance Z_Element : Element Z := {| one := 1%Z; add := Z.add |}.

Module Examples.

Abbreviation ZBuffer := (Buffer Z).
Abbreviation ZTensor := (Tensor Z).
Abbreviation ZFunction := (Function Z).
Abbreviation ZState := (State Z).
Abbreviation ZObj := (PyObj Z).

(** A kernel like the [Add] of the operation library: elementwise sum,
    gradient passed to both inputs. *)
Definition Add : ZFunction :=
  mkFunction "Add" []
    (λ _ xs kw,
       match xs with
       | [x; y] =>
           if decide (size kw = 0) then
             if decide (shape x = shape y) then Ok ([], PBuf (np_add x y))
             else Raise ValueError
           else Raise TypeError
       | _ => Raise TypeError
       end)
    (λ _ g, Ok (PTuple [PBuf g; PBuf g])).

(** A one-input kernel with a declared default, [forward(ctx, x, k=2)]:
    it scales by [k] on the way forward and on the way back. *)
Definition scale_by (k : Z) (b : ZBuffer) : ZBuffer :=
  mkBuffer (kind b) (shape b) (dtype b) (map (Z.mul k) (elems b)).

Definition the_k (m : gmap string ZObj) : Z :=
  match m !! "k" with
  | Some (PFloat k) => k
  | _ => 2%Z
  end.

Definition Scale : ZFunction :=
  mkFunction "Scale" [("k", PFloat 2%Z)]
    (λ _ xs kw,
       match xs with
       | [x] => Ok ([], PBuf (scale_by (the_k kw) x))
       | _ => Raise TypeError
       end)
    (λ c g, Ok (PBuf (scale_by (the_k (attrs c)) g))).

Definition vec (l : list Z) : ZBuffer := mkBuffer NdArray [length l] Float32 l.

Definition leaf (b : ZBuffer) : ZTensor := mkTensor b None None false.

Definition node (b : ZBuffer) (f : ZFunction) (ps : list addr) : ZTensor :=
  mkTensor b None (Some (mkCtx f (mkContext ps [] ∅))) false.

(** The state after [import tinygrad.ops] registered the two kernels on
    the host, with an empty store. *)
Definition st0 : ZState :=
  (register "scale" Scale false
     (register "add" Add false
        (mkState [] ∅ ∅ ∅ false false false [])).2).2.

Definition with_heap (h : list ZTensor) : ZState := set_heap (λ _, h) st0.

(** [x = Tensor([1., 2.])]. *)
Definition st_leaf : ZState := with_heap [leaf (vec [1; 2])]%Z.

(** [x = Tensor([[3.]]); y = x.scale()]: a result of shape (1, 1), at
    address 1. *)
Definition st_1x1 : ZState :=
  (dispatch "scale" [0] ∅
     (Tensor_init (PList [LList [LNum 3%Z]]) None st0).2).2.

(** [x = Tensor([3.]); u = x.scale()]: [u] is at address 1. *)
Definition st_chain : ZState :=
  (dispatch "scale" [0] ∅
     (Tensor_init (PList [LNum 3%Z]) None st0).2).2.

(** [v = x.scale(k=5); y = u.add(v)] after that: [v] is at address 2 and
    [y] at address 3. *)
Definition st_diamond : ZState :=
  (dispatch "add" [1; 2] ∅
     (dispatch "scale" [0] {["k" := PFloat 5%Z]} st_chain).2).2.

(** An array of integers, as [np.array([1, 2])] builds. *)
Definition int_array : ZBuffer := mkBuffer NdArray [2] Int64 [1; 2]%Z.

Definition double_array : ZBuffer := mkBuffer NdArray [2] Float64 [1; 2]%Z.

End Examples.

(** ** More stores

    The same process with the accelerator module installed, tensors that
    carry a gradient, and a kernel that is wrong about what [backward]
    must return. *)
Module Devices.
Import Examples.

Definition with_module (s : ZState) : ZState :=
  mkState (heap s) (ops s) (opsgpu s) (methods s) true (default_gpu s)
          (did_float_warning s) (stdout s).

(** [x = Tensor([1., 2.])] on the host, with the module. *)
Definition st_host : ZState := with_module st_leaf.

(** [d = x.cuda()] after that: [d] is at address 1. *)
Definition st_device : ZState := (Tensor_cuda 0 st_host).2.

(** [x = Tensor([3.]); u = x.scale(); u.backward()]: the seed is at
    address 2 and [x.grad] at address 3. *)
Definition st_graded : ZState := (Tensor_backward 1 true st_chain).2.

Definition st_graded_module : ZState := with_module st_graded.

(** [w = Tensor([1., 2.])] after that, at address 4. *)
Definition st_reshaped : ZState :=
  (Tensor_init (PList [LNum 1; LNum 2]%Z) None st_graded).2.

(** [x = Tensor(np.array([1., 2.]))] with float64 elements, with the
    module. *)
Definition st_double : ZState :=
  with_module (Tensor_init (PBuf double_array) None st0).2.

(** [x = Tensor([[3.]]); y = x.scale(); y.grad = Tensor([[1.]])]: the
    gradient is at address 2. *)
Definition st_preset : ZState :=
  (set_grad 1 (Some 2)
     (Tensor_init (PList [LList [LNum 1%Z]]) None st_1x1).2).2.

(** A kernel whose [backward] returns the same value whatever it is
    given; [forward] hands on its first input. *)
Definition Returning (v : ZObj) : ZFunction :=
  mkFunction "Returning" []
    (λ _ xs _,
       match xs with
       | x :: _ => Ok ([], PBuf x)
       | [] => Raise TypeError
       end)
    (λ _ _, Ok v).

(** [x = Tensor([3.]); w = Tensor([4.])]. *)
Definition st_two : ZState :=
  (Tensor_init (PList [LNum 4%Z]) None
     (Tensor_init (PList [LNum 3%Z]) None st0).2).2.

(** [t = Returning.apply(Returning, *ps)] on [st_two], at address 2, and
    the seed of [t.backward()], at address 3. *)
Definition st_returning (v : ZObj) (ps : list addr) : ZState :=
  (fill_grad 2 true (Function_apply (Returning v) ps ∅ st_two).2).2.

(** [x = Tensor([3.]); u = x.scale()] and a result [y] of [u] whose
    kernel returns [None] from [backward]: [y] is at address 2. *)
Definition st_starved : ZState :=
  (Function_apply (Returning PNone) [1] ∅ st_chain).2.

End Devices.

(** ** Rationals

    Where an example needs fractions the scalars are rationals, kept in
    lowest terms. *)
Module Rationals.

Abbreviation Q := QArith_base.Q.

Definition num (n : Z) : Q := QArith_base.inject_Z n.

Definition Qadd (x y : Q) : Q := Qreduction.Qred (QArith_base.Qplus x y).

Definition Qmul (x y : Q) : Q := Qreduction.Qred (QArith_base.Qmult x y).

(** [x ** e] for an exponent that is an integer, which is all the
    examples use; other powers are not rational. *)
Definition Qpow (x e : Q) : Q :=
  match QArith_base.Qden e with
  | xH => Qreduction.Qred (QArith_base.Qpower x (QArith_base.Qnum e))
  | _ => num 0
  end.

(** [1/n] as an array of the given type stores it: truncated for
    integers.  The examples divide by positive counts only. *)
Definition Qrecip (d : DType) (n : nat) : Q :=
  match d with
  | Int64 => if decide (n = 1) then num 1 else num 0
  | _ => Qreduction.Qred (QArith_base.Qinv (num (Z.of_nat n)))
  end.

#[global] Instance Q_Element : Element Q := {| one := num 1; add := Qadd |}.

#[global] Instance Q_Constants : Constants Q := {|
  zero := num 0;
  half := QArith_base.Qmake 1 2;
  two := num 2;
  minus_one := num (-1);
  recip := Qrecip;
  mul := Qmul;
  pow := Qpow
|}.

(** Addition of rationals is associative: the order in which [sum] adds
    does not matter. *)
Definition total (l : list Q) : Q := foldr Qadd (num 0) l.

Definition same_shape (x y : Buffer Q) (r : Buffer Q)
    : Result (list (PyObj Q) * PyObj Q) :=
  if decide (shape x = shape y) then Ok ([PBuf x; PBuf y], PBuf r)
  else Raise ValueError.

(** Kernels like those of the operation library. *)
Definition QAdd : Function Q :=
  mkFunction "Add" []
    (λ _ xs kw,
       match xs with
       | [x; y] =>
           if decide (size kw = 0) then same_shape x y (np_add x y)
           else Raise TypeError
       | _ => Raise TypeError
       end)
    (λ _ g, Ok (PTuple [PBuf g; PBuf g])).

Definition QMul : Function Q :=
  mkFunction "Mul" []
    (λ _ xs kw,
       match xs with
       | [x; y] =>
           if decide (size kw = 0) then same_shape x y (np_mul x y)
           else Raise TypeError
       | _ => Raise TypeError
       end)
    (λ c g,
       match saved_tensors c with
       | [PBuf x; PBuf y] => Ok (PTuple [PBuf (np_mul y g); PBuf (np_mul x g)])
       | _ => Raise ValueError
       end).

(** The exponent gets no gradient: it would need a logarithm. *)
Definition QPow : Function Q :=
  mkFunction "Pow" []
    (λ _ xs kw,
       match xs with
       | [x; y] =>
           if decide (size kw = 0) then same_shape x y (np_pow x y)
           else Raise TypeError
       | _ => Raise TypeError
       end)
    (λ c g,
       match saved_tensors c with
       | [PBuf x; PBuf y] =>
           Ok (PTuple
                 [PBuf (np_mul
                          (np_mul y (np_pow x (np_add y
                             (np_full (shape y) (dtype y) minus_one))))
                          g);
                  PNone])
       | _ => Raise ValueError
       end).

Definition QSum : Function Q :=
  mkFunction "Sum" []
    (λ _ xs kw,
       match xs with
       | [x] =>
           if decide (size kw = 0) then Ok ([PBuf x], PBuf (np_sum total x))
           else Raise TypeError
       | _ => Raise TypeError
       end)
    (λ c g,
       match saved_tensors c, elems g with
       | [PBuf x], [v] =>
           Ok (PBuf (mkBuffer NdArray (shape x) (dtype x)
                       (replicate (length (elems x)) v)))
       | _, _ => Raise ValueError
       end).

(** A rational stand-in for the sigmoid: [x / (1 + |x|)]. *)
Definition squash (v : Q) : Q :=
  Qreduction.Qred
    (QArith_base.Qdiv v (QArith_base.Qplus (num 1) (Qabs.Qabs v))).

Definition squash' (v : Q) : Q :=
  Qreduction.Qred
    (QArith_base.Qinv
       (QArith_base.Qpower (QArith_base.Qplus (num 1) (Qabs.Qabs v)) 2)).

Definition Squash : Function Q :=
  mkFunction "Sigmoid" []
    (λ _ xs kw,
       match xs with
       | [x] =>
           if decide (size kw = 0)
           then Ok ([PBuf x],
                    PBuf (mkBuffer NdArray (shape x) (dtype x)
                            (map squash (elems x))))
           else Raise TypeError
       | _ => Raise TypeError
       end)
    (λ c g,
       match saved_tensors c with
       | [PBuf x] =>
           Ok (PBuf (mkBuffer NdArray (shape x) (dtype x)
                       (zip_with Qmul (map squash' (elems x)) (elems g))))
       | _ => Raise ValueError
       end).

(** The state after the kernels were registered on the host. *)
Definition q0 : State Q :=
  foldl (λ s p, (register p.1 p.2 false s).2)
        (mkState [] ∅ ∅ ∅ false false false [])
        [("add", QAdd); ("mul", QMul); ("pow", QPow); ("sum", QSum);
         ("sigmoid", Squash)].

Definition vector (l : list Z) : list (Lit Q) := map (λ n, LNum (num n)) l.

(** [x = Tensor([1., 2., 3., 6.])]. *)
Definition q_x : State Q := (Tensor_init (PList (vector [1; 2; 3; 6]%Z)) None q0).2.



(** A client: it builds a tensor, composes operations on it, differentiates,
    and also makes calls that fail. *)
Definition client : list (Call Q) :=
  [CTensor (PList (vector [2]%Z)) None;
   CSwish 0;
   CBackward 2 true;
   CMethod "mul" [0; 0] ∅;
   CMean 3;
   CEye 2;
   CCuda 0;
   CTanh 0;
   CDetach 2;
   CBinop "add" 0 0;
   CTensor (PBuf (mkBuffer NdArray [1] Float64 [num 1])) None;
   CBackward 3 true].

End Rationals.

(** * Properties *)

Section Properties.
Context {elem : Type} `{Element elem}.

Implicit Types (st : State elem) (h : list (Tensor elem)).
Implicit Types (T : Tensor elem) (b : Buffer elem) (f : Function elem).
Implicit Types (c : Ctx elem) (o : PyObj elem).

(** ** The monad *)

Lemma bind_Ok {A B} (m : M elem A) (k : A → M elem B) st a st' :
  m st = (Ok a, st') → bind m k st = k a st'.
Proof. unfold bind. by intros ->. Qed.

Lemma bind_Raise {A B} (m : M elem A) (k : A → M elem B) st e st' :
  m st = (Raise e, st') → bind m k st = (Raise e, st').
Proof. unfold bind. by intros ->. Qed.

Lemma bind_inv_Ok {A B} (m : M elem A) (k : A → M elem B) st y st' :
  bind m k st = (Ok y, st') →
  ∃ a st1, m st = (Ok a, st1) ∧ k a st1 = (Ok y, st').
Proof.
  unfold bind. destruct (m st) as [[a|e] st1]; [eauto | done].
Qed.

Lemma read_Ok st a T : heap st !! a = Some T → read a st = (Ok T, st).
Proof. unfold read. by intros ->. Qed.

(** ** The registry is only written by [register] *)


Lemma same_registry_refl st : same_registry st st.
Proof. by repeat split. Qed.

Lemma same_registry_trans st1 st2 st3 :
  same_registry st1 st2 → same_registry st2 st3 → same_registry st1 st3.
Proof.
  intros (?&?&?&?&?) (?&?&?&?&?). repeat split; congruence.
Qed.

Lemma same_registry_set_heap k st : same_registry st (set_heap k st).
Proof. by repeat split. Qed.

Lemma same_registry_warn s st : same_registry st (warn_float s st).
Proof. by repeat split. Qed.

(** ** [Tensor.__init__] *)

(** What a construction does to the store and to the warning flag,
    whatever its outcome. *)
Lemma Tensor_init_inv o gp st r st' :
  Tensor_init o gp st = (r, st') →
  same_registry st st' ∧
  (did_float_warning st = true →
     did_float_warning st' = true ∧ stdout st' = stdout st) ∧
  length (stdout st') ≤ S (length (stdout st)) ∧
  (length (stdout st') = S (length (stdout st)) →
     did_float_warning st = false ∧ did_float_warning st' = true) ∧
  match r with
  | Ok n =>
      n = length (heap st) ∧
      ∃ d g', heap st' = heap st ++ [mkTensor d None None g'] ∧
              obj_shape o = Some (shape d)
  | Raise _ => heap st' = heap st
  end.
Proof.
  unfold Tensor_init, cuda_, bind, gets, ret, raise, lift, modify, alloc,
    np_array.
  intros Hrun.
  repeat (case_match; simplify_eq/=);
    repeat split; simpl; try done; try lia; eauto;
    try (intros; exfalso; lia);
    try (rewrite length_app; simpl; lia).
  all: match goal with
       | Hw : _ && negb (did_float_warning ?s) = true |- _ =>
           apply andb_prop in Hw as [_ Hw];
           destruct (did_float_warning s); simpl in *; congruence
       end.
Qed.

Lemma Tensor_init_heap_prefix o gp st r st' :
  Tensor_init o gp st = (r, st') → heap st `prefix_of` heap st'.
Proof.
  intros Hrun. apply Tensor_init_inv in Hrun as (_&_&_&_&Hr).
  destruct r as [n|e].
  - destruct Hr as (_&d&g'&->&_). by apply prefix_app_r.
  - by rewrite Hr.
Qed.

(** A host array on the default host device: the tensor is built around
    the very array, with a warning the first time the type is not
    float32. *)
Lemma Tensor_init_ndarray b gp st :
  kind b = NdArray → default (default_gpu st) gp = false →
  Tensor_init (PBuf b) gp st =
    (Ok (length (heap st)),
     set_heap (λ h, h ++ [mkTensor b None None false])
       (if bool_decide (dtype b ≠ Float32) && negb (did_float_warning st)
        then warn_float (shape b) st else st)).
Proof.
  intros Hk Hg.
  unfold Tensor_init, bind, gets, ret, raise, lift, modify, alloc.
  destruct b as [k s d e]; simpl in *; subst k.
  destruct gp as [[]|]; simpl in Hg; try done; simpl; try rewrite Hg; simpl;
    by destruct (bool_decide (d ≠ Float32) && negb (did_float_warning st)).
Qed.

(** ** [Tensor.backward] on a leaf *)

(** C7. For every tensor [t] with no producer, [t.backward()] returns at
    once: the result is [None] and the whole state, [t.grad] included, is
    the one before the call. *)
Theorem backward_leaf_noop st self T allow_fill :
  heap st !! self = Some T → _ctx T = None →
  Tensor_backward self allow_fill st = (Ok tt, st).
Proof.
  intros Hself Hctx. unfold Tensor_backward.
  rewrite (bind_Ok _ _ _ _ _ (read_Ok _ _ _ Hself)). by rewrite Hctx.
Qed.

(** ** One (parent, gradient) pair *)

Lemma accumulate_None c t st : accumulate c t PNone st = (Ok tt, st).
Proof. done. Qed.



(** ** Seeding *)

Lemma length_alter_heap (k : Tensor elem → Tensor elem) a h :
  length (alter k a h) = length h.
Proof. apply length_alter. Qed.

(** The seeding of a tensor of shape [(1,)]. *)
Lemma fill_grad_seed st self T c :
  heap st !! self = Some T → _ctx T = Some c → grad T = None →
  shape (data T) = [1] →
  (gpu T = true → GPU st = true ∧ dtype (data T) = Float32) →
  ∃ st',
    fill_grad self true st = (Ok tt, st') ∧
    same_registry st st' ∧
    length (heap st') = S (length (heap st)) ∧
    heap st' !! self =
      Some (mkTensor (data T) (Some (length (heap st))) (Some c) (gpu T)) ∧
    heap st' !! length (heap st) =
      Some (mkTensor
              ((if gpu T then cl_Buffer else id)
                 (np_ones [1] (dtype (data T))))
              None None (gpu T)) ∧
    (∀ a, a ≠ self → a < length (heap st) → heap st' !! a = heap st !! a) ∧
    Tensor_backward self true st =
      (nodes <- walk self ; forM_ (backward_node c) (reverse nodes)) st'.
Proof.
  intros Hself Hctx Hgrad Hshape Hdev.
  assert (Hlt : self < length (heap st)) by by eapply lookup_lt_Some.
  assert (∃ st1, same_registry st st1 ∧ heap st1 = heap st ∧
            Tensor_init (PBuf (np_ones (shape (data T)) (dtype (data T))))
              (Some (gpu T)) st =
            (Ok (length (heap st)),
             set_heap (λ h, h ++ [mkTensor
               ((if gpu T then cl_Buffer else id)
                  (np_ones [1] (dtype (data T)))) None None (gpu T)]) st1))
    as (st1 & Hreg & Hh1 & Hinit).
  { rewrite Hshape.
    unfold Tensor_init, cuda_, bind, gets, ret, raise, lift, modify, alloc.
    simpl. destruct (gpu T) eqn:Hg.
    - destruct Hdev as [HG Hd]; [done|]. rewrite Hd. simpl.
      rewrite HG. simpl.
      eexists. split; [|split]; [| |reflexivity];
        [apply same_registry_refl | done].
    - destruct (bool_decide (dtype (data T) ≠ Float32) &&
                negb (did_float_warning st)); simpl;
        eexists; (split; [|split]; [| |reflexivity]);
        first [apply same_registry_refl | apply same_registry_warn | done]. }
  assert (Hfill : fill_grad self true st =
            (Ok tt, set_heap (alter (λ t, mkTensor (data t)
               (Some (length (heap st))) (_ctx t) (gpu t)) self)
               (set_heap (λ h, h ++ [mkTensor
                 ((if gpu T then cl_Buffer else id)
                    (np_ones [1] (dtype (data T)))) None None (gpu T)])
                 st1))).
  { unfold fill_grad.
    rewrite (bind_Ok _ _ _ _ _ (read_Ok _ _ _ Hself)), Hgrad.
    rewrite decide_True by done.
    by rewrite (bind_Ok _ _ _ _ _ Hinit). }
  eexists. split; [exact Hfill|].
  split; [|split; [|split; [|split; [|split]]]].
  - eapply same_registry_trans; [exact Hreg|].
    eapply same_registry_trans; apply same_registry_set_heap.
  - simpl. rewrite length_alter, Hh1, length_app. simpl. lia.
  - simpl. rewrite Hh1. rewrite list_lookup_alter_eq.
    rewrite lookup_app_l by done. rewrite Hself. simpl.
    by rewrite Hctx.
  - simpl. rewrite Hh1. rewrite list_lookup_alter_ne by lia.
    by rewrite list_lookup_middle.
  - intros a Hne Ha. simpl. rewrite Hh1.
    rewrite list_lookup_alter_ne by done. by rewrite lookup_app_l.
  - unfold Tensor_backward.
    rewrite (bind_Ok _ _ _ _ _ (read_Ok _ _ _ Hself)), Hctx.
    by rewrite (bind_Ok _ _ _ _ _ Hfill).
Qed.

(** C3, as the code has it.  [backward] is called with [allow_fill] on a
    tensor that has a producer and no [grad].  When the shape of its data
    is not exactly [(1,)], the call fails with an [AssertionError] and
    changes nothing; a single element is not enough, the shape [(1, 1)]
    fails too.  When the shape is [(1,)] (and, for a tensor on the
    accelerator, the accelerator module is there and the data is float32),
    [grad] becomes a new tensor of ones with the shape and element type of
    the data, on the device of the tensor, a leaf without [grad]; the walk
    and the propagation then run from that state. *)
Theorem backward_seeds_shape_1 st self T c :
  heap st !! self = Some T → _ctx T = Some c → grad T = None →
  (shape (data T) ≠ [1] →
     Tensor_backward self true st = (Raise (AssertionError None), st))
  ∧ (shape (data T) = [1] →
     (gpu T = true → GPU st = true ∧ dtype (data T) = Float32) →
     ∃ st',
       fill_grad self true st = (Ok tt, st') ∧
       same_registry st st' ∧
       length (heap st') = S (length (heap st)) ∧
       heap st' !! self =
         Some (mkTensor (data T) (Some (length (heap st))) (Some c) (gpu T)) ∧
       heap st' !! length (heap st) =
         Some (mkTensor
                 ((if gpu T then cl_Buffer else id)
                    (np_ones [1] (dtype (data T))))
                 None None (gpu T)) ∧
       (∀ a, a ≠ self → a < length (heap st) → heap st' !! a = heap st !! a) ∧
       Tensor_backward self true st =
         (nodes <- walk self ; forM_ (backward_node c) (reverse nodes)) st').
Proof.
  intros Hself Hctx Hgrad. split.
  - intros Hne. unfold Tensor_backward.
    rewrite (bind_Ok _ _ _ _ _ (read_Ok _ _ _ Hself)), Hctx.
    apply bind_Raise. unfold fill_grad.
    rewrite (bind_Ok _ _ _ _ _ (read_Ok _ _ _ Hself)), Hgrad.
    by rewrite decide_False.
  - intros Hshape Hdev. by apply fill_grad_seed.
Qed.

(** ** Construction *)

Lemma construct_all_warns_once calls st :
  length (stdout (construct_all calls st)) ≤
    length (stdout st) + (if did_float_warning st then 0 else 1).
Proof.
  revert st. induction calls as [|[o gp] calls IH]; intros st; simpl.
  { lia. }
  destruct (Tensor_init o gp st) as [r st1] eqn:Hrun. simpl.
  apply Tensor_init_inv in Hrun as (_ & Hset & Hle & Hnew & _).
  specialize (IH st1).
  destruct (did_float_warning st) eqn:Hw.
  - destruct Hset as [Hw1 Hout]; [done|]. rewrite Hw1, Hout in IH. lia.
  - destruct (decide (length (stdout st1) = S (length (stdout st)))) as [He|Hn].
    + destruct (Hnew He) as [_ Hw1]. rewrite Hw1 in IH. lia.
    + destruct (did_float_warning st1); lia.
Qed.

(** C5, as the code has it.  [Tensor(data)] accepts a list and an array
    (and an accelerator buffer when the accelerator module is there); for
    anything else, [None], a number, a tuple, it raises [TypeError] and
    changes nothing.  A list of numbers, nested evenly, becomes a float32
    array; a ragged one is refused by numpy with [ValueError].  An array is
    taken as it is whatever its element type, float32, another floating
    type or an integer type: on the host the construction succeeds, and
    when the type is not float32 and no warning was printed before, it
    prints the warning and records that it did.  So a process prints the
    warning at most once, however many tensors it builds. *)
Theorem Tensor_init_accepts :
  (∀ o gp st, match o with PList _ | PBuf _ => False | _ => True end →
     Tensor_init o gp st = (Raise TypeError, st))
  ∧ (∀ b gp st, kind b = ClBuffer → GPU st = false →
       Tensor_init (PBuf b) gp st = (Raise TypeError, st))
  ∧ (∀ l gp st, default (default_gpu st) gp = false →
       Tensor_init (PList l) gp st =
         match lit_shape (LList l) with
         | Some s =>
             (Ok (length (heap st)),
              set_heap (λ h, h ++ [mkTensor
                (mkBuffer NdArray s Float32 (lit_flat (LList l)))
                None None false]) st)
         | None => (Raise ValueError, st)
         end)
  ∧ (∀ b gp st, kind b = NdArray → default (default_gpu st) gp = false →
       Tensor_init (PBuf b) gp st =
         (Ok (length (heap st)),
          set_heap (λ h, h ++ [mkTensor b None None false])
            (if bool_decide (dtype b ≠ Float32) && negb (did_float_warning st)
             then warn_float (shape b) st else st)))
  ∧ (∀ calls st,
       length (stdout (construct_all calls st)) ≤
         length (stdout st) + (if did_float_warning st then 0 else 1)).
Proof.
  split; [|split; [|split; [|split]]].
  - intros o gp st Ho.
    unfold Tensor_init, bind, gets, ret, raise, lift.
    destruct o; try done; by destruct gp.
  - intros b gp st Hk HG.
    unfold Tensor_init, bind, gets, ret, raise, lift.
    destruct gp; simpl; by rewrite Hk, HG.
  - intros l gp st Hg.
    unfold Tensor_init, bind, gets, ret, raise, lift, modify, alloc, np_array.
    destruct (lit_shape (LList l)) as [s|];
      destruct gp as [[]|]; simpl in Hg; try done; simpl;
      by try rewrite Hg.
  - apply Tensor_init_ndarray.
  - apply construct_all_warns_once.
Qed.

(** ** [Function.apply] *)

Lemma forM_read_inv (x : list addr) st r st' :
  forM read x st = (r, st') →
  st' = st ∧
  ∀ ts, r = Ok ts → Forall2 (λ a T, heap st !! a = Some T) x ts.
Proof.
  revert r st'. induction x as [|a x IH]; intros r st' Hrun; simpl in Hrun.
  { unfold ret in Hrun. simplify_eq. split; [done|]. intros ts [= <-].
    constructor. }
  unfold bind at 1 in Hrun.
  destruct (read a st) as [[T|e] st0] eqn:Hr; unfold read in Hr;
    destruct (heap st !! a) as [T'|] eqn:Ha; try discriminate;
    injection Hr as HT Hst; subst st0; [subst T'|by simplify_eq].
  unfold bind at 1 in Hrun.
  destruct (forM read x st) as [[ts'|e] st1] eqn:Hrest.
  - destruct (IH _ _ eq_refl) as [-> Hts]. unfold ret in Hrun. simplify_eq.
    split; [done|]. intros ts [= <-]. constructor; auto.
  - destruct (IH _ _ eq_refl) as [-> _]. by simplify_eq.
Qed.

Lemma setattr_defaults (l : list (string * PyObj elem)) (c0 : Context elem) :
  let c1 := foldl (λ cx p, setattr cx p.1 p.2) c0 l in
  parents c1 = parents c0 ∧ saved_tensors c1 = saved_tensors c0 ∧
  attrs c1 = list_to_map (reverse l) ∪ attrs c0.
Proof.
  revert c0. induction l as [|[k v] l IH]; intros c0; simpl.
  { by rewrite (left_id_L ∅ (∪)). }
  destruct (IH (setattr c0 k v)) as (Hp & Hs & Ha).
  rewrite Hp, Hs, Ha. repeat split; try done. simpl.
  rewrite reverse_cons, list_to_map_app. simpl.
  rewrite <-(assoc_L (∪)). f_equal.
  by rewrite <-insert_union_l, (left_id_L ∅ (∪)).
Qed.

Lemma setattr_kwargs (kw : gmap string (PyObj elem)) (c0 : Context elem) :
  let c1 := map_fold (λ k v cx, setattr cx k v) c0 kw in
  parents c1 = parents c0 ∧ saved_tensors c1 = saved_tensors c0 ∧
  attrs c1 = kw ∪ attrs c0.
Proof.
  simpl. induction kw as [|k v kw Hk Hfold IH] using map_first_key_ind.
  { rewrite map_fold_empty. by rewrite (left_id_L ∅ (∪)). }
  rewrite map_fold_insert_first_key by done.
  destruct IH as (Hp & Hs & Ha). simpl. rewrite Hp, Hs, Ha.
  repeat split; try done. by rewrite insert_union_l.
Qed.

(** The context [apply] builds before it runs [forward]. *)
Lemma resolve_attrs f (x : list addr) (kw : gmap string (PyObj elem)) :
  parents (resolve f x kw) = x ∧
  saved_tensors (resolve f x kw) = [] ∧
  attrs (resolve f x kw) = kw ∪ list_to_map (reverse (defaults f)).
Proof.
  unfold resolve.
  destruct (setattr_kwargs kw
    (foldl (λ cx p, setattr cx p.1 p.2) (mkContext x [] ∅) (defaults f)))
    as (Hp & Hs & Ha).
  destruct (setattr_defaults (defaults f) (mkContext x [] ∅))
    as (Hp' & Hs' & Ha').
  simpl in *. rewrite Hp, Hs, Ha, Hp', Hs', Ha'.
  by rewrite (right_id_L ∅ (∪)).
Qed.

(** What [apply] does to the store, whatever its outcome. *)
Lemma Function_apply_inv f (x : list addr) kw st r st' :
  Function_apply f x kw st = (r, st') →
  same_registry st st' ∧
  match r with
  | Ok out =>
      out = length (heap st) ∧
      ∃ ts s o d g',
        Forall2 (λ a T, heap st !! a = Some T) x ts ∧
        forward f (resolve f x kw) (map data ts) kw = Ok (s, o) ∧
        obj_shape o = Some (shape d) ∧
        heap st' = heap st ++
          [mkTensor d None
             (Some (mkCtx f (save_for_backward (resolve f x kw) s))) g']
  | Raise _ => heap st' = heap st
  end.
Proof.
  unfold Function_apply. intros Hrun.
  unfold bind at 1 in Hrun.
  destruct (forM read x st) as [[ts|e] st1] eqn:Hread;
    apply forM_read_inv in Hread as [-> Hts];
    [|simplify_eq; split; [apply same_registry_refl | done]].
  unfold bind at 1 in Hrun. unfold lift in Hrun.
  destruct (forward f (resolve f x kw) (map data ts) kw) as [[s o]|e] eqn:Hfwd;
    [|simplify_eq; split; [apply same_registry_refl | done]].
  unfold bind at 1 in Hrun. simpl in Hrun.
  destruct (Tensor_init o None st) as [[out|e] st2] eqn:Hinit;
    apply Tensor_init_inv in Hinit as (Hreg & _ & _ & _ & Hr);
    [|by simplify_eq].
  destruct Hr as (-> & d & g' & Hheap & Hshape).
  unfold bind, set_ctx, modify, ret in Hrun. simplify_eq.
  split. { eapply same_registry_trans; [done | apply same_registry_set_heap]. }
  split; [done|]. exists ts, s, o, d, g'.
  repeat split; auto. simpl. rewrite Hheap.
  rewrite <-(Nat.add_0_r (length (heap st))), alter_app_r. done.
Qed.

(** C9. The context that [apply] attaches to its result carries, for every
    name, the value of the keyword argument of that name when the caller
    passed one, and otherwise the default that [forward] declares for it:
    the defaults are set first and the keyword arguments written over
    them. *)
Theorem apply_overrides_defaults f (x : list addr) kw st out st' :
  Function_apply f x kw st = (Ok out, st') →
  ∃ T c,
    heap st' !! out = Some T ∧ _ctx T = Some c ∧
    cls c = f ∧ parents (inst c) = x ∧
    attrs (inst c) = kw ∪ list_to_map (reverse (defaults f)) ∧
    (∀ k v, kw !! k = Some v → attrs (inst c) !! k = Some v) ∧
    (∀ k, kw !! k = None →
       attrs (inst c) !! k =
         (list_to_map (reverse (defaults f)) : gmap string _) !! k).
Proof.
  intros Hrun.
  apply Function_apply_inv in Hrun as (_ & -> & ts & s & o & d & g' & _ & _ & _ & Hheap).
  destruct (resolve_attrs f x kw) as (Hp & _ & Ha).
  destruct (resolve f x kw) as [ps sv ats]. simpl in *. subst ps ats.
  eexists _, _. rewrite Hheap. split; [by apply list_lookup_middle|].
  split; [reflexivity|]. simpl. repeat split.
  - intros k v Hk. by apply lookup_union_Some_l.
  - intros k Hk. by rewrite lookup_union_r.
Qed.

(** ** [dispatch] and the in-place operators *)

Lemma dispatch_inv name (x : list addr) kw st r st' :
  dispatch name x kw st = (r, st') →
  same_registry st st' ∧
  match r with
  | Ok out =>
      out = length (heap st) ∧
      ∃ x0 T0 f ts s o d g',
        head x = Some x0 ∧ heap st !! x0 = Some T0 ∧
        (if gpu T0 then opsgpu st else ops st) !! name = Some f ∧
        Forall2 (λ a T, heap st !! a = Some T) x ts ∧
        forward f (resolve f x kw) (map data ts) kw = Ok (s, o) ∧
        obj_shape o = Some (shape d) ∧
        heap st' = heap st ++
          [mkTensor d None
             (Some (mkCtx f (save_for_backward (resolve f x kw) s))) g']
  | Raise _ => heap st' = heap st
  end.
Proof.
  unfold dispatch. intros Hrun.
  destruct x as [|x0 xs].
  { unfold raise in Hrun. simplify_eq. split; [apply same_registry_refl|done]. }
  unfold bind at 1 in Hrun.
  destruct (read x0 st) as [[T0|e] st0] eqn:Hr; unfold read in Hr;
    destruct (heap st !! x0) as [T0'|] eqn:Hx0; try discriminate;
    injection Hr as HT Hst; subst st0;
    [subst T0'|simplify_eq; split; [apply same_registry_refl|done]].
  unfold bind at 1 in Hrun. unfold gets in Hrun.
  assert (Hsel : (if gpu T0 then opsgpu else ops) st =
                 if gpu T0 then opsgpu st else ops st) by by destruct (gpu T0).
  rewrite Hsel in Hrun. clear Hsel.
  destruct ((if gpu T0 then opsgpu st else ops st) !! name) as [f|] eqn:Hf.
  - apply Function_apply_inv in Hrun as [Hreg Hr]. split; [done|].
    destruct r as [out|e]; [|done].
    destruct Hr as (-> & ts & s & o & d & g' & Hts & Hfwd & Hshape & Hheap).
    split; [done|]. exists x0, T0, f, ts, s, o, d, g'.
    repeat split; done.
  - unfold raise in Hrun. simplify_eq.
    split; [apply same_registry_refl|done].
Qed.



(** ** The walk *)

Lemma deepwalk_S fuel h node (s : gset addr * list addr) :
  deepwalk (S fuel) h node s =
    match h !! node with
    | None => Raise ReferenceError
    | Some t =>
        match _ctx t with
        | None => Ok ({[node]} ∪ s.1, s.2)
        | Some c =>
            match
              foldl (λ acc i,
                       match acc with
                       | Ok s' => if decide (i ∈ s'.1) then Ok s'
                                  else deepwalk fuel h i s'
                       | Raise e => Raise e
                       end)
                    (Ok ({[node]} ∪ s.1, s.2)) (parents (inst c))
            with
            | Ok s' => Ok (s'.1, s'.2 ++ [node])
            | Raise e => Raise e
            end
        end
    end.
Proof. done. Qed.






Lemma reach_trans h a1 a2 a3 :
  reach h a1 a2 → reach h a2 a3 → reach h a1 a3.
Proof. induction 1; [done|]. intros. eapply reach_step; eauto. Qed.

Section Walk.
Variable h : list (Tensor elem).
Hypothesis Hdag : dag h.



End Walk.



Lemma dag_check_sound h : dag_check h = true → dag h.
Proof.
  unfold dag_check. rewrite forallb_forall. intros Hall a p Hp.
  destruct (decide (a < length h)) as [Hlt|Hge].
  - assert (Ha : In a (seq 0 (length h))) by (apply in_seq; lia).
    specialize (Hall a Ha). rewrite forallb_forall in Hall.
    apply list_elem_of_In in Hp. specialize (Hall p Hp).
    by apply bool_decide_eq_true in Hall.
  - unfold parents_of in Hp. rewrite lookup_ge_None_2 in Hp by lia.
    by apply elem_of_nil in Hp.
Qed.

(** What the engine builds keeps parents older than their consumers. *)
Lemma dag_app_leaf h T :
  dag h → _ctx T = None → dag (h ++ [T]).
Proof.
  intros Hdag Hc a p Hp. unfold parents_of in Hp.
  destruct (decide (a < length h)) as [Hlt|Hge].
  - rewrite lookup_app_l in Hp by done. by apply Hdag.
  - destruct (decide (a = length h)) as [->|Hne].
    + rewrite list_lookup_middle, Hc in Hp by done. by apply elem_of_nil in Hp.
    + rewrite lookup_ge_None_2 in Hp; [by apply elem_of_nil in Hp|].
      rewrite length_app. simpl. lia.
Qed.

Lemma Tensor_init_dag o gp st r st' :
  Tensor_init o gp st = (r, st') → dag (heap st) → dag (heap st').
Proof.
  intros Hrun Hdag. apply Tensor_init_inv in Hrun as (_&_&_&_&Hr).
  destruct r as [n|e]; [|by rewrite Hr].
  destruct Hr as (_ & d & g' & -> & _). by apply dag_app_leaf.
Qed.

Lemma Function_apply_dag f (x : list addr) kw st r st' :
  Function_apply f x kw st = (r, st') → dag (heap st) → dag (heap st').
Proof.
  intros Hrun Hdag. apply Function_apply_inv in Hrun as [_ Hr].
  destruct r as [out|e]; [|by rewrite Hr].
  destruct Hr as (-> & ts & s & o & d & g' & Hts & _ & _ & ->).
  intros a p Hp. unfold parents_of in Hp.
  destruct (decide (a < length (heap st))) as [Hlt|Hge].
  - rewrite lookup_app_l in Hp by done. by apply Hdag.
  - destruct (decide (a = length (heap st))) as [->|Hne].
    + rewrite list_lookup_middle in Hp by done. simpl in Hp.
      destruct (resolve_attrs f x kw) as (Hpar & _ & _).
      assert (Hpx : p ∈ x).
      { destruct (resolve f x kw); simpl in *. by subst. }
      apply list_elem_of_lookup in Hpx as [i Hi].
      destruct (Forall2_lookup_l _ _ _ _ _ Hts Hi) as (T & _ & HT).
      by eapply lookup_lt_Some.
    + rewrite lookup_ge_None_2 in Hp; [by apply elem_of_nil in Hp|].
      rewrite length_app. simpl. lia.
Qed.

(** ** What [backward] leaves alone *)




Lemma frame_app st st' T :
  same_registry st st' → heap st' = heap st ++ [T] → grad T = None →
  frame st st'.
Proof.
  intros Hreg Hheap Hgrad. split; [done|]. split.
  - intros a Ta Ha. exists Ta. rewrite Hheap.
    by rewrite lookup_app_l by by eapply lookup_lt_Some.
  - intros a Hok Ta g Ha Hg. rewrite Hheap in Ha |- *.
    destruct (decide (a < length (heap st))) as [Hlt|Hge].
    + rewrite lookup_app_l in Ha by done.
      destruct (Hok Ta g Ha Hg) as (G & HG & Hs). exists G.
      by rewrite lookup_app_l by by eapply lookup_lt_Some.
    + destruct (decide (a = length (heap st))) as [->|Hne].
      * rewrite list_lookup_middle in Ha by done. congruence.
      * rewrite lookup_ge_None_2 in Ha; [done|].
        rewrite length_app. simpl. lia.
Qed.



Lemma Tensor_init_frame o gp st n st' :
  Tensor_init o gp st = (Ok n, st') →
  frame st st' ∧ n = length (heap st) ∧
  ∃ G, heap st' = heap st ++ [G] ∧ grad G = None ∧ _ctx G = None ∧
       obj_shape o = Some (shape (data G)).
Proof.
  intros Hrun.
  apply Tensor_init_inv in Hrun as (Hreg & _ & _ & _ & -> & d & g' & Hh & Hs).
  split; [by eapply frame_app|]. split; [done|]. eauto.
Qed.

Lemma Tensor_plus_frame tg n st r st' :
  methods st !! "__add__" = Some (Dispatch "add") →
  Tensor_plus tg n st = (Ok r, st') →
  frame st st' ∧
  ∃ out TG Nn f R cx,
    r = Some out ∧ out = length (heap st) ∧
    heap st !! tg = Some TG ∧ heap st !! n = Some Nn ∧
    (if gpu TG then opsgpu st else ops st) !! "add" = Some f ∧
    heap st' = heap st ++ [R] ∧ grad R = None ∧
    _ctx R = Some cx ∧ cls cx = f ∧ parents (inst cx) = [tg; n] ∧
    (keeps_shape f → shape (data TG) = shape (data Nn) →
       shape (data R) = shape (data TG)).
Proof.
  intros Hadd Hrun. unfold Tensor_plus in Hrun.
  unfold bind at 1 in Hrun. unfold gets in Hrun. rewrite Hadd in Hrun.
  unfold invoke in Hrun.
  apply bind_inv_Ok in Hrun as (out & st1 & Hd & Hret).
  unfold ret in Hret. injection Hret as <- <-.
  apply dispatch_inv in Hd as (Hreg & -> & x0 & T0 & f & ts & s & o & d & g'
                               & Hx0 & HT0 & Hf & Hts & Hfwd & Hos & Hheap).
  simpl in Hx0. injection Hx0 as <-.
  apply Forall2_cons_inv_l in Hts as (TG & ts1 & HTG & Hts & ->).
  apply Forall2_cons_inv_l in Hts as (Nn & ts2 & HNn & Hts & ->).
  apply Forall2_nil_inv_l in Hts as ->.
  assert (T0 = TG) as -> by congruence.
  split; [by eapply frame_app|].
  destruct (resolve_attrs f [tg; n] ∅) as (Hpar & _ & _).
  eexists _, TG, Nn, f, _, _. split; [done|]. split; [done|].
  split; [done|]. split; [done|]. split; [done|].
  split; [exact Hheap|]. split; [done|]. split; [done|]. split; [done|].
  split.
  { simpl. by destruct (resolve f [tg; n] ∅). }
  intros Hk Hsame. simpl in *.
  specialize (Hk _ _ _ _ _ _ Hfwd Hsame). congruence.
Qed.








(** ** One accumulation, in detail *)

Lemma accumulate_inv c t T b st st' :
  heap st !! t = Some T → accumulate c t (PBuf b) st = (Ok tt, st') →
  shape b = shape (data T) ∧
  ∃ G, grad G = None ∧ _ctx G = None ∧ shape (data G) = shape b ∧
    match grad T with
    | None =>
        heap st' =
          alter (λ T, mkTensor (data T) (Some (length (heap st)))
                               (_ctx T) (gpu T)) t (heap st ++ [G])
    | Some tg =>
        ∀ TG, heap st !! tg = Some TG →
          methods st !! "__add__" = Some (Dispatch "add") →
          ∃ f R cx,
            (if gpu TG then opsgpu st else ops st) !! "add" = Some f ∧
            grad R = None ∧ _ctx R = Some cx ∧ cls cx = f ∧
            parents (inst cx) = [tg; length (heap st)] ∧
            heap st' =
              alter (λ T, mkTensor (data T) (Some (S (length (heap st))))
                                   (_ctx T) (gpu T)) t (heap st ++ [G; R])
    end.
Proof.
  intros HT Hrun. unfold accumulate in Hrun.
  apply bind_inv_Ok in Hrun as (gs & st0 & Hgs & Hrun).
  unfold lift in Hgs. simpl in Hgs. injection Hgs as <- <-.
  rewrite (bind_Ok _ _ _ _ _ (read_Ok _ _ _ HT)) in Hrun.
  destruct (decide (shape b = shape (data T))) as [Hs|]; [|done].
  split; [done|].
  destruct (grad T) as [tg|] eqn:Hgrad.
  - apply bind_inv_Ok in Hrun as (n & st1 & Hinit & Hrun).
    apply Tensor_init_frame in Hinit
      as ((Hreg1 & _) & -> & G & Hh1 & HgG & HcG & HsG).
    exists G. simpl in HsG. split; [done|]. split; [done|].
    split; [congruence|].
    intros TG HTG Hadd.
    apply bind_inv_Ok in Hrun as (r & st2 & Hplus & Hrun).
    apply Tensor_plus_frame in Hplus
      as (_ & out & TG' & Nn & f & R & cx & -> & -> & HTG' & _ & Hf
          & Hh2 & HgR & HcR & Hcls & Hpar & _);
      [|destruct Hreg1 as (_ & _ & -> & _); done].
    assert (TG' = TG) as ->.
    { rewrite Hh1, lookup_app_l in HTG'; [congruence|].
      by eapply lookup_lt_Some. }
    unfold set_grad, modify in Hrun. injection Hrun as <-.
    exists f, R, cx.
    destruct Hreg1 as (Ho & Hg & _).
    split. { rewrite <-Ho, <-Hg. done. }
    split; [done|]. split; [done|]. split; [done|]. split; [done|].
    simpl. rewrite Hh2, Hh1, length_app, <-(assoc_L (++)). simpl.
    by rewrite Nat.add_1_r.
  - apply bind_inv_Ok in Hrun as (n & st1 & Hinit & Hrun).
    apply Tensor_init_frame in Hinit as (_ & -> & G & Hh1 & HgG & HcG & HsG).
    exists G. simpl in HsG. split; [done|]. split; [done|].
    split; [congruence|].
    unfold set_grad, modify in Hrun. injection Hrun as <-.
    simpl. by rewrite Hh1.
Qed.

Lemma alter_app_lookups (F : Tensor elem → Tensor elem) t h new T :
  h !! t = Some T →
  alter F t (h ++ new) !! t = Some (F T) ∧
  (∀ i, alter F t (h ++ new) !! (length h + i) = new !! i) ∧
  (∀ a, a ≠ t → a < length h → alter F t (h ++ new) !! a = h !! a) ∧
  length (alter F t (h ++ new)) = length h + length new.
Proof.
  intros HT. assert (Hlt : t < length h) by by eapply lookup_lt_Some.
  split; [|split; [|split]].
  - by rewrite list_lookup_alter_eq, lookup_app_l, HT.
  - intros i. rewrite list_lookup_alter_ne by lia.
    rewrite lookup_app_r by lia. f_equal. lia.
  - intros a Hne Ha. rewrite list_lookup_alter_ne by done.
    by rewrite lookup_app_l.
  - by rewrite length_alter, length_app.
Qed.

(** C10. One gradient contribution arrives at a parent.  When the parent
    has no [grad] yet, as at its first contribution, its [grad] becomes the
    tensor just built around the buffer, which has no producer.  When it
    has one, as at its second and every later contribution, and [+] is the
    dispatch of ["add"], the new [grad] is the result of dispatching the
    kernel registered as [add] for the device of the old [grad]: it has a
    producer, a context of that kernel whose parents are the old [grad] and
    the tensor built around the buffer.  No other tensor of the store is
    changed, so a parent that gets no further contribution keeps the leaf
    it got from its only one. *)
Theorem grad_leaf_then_add_output c t T b st st' :
  heap st !! t = Some T → accumulate c t (PBuf b) st = (Ok tt, st') →
  match grad T with
  | None =>
      ∃ G,
        heap st' !! t = Some (mkTensor (data T) (Some (length (heap st)))
                                       (_ctx T) (gpu T)) ∧
        heap st' !! length (heap st) = Some G ∧ _ctx G = None ∧
        (∀ a, a ≠ t → a < length (heap st) → heap st' !! a = heap st !! a)
  | Some tg =>
      ∀ TG, heap st !! tg = Some TG →
        methods st !! "__add__" = Some (Dispatch "add") →
        ∃ f R cx,
          (if gpu TG then opsgpu st else ops st) !! "add" = Some f ∧
          heap st' !! t = Some (mkTensor (data T)
                                  (Some (S (length (heap st))))
                                  (_ctx T) (gpu T)) ∧
          heap st' !! S (length (heap st)) = Some R ∧
          _ctx R = Some cx ∧ cls cx = f ∧
          parents (inst cx) = [tg; length (heap st)] ∧
          (∀ a, a ≠ t → a < length (heap st) → heap st' !! a = heap st !! a)
  end.
Proof.
  intros HT Hrun.
  destruct (accumulate_inv _ _ _ _ _ _ HT Hrun)
    as (_ & G & HgG & HcG & _ & Hcase).
  destruct (grad T) as [tg|] eqn:Hgrad.
  - intros TG HTG Hadd.
    destruct (Hcase TG HTG Hadd) as (f & R & cx & Hf & HgR & HcR & Hcls & Hpar
                                     & Hheap).
    destruct (alter_app_lookups
                (λ T, mkTensor (data T) (Some (S (length (heap st))))
                               (_ctx T) (gpu T)) t (heap st) [G; R] T HT)
      as (Ht & Hnew & Hold & _).
    exists f, R, cx. rewrite Hheap.
    split; [done|]. split; [done|].
    split. { specialize (Hnew 1). by rewrite Nat.add_1_r in Hnew. }
    repeat split; done.
  - destruct (alter_app_lookups
                (λ T, mkTensor (data T) (Some (length (heap st)))
                               (_ctx T) (gpu T)) t (heap st) [G] T HT)
      as (Ht & Hnew & Hold & _).
    exists G. rewrite Hcase. split; [done|].
    split. { specialize (Hnew 0). by rewrite Nat.add_0_r in Hnew. }
    split; done.
Qed.

(** ** Running the engine on the host *)

Lemma Tensor_init_host b st :
  kind b = NdArray → default_gpu st = false →
  ∃ st', Tensor_init (PBuf b) None st = (Ok (length (heap st)), st') ∧
         same_registry st st' ∧
         heap st' = heap st ++ [mkTensor b None None false].
Proof.
  intros Hk Hg. eexists. split; [by apply Tensor_init_ndarray|].
  split; [|by destruct (_ && _)].
  eapply same_registry_trans; [|apply same_registry_set_heap].
  destruct (_ && _); [apply same_registry_warn|apply same_registry_refl].
Qed.

Lemma forM_read_run (x : list addr) ts st :
  Forall2 (λ a T, heap st !! a = Some T) x ts → forM read x st = (Ok ts, st).
Proof.
  induction 1 as [|a T x ts Ha _ IH]; [done|]. simpl.
  rewrite (bind_Ok _ _ _ _ _ (read_Ok _ _ _ Ha)).
  by rewrite (bind_Ok _ _ _ _ _ IH).
Qed.

Lemma Function_apply_host f (x : list addr) kw st ts s b :
  Forall2 (λ a T, heap st !! a = Some T) x ts →
  forward f (resolve f x kw) (map data ts) kw = Ok (s, PBuf b) →
  kind b = NdArray → default_gpu st = false →
  ∃ st', Function_apply f x kw st = (Ok (length (heap st)), st') ∧
         same_registry st st' ∧
         heap st' = heap st ++
           [mkTensor b None
              (Some (mkCtx f (save_for_backward (resolve f x kw) s))) false].
Proof.
  intros Hts Hfwd Hk Hg.
  destruct (Tensor_init_host b st Hk Hg) as (st1 & Hinit & Hreg & Hheap).
  eexists. split; [|split].
  - unfold Function_apply.
    rewrite (bind_Ok _ _ _ _ _ (forM_read_run _ _ _ Hts)).
    erewrite (bind_Ok (lift _)); [|unfold lift; by rewrite Hfwd].
    simpl. rewrite (bind_Ok _ _ _ _ _ Hinit).
    unfold set_ctx, modify, bind, ret. reflexivity.
  - eapply same_registry_trans; [exact Hreg|apply same_registry_set_heap].
  - simpl. rewrite Hheap.
    rewrite <-(Nat.add_0_r (length (heap st))), alter_app_r. done.
Qed.

(** The first contribution: the gradient is adopted. *)
Lemma accumulate_adopt c t T b st :
  heap st !! t = Some T → grad T = None →
  kind b = NdArray → shape b = shape (data T) → default_gpu st = false →
  ∃ st', accumulate c t (PBuf b) st = (Ok tt, st') ∧
         same_registry st st' ∧
         heap st' =
           alter (λ T, mkTensor (data T) (Some (length (heap st)))
                                (_ctx T) (gpu T)) t
                 (heap st ++ [mkTensor b None None false]).
Proof.
  intros HT Hgrad Hk Hs Hg.
  destruct (Tensor_init_host b st Hk Hg) as (st1 & Hinit & Hreg & Hheap).
  eexists. split; [|split].
  - unfold accumulate.
    erewrite (bind_Ok (lift _)); [|reflexivity].
    rewrite (bind_Ok _ _ _ _ _ (read_Ok _ _ _ HT)).
    rewrite decide_True by done. rewrite Hgrad.
    rewrite (bind_Ok _ _ _ _ _ Hinit). reflexivity.
  - eapply same_registry_trans; [exact Hreg|apply same_registry_set_heap].
  - simpl. by rewrite Hheap.
Qed.

(** A later contribution: the registered [add] is dispatched on the old
    [grad] and the new gradient. *)
Lemma accumulate_add c t T tg TG b f st :
  heap st !! t = Some T → grad T = Some tg →
  heap st !! tg = Some TG → gpu TG = false →
  kind (data TG) = NdArray → shape (data TG) = shape b →
  kind b = NdArray → shape b = shape (data T) → default_gpu st = false →
  methods st !! "__add__" = Some (Dispatch "add") →
  ops st !! "add" = Some f → adds_elementwise f →
  ∃ st' cx,
    accumulate c t (PBuf b) st = (Ok tt, st') ∧
    same_registry st st' ∧
    cls cx = f ∧ parents (inst cx) = [tg; length (heap st)] ∧
    heap st' =
      alter (λ T, mkTensor (data T) (Some (S (length (heap st))))
                           (_ctx T) (gpu T)) t
            (heap st ++ [mkTensor b None None false;
                         mkTensor (np_add (data TG) b) None (Some cx) false]).
Proof.
  intros HT Hgrad HTG HgTG HkTG HsTG Hk Hs Hg Hadd Hf Helt.
  destruct (Tensor_init_host b st Hk Hg) as (st1 & Hinit & Hreg1 & Hheap1).
  assert (Htg1 : heap st1 !! tg = Some TG).
  { rewrite Hheap1, lookup_app_l; [done|by eapply lookup_lt_Some]. }
  assert (Hn1 : heap st1 !! length (heap st)
                = Some (mkTensor b None None false)).
  { rewrite Hheap1. by apply list_lookup_middle. }
  destruct (Helt (resolve f [tg; length (heap st)] ∅) (data TG) b HkTG Hk HsTG)
    as (s & Hfwd).
  destruct (Function_apply_host f [tg; length (heap st)] ∅ st1
              [TG; mkTensor b None None false] s (np_add (data TG) b))
    as (st2 & Happ & Hreg2 & Hheap2).
  { repeat constructor; done. }
  { exact Hfwd. }
  { done. }
  { destruct Hreg1 as (_ & _ & _ & _ & ->). done. }
  destruct (resolve_attrs f [tg; length (heap st)] ∅) as (Hpar & _ & _).
  eexists _, (mkCtx f (save_for_backward
                         (resolve f [tg; length (heap st)] ∅) s)).
  split; [|split; [|split; [|split]]].
  - unfold accumulate.
    erewrite (bind_Ok (lift _)); [|reflexivity].
    rewrite (bind_Ok _ _ _ _ _ (read_Ok _ _ _ HT)).
    rewrite decide_True by done. rewrite Hgrad.
    rewrite (bind_Ok _ _ _ _ _ Hinit).
    erewrite (bind_Ok (Tensor_plus _ _)); [reflexivity|].
    unfold Tensor_plus.
    erewrite (bind_Ok (gets _)); [|reflexivity].
    destruct Hreg1 as (Ho1 & _ & Hm1 & _). rewrite Hm1, Hadd.
    unfold invoke. erewrite (bind_Ok (dispatch _ _ _)); [reflexivity|].
    unfold dispatch.
    rewrite (bind_Ok _ _ _ _ _ (read_Ok _ _ _ Htg1)).
    erewrite (bind_Ok (gets _)); [|reflexivity].
    rewrite HgTG, Ho1, Hf. exact Happ.
  - eapply same_registry_trans; [exact Hreg1|].
    eapply same_registry_trans; [exact Hreg2|apply same_registry_set_heap].
  - done.
  - simpl. by destruct (resolve f [tg; length (heap st)] ∅).
  - simpl. rewrite Hheap2, Hheap1, length_app, <-(assoc_L (++)). simpl.
    by rewrite Nat.add_1_r.
Qed.

(** One step of the loop over [reversed(nodes)], once the gradient of the
    tensor and what its [backward] returns are known. *)
Lemma backward_node_run c t0 T0 g0 G0 c0 grads st :
  heap st !! t0 = Some T0 → grad T0 = Some g0 → _ctx T0 = Some c0 →
  heap st !! g0 = Some G0 →
  backward (cls c0) (inst c0) (data G0) = Ok grads →
  backward_node c t0 st =
    (gs <- lift (if decide (length (parents (inst c0)) = 1)
                 then Ok [grads] else py_iter grads) ;
     forM_ (λ p, accumulate c p.1 p.2) (zip (parents (inst c0)) gs)) st.
Proof.
  intros HT0 Hg0 Hc0 HG0 Hb. unfold backward_node.
  rewrite (bind_Ok _ _ _ _ _ (read_Ok _ _ _ HT0)), Hg0, Hc0.
  rewrite (bind_Ok _ _ _ _ _ (read_Ok _ _ _ HG0)).
  erewrite (bind_Ok (lift _)); [reflexivity|]. unfold lift. by rewrite Hb.
Qed.

(** ** A leaf feeding two operations whose results are summed *)

Lemma deepwalk_diamond h x u v y cu cv cy fuel :
  unproduced h x → produced h u cu [x] → produced h v cv [x] →
  u ≠ v → produced h y cy [u; v] →
  ∃ vis, deepwalk (S (S (S fuel))) h y (∅, []) = Ok (vis, [u; v; y]).
Proof.
  intros (X & HX & HcX) (U & HU & HcU & HpU) (V & HV & HcV & HpV) Huv
         (Y & HY & HcY & HpY).
  assert (x ≠ u) by (intros ->; congruence).
  assert (x ≠ v) by (intros ->; congruence).
  assert (x ≠ y) by (intros ->; congruence).
  assert (u ≠ y) by (intros ->; congruence).
  assert (v ≠ y) by (intros ->; congruence).
  eexists. rewrite deepwalk_S, HY, HcY, HpY. simpl.
  rewrite decide_False by set_solver.
  rewrite deepwalk_S, HU, HcU, HpU. simpl.
  rewrite decide_False by set_solver.
  rewrite deepwalk_S, HX, HcX. simpl.
  rewrite decide_False by set_solver.
  rewrite deepwalk_S, HV, HcV, HpV. simpl.
  rewrite decide_True by set_solver. simpl. reflexivity.
Qed.

Lemma walk_diamond st x u v y cu cv cy :
  unproduced (heap st) x → produced (heap st) u cu [x] →
  produced (heap st) v cv [x] → u ≠ v →
  produced (heap st) y cy [u; v] →
  walk y st = (Ok [u; v; y], st).
Proof.
  intros HX HU HV Huv HY.
  assert (∃ k, length (heap st) = S (S k)) as [k Hlen].
  { destruct HX as (X & HX & HcX), HU as (U & HU & HcU & _).
    assert (x ≠ u) by (intros ->; congruence).
    apply lookup_lt_Some in HX, HU.
    destruct (length (heap st)) as [|[|k]]; [lia|lia|eauto]. }
  destruct (deepwalk_diamond _ _ _ _ _ _ _ _ k HX HU HV Huv HY)
    as (vis & Hrun).
  unfold walk, bind, gets, lift, ret. by rewrite Hlen, Hrun.
Qed.

Lemma heap_step st st' (F : Tensor elem → Tensor elem) t T new :
  heap st' = alter F t (heap st ++ new) → heap st !! t = Some T →
  heap st' !! t = Some (F T) ∧
  (∀ i, heap st' !! (length (heap st) + i) = new !! i) ∧
  (∀ a, a ≠ t → a < length (heap st) → heap st' !! a = heap st !! a) ∧
  length (heap st') = length (heap st) + length new.
Proof. intros -> HT. by apply alter_app_lookups. Qed.

(** The whole of [y.backward()] on the diamond: the store it ends in. *)
Lemma diamond_run st x u v y X U V Y cu cv cy fadd gu gv :
  methods st !! "__add__" = Some (Dispatch "add") →
  ops st !! "add" = Some fadd → adds_elementwise fadd →
  default_gpu st = false →
  is_leaf (heap st) x X →
  is_output (heap st) u U cu [x] → is_output (heap st) v V cv [x] →
  u ≠ v →
  is_output (heap st) y Y cy [u; v] → passes_gradient (cls cy) →
  gpu Y = false →
  shape (data Y) = [1] → shape (data U) = [1] → shape (data V) = [1] →
  backward (cls cu) (inst cu) (np_ones [1] (dtype (data Y))) = Ok (PBuf gu) →
  backward (cls cv) (inst cv) (np_ones [1] (dtype (data Y))) = Ok (PBuf gv) →
  kind gu = NdArray → kind gv = NdArray →
  shape gu = shape (data X) → shape gv = shape (data X) →
  ∃ st' cx,
    Tensor_backward y true st = (Ok tt, st') ∧
    heap st' !! x =
      Some (mkTensor (data X) (Some (length (heap st) + 5)) None (gpu X)) ∧
    heap st' !! (length (heap st) + 5) =
      Some (mkTensor (np_add gv gu) None (Some cx) false) ∧
    cls cx = fadd ∧
    parents (inst cx) = [length (heap st) + 3; length (heap st) + 4] ∧
    heap st' !! (length (heap st) + 3) = Some (mkTensor gv None None false) ∧
    heap st' !! (length (heap st) + 4) = Some (mkTensor gu None None false) ∧
    heap st' !! u =
      Some (mkTensor (data U) (Some (length (heap st) + 1))
                     (Some cu) (gpu U)) ∧
    heap st' !! v =
      Some (mkTensor (data V) (Some (length (heap st) + 2))
                     (Some cv) (gpu V)) ∧
    ∃ G1 G2,
      heap st' !! (length (heap st) + 1) = Some G1 ∧ _ctx G1 = None ∧
      heap st' !! (length (heap st) + 2) = Some G2 ∧ _ctx G2 = None.
Proof.
  intros Hadd Hfadd Helt Hdg (HX & HcX & HgX) (HU & HcU & HpU & HgU)
         (HV & HcV & HpV & HgV) Huv (HY & HcY & HpY & HgY) Hpass HgpuY
         HsY HsU HsV Hbu Hbv Hkgu Hkgv Hsgu Hsgv.
  set (n := length (heap st)).
  set (seed := np_ones [1] (dtype (data Y))) in *.
  assert (x ≠ u) by (intros ->; congruence).
  assert (x ≠ v) by (intros ->; congruence).
  assert (x ≠ y) by (intros ->; congruence).
  assert (u ≠ y) by (intros ->; congruence).
  assert (v ≠ y) by (intros ->; congruence).
  assert (x < n) by by eapply lookup_lt_Some.
  assert (u < n) by by eapply lookup_lt_Some.
  assert (v < n) by by eapply lookup_lt_Some.
  assert (y < n) by by eapply lookup_lt_Some.
  (* the seed *)
  destruct (fill_grad_seed st y Y cy HY HcY HgY HsY)
    as (st1 & _ & Hreg1 & Hlen1 & Hy1 & Hn1 & Hold1 & Hbw).
  { by rewrite HgpuY. }
  rewrite HgpuY in Hy1, Hn1. simpl in Hn1. fold n seed in Hy1, Hn1, Hlen1.
  assert (Hl1 : length (heap st1) = n + 1) by lia. clear Hlen1.
  assert (Hx1 : heap st1 !! x = Some X) by by rewrite Hold1.
  assert (Hu1 : heap st1 !! u = Some U) by by rewrite Hold1.
  assert (Hv1 : heap st1 !! v = Some V) by by rewrite Hold1.
  assert (Hdg1 : default_gpu st1 = false)
    by (destruct Hreg1 as (_ & _ & _ & _ & ->); done).
  (* the walk *)
  assert (Hwalk : walk y st1 = (Ok [u; v; y], st1)).
  { apply (walk_diamond st1 x u v y cu cv cy); try done.
    - by exists X.
    - by exists U.
    - by exists V.
    - eexists. split; [exact Hy1|]. done. }
  (* y: the seed goes to u and v *)
  destruct (accumulate_adopt cy u U seed st1 Hu1 HgU)
    as (st2 & Hacc2 & Hreg2 & Hheap2); [done|by rewrite HsU|done|].
  destruct (heap_step _ _ _ _ _ _ Hheap2 Hu1) as (Hu2 & Hnew2 & Hold2 & Hlen2).
  rewrite Hl1 in Hnew2, Hold2, Hlen2, Hu2.
  assert (Hl2 : length (heap st2) = n + 2) by (simpl in Hlen2; lia).
  clear Hlen2.
  assert (Hv2 : heap st2 !! v = Some V) by (rewrite Hold2; [done|done|lia]).
  assert (Hdg2 : default_gpu st2 = false)
    by (destruct Hreg2 as (_ & _ & _ & _ & ->); done).
  destruct (accumulate_adopt cy v V seed st2 Hv2 HgV)
    as (st3 & Hacc3 & Hreg3 & Hheap3); [done|by rewrite HsV|done|].
  destruct (heap_step _ _ _ _ _ _ Hheap3 Hv2) as (Hv3 & Hnew3 & Hold3 & Hlen3).
  rewrite Hl2 in Hnew3, Hold3, Hlen3, Hv3.
  assert (Hl3 : length (heap st3) = n + 3) by (simpl in Hlen3; lia).
  clear Hlen3.
  assert (Hnode_y : backward_node cy y st1 = (Ok tt, st3)).
  { erewrite backward_node_run; [|exact Hy1|done|done|exact Hn1|apply Hpass].
    rewrite HpY. simpl.
    erewrite (bind_Ok (lift _)); [|reflexivity]. simpl.
    rewrite (bind_Ok _ _ _ _ _ Hacc2).
    rewrite (bind_Ok _ _ _ _ _ Hacc3). done. }
  (* v: its contribution is adopted by x *)
  assert (Hx3 : heap st3 !! x = Some X).
  { rewrite Hold3, Hold2; [done|done|lia|done|lia]. }
  assert (Hs3 : heap st3 !! (n + 2) = Some (mkTensor seed None None false)).
  { specialize (Hnew3 0). by rewrite Nat.add_0_r in Hnew3. }
  assert (Hdg3 : default_gpu st3 = false)
    by (destruct Hreg3 as (_ & _ & _ & _ & ->); done).
  destruct (accumulate_adopt cy x X gv st3 Hx3 HgX)
    as (st4 & Hacc4 & Hreg4 & Hheap4); [done|done|done|].
  destruct (heap_step _ _ _ _ _ _ Hheap4 Hx3) as (Hx4 & Hnew4 & Hold4 & Hlen4).
  rewrite Hl3 in Hnew4, Hold4, Hlen4, Hx4.
  assert (Hl4 : length (heap st4) = n + 4) by (simpl in Hlen4; lia).
  clear Hlen4.
  assert (Hnode_v : backward_node cy v st3 = (Ok tt, st4)).
  { erewrite backward_node_run; [|exact Hv3|done|done|exact Hs3|exact Hbv].
    rewrite HpV. simpl.
    erewrite (bind_Ok (lift _)); [|reflexivity]. simpl.
    rewrite (bind_Ok _ _ _ _ _ Hacc4). done. }
  (* u: its contribution is added to the one of v *)
  assert (Hu4 : heap st4 !! u
                = Some (mkTensor (data U) (Some (n + 1)) (_ctx U) (gpu U))).
  { rewrite Hold4, Hold3; [done|done|lia|done|lia]. }
  assert (Hs4 : heap st4 !! (n + 1) = Some (mkTensor seed None None false)).
  { rewrite Hold4, Hold3; [|lia|lia|lia|lia].
    specialize (Hnew2 0). by rewrite Nat.add_0_r in Hnew2. }
  assert (Hgv4 : heap st4 !! (n + 3) = Some (mkTensor gv None None false)).
  { specialize (Hnew4 0). by rewrite Nat.add_0_r in Hnew4. }
  assert (Hreg04 : same_registry st st4).
  { repeat (eapply same_registry_trans; [eassumption|]).
    apply same_registry_refl. }
  destruct (accumulate_add cy x _ (n + 3) _ gu fadd st4 Hx4 eq_refl Hgv4)
    as (st5 & cx & Hacc5 & Hreg5 & Hcls & Hpar & Hheap5); try done.
  { simpl. congruence. }
  { destruct Hreg04 as (_ & _ & _ & _ & ->). done. }
  { destruct Hreg04 as (_ & _ & -> & _). done. }
  { destruct Hreg04 as (-> & _). done. }
  destruct (heap_step _ _ _ _ _ _ Hheap5 Hx4) as (Hx5 & Hnew5 & Hold5 & Hlen5).
  rewrite Hl4 in Hnew5, Hold5, Hx5, Hpar.
  assert (Hnode_u : backward_node cy u st4 = (Ok tt, st5)).
  { erewrite backward_node_run; [|exact Hu4|done|done|exact Hs4|exact Hbu].
    rewrite HpU. simpl.
    erewrite (bind_Ok (lift _)); [|reflexivity]. simpl.
    rewrite (bind_Ok _ _ _ _ _ Hacc5). done. }
  exists st5, cx. split.
  { rewrite Hbw. rewrite (bind_Ok _ _ _ _ _ Hwalk).
    change (reverse [u; v; y]) with [y; v; u]. simpl.
    rewrite (bind_Ok _ _ _ _ _ Hnode_y).
    rewrite (bind_Ok _ _ _ _ _ Hnode_v).
    rewrite (bind_Ok _ _ _ _ _ Hnode_u). done. }
  split. { rewrite Hx5. simpl. rewrite HcX. do 3 f_equal. lia. }
  split. { specialize (Hnew5 1). simpl in Hnew5.
           replace (n + 4 + 1) with (n + 5) in Hnew5 by lia. done. }
  split; [done|].
  split. { done. }
  split. { rewrite Hold5; [done|lia|lia]. }
  split. { specialize (Hnew5 0). by rewrite Nat.add_0_r in Hnew5. }
  split. { rewrite Hold5; [|done|lia]. by rewrite Hu4, HcU. }
  split. { rewrite Hold5, Hold4; [|done|lia|done|lia]. by rewrite Hv3, HcV. }
  exists (mkTensor seed None None false), (mkTensor seed None None false).
  split. { rewrite Hold5; [done|lia|lia]. }
  split; [done|].
  split. { rewrite Hold5, Hold4; [|lia|lia|lia|lia]. done. }
  done.
Qed.

(** One path alone: [u.backward()] with [u] the result of one operation on
    the leaf [x]. *)
Lemma walk_chain st x u cu :
  unproduced (heap st) x → produced (heap st) u cu [x] →
  walk u st = (Ok [u], st).
Proof.
  intros (X & HX & HcX) (U & HU & HcU & HpU).
  assert (x ≠ u) by (intros ->; congruence).
  assert (∃ k, length (heap st) = S k) as [k Hlen].
  { apply lookup_lt_Some in HX.
    destruct (length (heap st)) as [|k]; [lia|eauto]. }
  assert (Hrun : ∃ vis, deepwalk (S (S k)) (heap st) u (∅, [])
                        = Ok (vis, [u])).
  { eexists. rewrite deepwalk_S, HU, HcU, HpU. simpl.
    rewrite decide_False by set_solver.
    rewrite deepwalk_S, HX, HcX. simpl. reflexivity. }
  destruct Hrun as (vis & Hrun).
  unfold walk, bind, gets, lift, ret. by rewrite Hlen, Hrun.
Qed.

Lemma chain_run st x u X U cu g :
  default_gpu st = false →
  is_leaf (heap st) x X → is_output (heap st) u U cu [x] →
  gpu U = false → shape (data U) = [1] →
  backward (cls cu) (inst cu) (np_ones [1] (dtype (data U))) = Ok (PBuf g) →
  kind g = NdArray → shape g = shape (data X) →
  ∃ st',
    Tensor_backward u true st = (Ok tt, st') ∧
    heap st' !! x =
      Some (mkTensor (data X) (Some (length (heap st) + 1)) None (gpu X)) ∧
    heap st' !! (length (heap st) + 1) = Some (mkTensor g None None false).
Proof.
  intros Hdg (HX & HcX & HgX) (HU & HcU & HpU & HgU) HgpuU HsU Hb Hkg Hsg.
  set (n := length (heap st)).
  set (seed := np_ones [1] (dtype (data U))) in *.
  assert (x ≠ u) by (intros ->; congruence).
  assert (x < n) by by eapply lookup_lt_Some.
  destruct (fill_grad_seed st u U cu HU HcU HgU HsU)
    as (st1 & _ & Hreg1 & Hlen1 & Hu1 & Hn1 & Hold1 & Hbw).
  { by rewrite HgpuU. }
  rewrite HgpuU in Hu1, Hn1. simpl in Hn1. fold n seed in Hu1, Hn1, Hlen1.
  assert (Hl1 : length (heap st1) = n + 1) by lia. clear Hlen1.
  assert (Hx1 : heap st1 !! x = Some X) by by rewrite Hold1.
  assert (Hdg1 : default_gpu st1 = false)
    by (destruct Hreg1 as (_ & _ & _ & _ & ->); done).
  assert (Hwalk : walk u st1 = (Ok [u], st1)).
  { apply (walk_chain st1 x u cu); [by exists X|].
    eexists. split; [exact Hu1|]. done. }
  destruct (accumulate_adopt cu x X g st1 Hx1 HgX)
    as (st2 & Hacc2 & Hreg2 & Hheap2); [done|done|done|].
  destruct (heap_step _ _ _ _ _ _ Hheap2 Hx1) as (Hx2 & Hnew2 & _ & _).
  rewrite Hl1 in Hnew2, Hx2.
  exists st2. split; [|split].
  - rewrite Hbw. rewrite (bind_Ok _ _ _ _ _ Hwalk).
    change (reverse [u]) with [u]. simpl.
    erewrite (bind_Ok (backward_node _ _)); [reflexivity|].
    erewrite backward_node_run; [|exact Hu1|done|done|exact Hn1|exact Hb].
    rewrite HpU. simpl.
    erewrite (bind_Ok (lift _)); [|reflexivity]. simpl.
    rewrite (bind_Ok _ _ _ _ _ Hacc2). done.
  - rewrite Hx2. simpl. by rewrite HcX.
  - specialize (Hnew2 0). by rewrite Nat.add_0_r in Hnew2.
Qed.

(** C1. In the loop of [backward], on the host: a parent without [grad]
    that receives a gradient buffer gets as [grad] a new tensor holding
    that very buffer; a parent with a [grad] gets as [grad] the result of
    the registered [add] on the old [grad] and the buffer, whose data is
    their elementwise sum.  Consequently, for a leaf [x] that feeds two
    operations with results [u] and [v], themselves summed into [y] of
    shape [(1,)]: [y.backward()] succeeds and leaves in [x.grad] the
    elementwise sum of what [v.backward()] alone and [u.backward()] alone
    leave in [x.grad]. *)
Theorem gradients_accumulate_by_sum :
  (∀ c t T b st,
     heap st !! t = Some T → grad T = None →
     kind b = NdArray → shape b = shape (data T) → default_gpu st = false →
     ∃ st' r R,
       accumulate c t (PBuf b) st = (Ok tt, st') ∧
       heap st' !! t = Some (mkTensor (data T) (Some r) (_ctx T) (gpu T)) ∧
       heap st' !! r = Some R ∧ data R = b)
  ∧ (∀ c t T tg TG b f st,
       heap st !! t = Some T → grad T = Some tg →
       heap st !! tg = Some TG → gpu TG = false →
       kind (data TG) = NdArray → shape (data TG) = shape b →
       kind b = NdArray → shape b = shape (data T) →
       default_gpu st = false →
       methods st !! "__add__" = Some (Dispatch "add") →
       ops st !! "add" = Some f → adds_elementwise f →
       ∃ st' r R,
         accumulate c t (PBuf b) st = (Ok tt, st') ∧
         heap st' !! t = Some (mkTensor (data T) (Some r) (_ctx T) (gpu T)) ∧
         heap st' !! r = Some R ∧
         shape (data R) = shape (data TG) ∧
         elems (data R) = zip_with add (elems (data TG)) (elems b))
  ∧ (∀ st x u v y X U V Y cu cv cy fadd gu gv,
       methods st !! "__add__" = Some (Dispatch "add") →
       ops st !! "add" = Some fadd → adds_elementwise fadd →
       default_gpu st = false →
       is_leaf (heap st) x X →
       is_output (heap st) u U cu [x] → is_output (heap st) v V cv [x] →
       u ≠ v →
       is_output (heap st) y Y cy [u; v] → passes_gradient (cls cy) →
       gpu Y = false → gpu U = false → gpu V = false →
       shape (data Y) = [1] → shape (data U) = [1] → shape (data V) = [1] →
       dtype (data U) = dtype (data Y) → dtype (data V) = dtype (data Y) →
       backward (cls cu) (inst cu) (np_ones [1] (dtype (data Y)))
         = Ok (PBuf gu) →
       backward (cls cv) (inst cv) (np_ones [1] (dtype (data Y)))
         = Ok (PBuf gv) →
       kind gu = NdArray → kind gv = NdArray →
       shape gu = shape (data X) → shape gv = shape (data X) →
       ∃ sty stu stv X' Xu Xv r ru rv R Ru Rv,
         Tensor_backward y true st = (Ok tt, sty) ∧
         Tensor_backward u true st = (Ok tt, stu) ∧
         Tensor_backward v true st = (Ok tt, stv) ∧
         heap sty !! x = Some X' ∧ grad X' = Some r ∧
         heap sty !! r = Some R ∧
         heap stu !! x = Some Xu ∧ grad Xu = Some ru ∧
         heap stu !! ru = Some Ru ∧ data Ru = gu ∧
         heap stv !! x = Some Xv ∧ grad Xv = Some rv ∧
         heap stv !! rv = Some Rv ∧ data Rv = gv ∧
         shape (data R) = shape (data X) ∧
         elems (data R) =
           zip_with add (elems (data Rv)) (elems (data Ru))).
Proof.
  split; [|split].
  - intros c t T b st HT Hg Hk Hs Hdg.
    destruct (accumulate_adopt c t T b st HT Hg Hk Hs Hdg)
      as (st' & Hacc & _ & Hheap).
    destruct (heap_step _ _ _ _ _ _ Hheap HT) as (Ht & Hnew & _ & _).
    exists st', (length (heap st)), (mkTensor b None None false).
    split; [exact Hacc|]. split; [exact Ht|]. split; [|reflexivity].
    specialize (Hnew 0). by rewrite Nat.add_0_r in Hnew.
  - intros c t T tg TG b f st HT Hg HTG HgTG HkTG HsTG Hk Hs Hdg Hadd Hf He.
    destruct (accumulate_add c t T tg TG b f st HT Hg HTG HgTG HkTG HsTG
                Hk Hs Hdg Hadd Hf He)
      as (st' & cx & Hacc & _ & _ & _ & Hheap).
    destruct (heap_step _ _ _ _ _ _ Hheap HT) as (Ht & Hnew & _ & _).
    exists st', (S (length (heap st))),
      (mkTensor (np_add (data TG) b) None (Some cx) false).
    split; [exact Hacc|]. split; [exact Ht|].
    split; [|split; reflexivity].
    specialize (Hnew 1). by rewrite Nat.add_1_r in Hnew.
  - intros st x u v y X U V Y cu cv cy fadd gu gv Hadd Hfadd Helt Hdg HX HU HV
           Huv HY Hpass HgpuY HgpuU HgpuV HsY HsU HsV HdU HdV Hbu Hbv
           Hkgu Hkgv Hsgu Hsgv.
    destruct (diamond_run st x u v y X U V Y cu cv cy fadd gu gv)
      as (sty & cx & Hrun & Hx & Hr & _); try done.
    destruct (chain_run st x u X U cu gu) as (stu & Hrunu & Hxu & Hru);
      try done. { by rewrite HdU. }
    destruct (chain_run st x v X V cv gv) as (stv & Hrunv & Hxv & Hrv);
      try done. { by rewrite HdV. }
    eexists sty, stu, stv, _, _, _, _, _, _, _, _, _.
    split; [exact Hrun|]. split; [exact Hrunu|]. split; [exact Hrunv|].
    split; [exact Hx|]. split; [reflexivity|]. split; [exact Hr|].
    split; [exact Hxu|]. split; [reflexivity|]. split; [exact Hru|].
    split; [reflexivity|].
    split; [exact Hxv|]. split; [reflexivity|]. split; [exact Hrv|].
    split; [reflexivity|]. simpl. split; [done|reflexivity].
Qed.

End Properties.

(** * The statements on explicit stores *)

Lemma Add_adds_elementwise : adds_elementwise Examples.Add.
Proof.
  intros c x y _ _ Hs. exists []. simpl.
  rewrite decide_True by apply map_size_empty.
  by rewrite decide_True.
Qed.

Lemma Add_passes_gradient : passes_gradient Examples.Add.
Proof. by intros c g. Qed.



Lemma backward_leaf_noop_witness :
  Tensor_backward 0 true Examples.st_leaf = (Ok tt, Examples.st_leaf).
Proof.
  apply (backward_leaf_noop Examples.st_leaf 0
           (Examples.leaf (Examples.vec [1; 2]%Z)) true); reflexivity.
Defined.


Lemma backward_seeds_shape_1_witness :
  ∃ st', fill_grad 1 true Examples.st_chain = (Ok tt, st') ∧
         heap st' !! 2 = Some (mkTensor (np_ones [1] Float32) None None false).
Proof.
  edestruct (backward_seeds_shape_1 Examples.st_chain 1) as [_ Hseed].
  { vm_compute. reflexivity. }
  { reflexivity. }
  { reflexivity. }
  destruct (Hseed eq_refl) as (st' & Hfill & _ & _ & _ & Hn & _).
  { intros [=]. }
  exists st'. split; [exact Hfill|exact Hn].
Defined.

(** A tensor of shape (1, 1) has a single element, and [backward] on it
    fails all the same. *)
Lemma single_element_not_seeded :
  ∃ T c,
    heap Examples.st_1x1 !! 1 = Some T ∧ _ctx T = Some c ∧ grad T = None ∧
    foldr Nat.mul 1 (shape (data T)) = 1 ∧
    Tensor_backward 1 true Examples.st_1x1
      = (Raise (AssertionError None), Examples.st_1x1).
Proof.
  eexists _, _. split; [vm_compute; reflexivity|].
  split; [reflexivity|]. split; [reflexivity|]. split; [reflexivity|].
  vm_compute. reflexivity.
Qed.

(** An array of integers is not refused. *)
Lemma int_array_accepted :
  ¬ (∀ (b : Buffer Z) gp (st : State Z),
       is_floating (dtype b) = false →
       (Tensor_init (PBuf b) gp st).1 = Raise TypeError).
Proof.
  intros Hall.
  specialize (Hall Examples.int_array None Examples.st0 eq_refl).
  vm_compute in Hall. discriminate.
Qed.

Lemma Tensor_init_accepts_witness :
  (Tensor_init (PBuf Examples.double_array) None Examples.st0).1 = Ok 0 ∧
  stdout (Tensor_init (PBuf Examples.double_array) None Examples.st0).2
    = [FloatWarning [2]].
Proof.
  destruct (@Tensor_init_accepts Z) as (_ & _ & _ & Hnd & _).
  rewrite (Hnd Examples.double_array None Examples.st0 eq_refl eq_refl).
  split; reflexivity.
Defined.

Lemma apply_overrides_defaults_witness :
  ∃ T c,
    heap (Function_apply Examples.Scale [0] {["k" := PFloat 5%Z]}
            Examples.st_leaf).2 !! 1 = Some T ∧
    _ctx T = Some c ∧ attrs (inst c) !! "k" = Some (PFloat 5%Z).
Proof.
  destruct (apply_overrides_defaults Examples.Scale [0]
              {["k" := PFloat 5%Z]} Examples.st_leaf 1
              (Function_apply Examples.Scale [0] {["k" := PFloat 5%Z]}
                 Examples.st_leaf).2)
    as (T & c & HT & Hc & _ & _ & _ & Hkw & _).
  { vm_compute. reflexivity. }
  exists T, c. split; [exact HT|]. split; [exact Hc|].
  apply Hkw. vm_compute. reflexivity.
Defined.





Lemma grad_leaf_then_add_output_witness :
  ∃ G R cx,
    heap (accumulate (mkCtx Examples.Scale (mkContext [0] [] ∅)) 0
            (PBuf (Examples.vec [5; 6]%Z)) Examples.st_leaf).2 !! 1
      = Some G ∧ _ctx G = None ∧
    heap (accumulate (mkCtx Examples.Scale (mkContext [0] [] ∅)) 0
            (PBuf (Examples.vec [7; 8]%Z))
            (accumulate (mkCtx Examples.Scale (mkContext [0] [] ∅)) 0
               (PBuf (Examples.vec [5; 6]%Z)) Examples.st_leaf).2).2 !! 3
      = Some R ∧ _ctx R = Some cx ∧ parents (inst cx) = [1; 2].
Proof.
  pose proof (grad_leaf_then_add_output
                (mkCtx Examples.Scale (mkContext [0] [] ∅)) 0
                (Examples.leaf (Examples.vec [1; 2]%Z))
                (Examples.vec [5; 6]%Z) Examples.st_leaf
                (accumulate (mkCtx Examples.Scale (mkContext [0] [] ∅)) 0
                   (PBuf (Examples.vec [5; 6]%Z)) Examples.st_leaf).2
                eq_refl ltac:(vm_compute; reflexivity)) as Hfirst.
  simpl in Hfirst. destruct Hfirst as (G & _ & HG & HcG & _).
  pose proof (grad_leaf_then_add_output
                (mkCtx Examples.Scale (mkContext [0] [] ∅)) 0
                (mkTensor (Examples.vec [1; 2]%Z) (Some 1) None false)
                (Examples.vec [7; 8]%Z)
                (accumulate (mkCtx Examples.Scale (mkContext [0] [] ∅)) 0
                   (PBuf (Examples.vec [5; 6]%Z)) Examples.st_leaf).2
                (accumulate (mkCtx Examples.Scale (mkContext [0] [] ∅)) 0
                   (PBuf (Examples.vec [7; 8]%Z))
                   (accumulate (mkCtx Examples.Scale (mkContext [0] [] ∅)) 0
                      (PBuf (Examples.vec [5; 6]%Z)) Examples.st_leaf).2).2
                ltac:(vm_compute; reflexivity)
                ltac:(vm_compute; reflexivity)) as Hsecond.
  simpl in Hsecond.
  destruct (Hsecond (mkTensor (Examples.vec [5; 6]%Z) None None false))
    as (f & R & cx & _ & _ & HR & HcR & _ & Hpar & _).
  { vm_compute. reflexivity. }
  { vm_compute. reflexivity. }
  exists G, R, cx. split; [exact HG|]. split; [exact HcG|].
  split; [exact HR|]. split; [exact HcR|exact Hpar].
Defined.

Lemma gradients_accumulate_by_sum_witness :
  ∃ sty X' r R,
    Tensor_backward 3 true Examples.st_diamond = (Ok tt, sty) ∧
    heap sty !! 0 = Some X' ∧ grad X' = Some r ∧
    heap sty !! r = Some R ∧ elems (data R) = [7%Z].
Proof.
  edestruct (proj2 (proj2 (@gradients_accumulate_by_sum Z _))
               Examples.st_diamond 0 1 2 3)
    as (sty & stu & stv & X' & Xu & Xv & r & ru & rv & R & Ru & Rv
        & Hy & _ & _ & HX' & Hr & HR & _ & _ & _ & HRu & _ & _ & _ & HRv
        & _ & Hsum).
  - vm_compute. reflexivity.
  - vm_compute. reflexivity.
  - apply Add_adds_elementwise.
  - reflexivity.
  - split; [vm_compute; reflexivity|]. split; reflexivity.
  - split; [vm_compute; reflexivity|]. repeat split; reflexivity.
  - split; [vm_compute; reflexivity|]. repeat split; reflexivity.
  - discriminate.
  - split; [vm_compute; reflexivity|]. repeat split; reflexivity.
  - apply Add_passes_gradient.
  - reflexivity.
  - reflexivity.
  - reflexivity.
  - reflexivity.
  - reflexivity.
  - reflexivity.
  - reflexivity.
  - reflexivity.
  - vm_compute. reflexivity.
  - vm_compute. reflexivity.
  - reflexivity.
  - reflexivity.
  - reflexivity.
  - reflexivity.
  - exists sty, X', r, R. split; [exact Hy|]. split; [exact HX'|].
    split; [exact Hr|]. split; [exact HR|].
    rewrite Hsum, HRu, HRv. reflexivity.
Defined.

(** * Further properties of the module

    The moves between devices, [detach], the registry, more of
    [backward], invariants of whole programs, the composed operations and
    the constructors. *)

Section MoreProperties.
Context {elem : Type} `{Element elem} `{Constants elem}.

Implicit Types (st : State elem) (h : list (Tensor elem)).
Implicit Types (T : Tensor elem) (b : Buffer elem) (f : Function elem).
Implicit Types (c : Ctx elem) (o : PyObj elem).

Lemma cuda_from_S fuel self :
  cuda_from (S fuel) self =
    (G <- gets GPU ;
     if negb G then raise Exception
     else
       T <- read self ;
       if gpu T then ret self
       else if decide (dtype (data T) = Float32) then
         match kind (data T) with
         | ClBuffer => raise AttributeError
         | NdArray =>
             r <- Tensor_init (PBuf (cl_Buffer (data T))) None ;
             match grad T with
             | None => ret r
             | Some g =>
                 g' <- cuda_from fuel g ;
                 _ <- set_grad r (Some g') ;
                 ret r
             end
         end
       else raise (AssertionError None) : M elem addr).
Proof. reflexivity. Qed.

Lemma cpu_from_S fuel self :
  cpu_from (S fuel) self =
    (T <- read self ;
     if gpu T then
       r <- Tensor_init (PBuf (host_copy (data T))) (Some false) ;
       G <- gets GPU ;
       if negb G then raise Exception
       else
         match kind (data T) with
         | NdArray => raise TypeError
         | ClBuffer =>
             match grad T with
             | None => ret r
             | Some g =>
                 g' <- cpu_from fuel g ;
                 _ <- set_grad r (Some g') ;
                 ret r
             end
         end
     else ret self : M elem addr).
Proof. reflexivity. Qed.

(** Running a computation whose first step is known. *)
Lemma gets_run {A B} (g : State elem → A) (k : A → M elem B) st :
  bind (gets g) k st = k (g st) st.
Proof. reflexivity. Qed.

Lemma read_run {B} a T (k : Tensor elem → M elem B) st :
  heap st !! a = Some T → bind (read a) k st = k T st.
Proof. intros Ha. unfold bind, read. by rewrite Ha. Qed.

Lemma ret_run {A B} (a : A) (k : A → M elem B) st :
  bind (ret a) k st = k a st.
Proof. reflexivity. Qed.

Lemma raise_run {A B} e (k : A → M elem B) st :
  bind (raise e) k st = (Raise e, st).
Proof. reflexivity. Qed.

Lemma modify_run {B} (g : State elem → State elem) (k : unit → M elem B) st :
  bind (modify g) k st = k tt (g st).
Proof. reflexivity. Qed.

Lemma bind_run {A B} (m : M elem A) (k : A → M elem B) st a st' :
  m st = (Ok a, st') → bind m k st = k a st'.
Proof. intros Hm. unfold bind. by rewrite Hm. Qed.

Lemma bind_fail {A B} (m : M elem A) (k : A → M elem B) st e st' :
  m st = (Raise e, st') → bind m k st = (Raise e, st').
Proof. intros Hm. unfold bind. by rewrite Hm. Qed.



Lemma set_heap_set_heap (F G : list (Tensor elem) → list (Tensor elem)) st :
  set_heap F (set_heap G st) = set_heap (λ h, F (G h)) st.
Proof. reflexivity. Qed.

Lemma set_heap_ext (F G : list (Tensor elem) → list (Tensor elem)) st :
  F (heap st) = G (heap st) → set_heap F st = set_heap G st.
Proof. intros HFG. unfold set_heap. by rewrite HFG. Qed.

Lemma alter_new (F : Tensor elem → Tensor elem) h R l :
  alter F (length h) (h ++ R :: l) = h ++ F R :: l.
Proof.
  replace (length h) with (length h + 0) by lia.
  by rewrite alter_app_r.
Qed.

Lemma Tensor_init_device b gp st :
  kind b = ClBuffer → GPU st = true →
  Tensor_init (PBuf b) gp st =
    (Ok (length (heap st)),
     set_heap (λ h, h ++ [mkTensor b None None true]) st).
Proof.
  intros Hk HG.
  unfold Tensor_init, cuda_, bind, gets, ret, raise, lift, modify, alloc.
  destruct b as [k s d e]; simpl in *; subst k.
  destruct gp as [[]|]; [| |destruct (default_gpu st)];
    repeat first [rewrite HG | progress simpl]; done.
Qed.

Lemma cuda_from_device fuel self T st :
  heap st !! self = Some T → gpu T = true → GPU st = true →
  cuda_from (S fuel) self st = (Ok self, st).
Proof.
  intros Hself Hg HG. rewrite cuda_from_S, gets_run, HG. simpl.
  rewrite (read_run _ T) by done. by rewrite Hg.
Qed.

(** [cuda] on a host tensor without gradient. *)
Lemma cuda_from_plain fuel self T st :
  heap st !! self = Some T → gpu T = false → GPU st = true →
  dtype (data T) = Float32 → kind (data T) = NdArray → grad T = None →
  cuda_from (S fuel) self st =
    (Ok (length (heap st)),
     set_heap (λ h, h ++ [mkTensor (cl_Buffer (data T)) None None true]) st).
Proof.
  intros Hself Hg HG Hd Hk Hgr.
  rewrite cuda_from_S, gets_run, HG. simpl.
  rewrite (read_run _ T) by done. rewrite Hg, decide_True by done.
  rewrite Hk. erewrite bind_run by by apply Tensor_init_device.
  by rewrite Hgr.
Qed.

(** X1. [cuda] called on a tensor that is on the accelerator, and [cpu]
    called on a tensor that is on the host, return the receiver itself:
    no tensor is created and nothing changes. *)
Theorem transfer_to_own_device st self T :
  heap st !! self = Some T →
  (gpu T = true → GPU st = true → Tensor_cuda self st = (Ok self, st)) ∧
  (gpu T = false → Tensor_cpu self st = (Ok self, st)).
Proof.
  intros Hself. split.
  - intros Hg HG. unfold Tensor_cuda. rewrite gets_run, cuda_from_S.
    rewrite gets_run, HG. simpl. rewrite (read_run _ T) by done.
    by rewrite Hg.
  - intros Hg. unfold Tensor_cpu. rewrite gets_run, cpu_from_S.
    rewrite (read_run _ T) by done. by rewrite Hg.
Qed.

(** X2. Without the accelerator module every way to the accelerator fails:
    [cuda] and [cuda_] raise [Exception] and change nothing, and a
    construction that asks for the accelerator raises and builds no
    tensor. *)
Theorem accelerator_needs_module st :
  GPU st = false →
  (∀ self, Tensor_cuda self st = (Raise Exception, st)) ∧
  (∀ self, Tensor_cuda_ self st = (Raise Exception, st)) ∧
  (∀ o gp, default (default_gpu st) gp = true →
     ∃ e st', Tensor_init o gp st = (Raise e, st') ∧ heap st' = heap st) ∧
  (∀ b gp, default (default_gpu st) gp = true → kind b = NdArray →
     (Tensor_init (PBuf b) gp st).1 = Raise Exception).
Proof.
  intros HG.
  assert (Hc : ∀ self, Tensor_cuda self st = (Raise Exception, st)).
  { intros self. unfold Tensor_cuda. rewrite gets_run, cuda_from_S.
    by rewrite gets_run, HG. }
  split; [done|]. split.
  { intros self. unfold Tensor_cuda_. by erewrite bind_fail. }
  split.
  - intros o gp Hgp.
    destruct (Tensor_init o gp st) as [[n|e] st'] eqn:Hrun.
    + exfalso. revert Hrun.
      unfold Tensor_init, cuda_, bind, gets, ret, raise, lift, modify, alloc,
        np_array.
      destruct gp as [g|]; simpl in Hgp; subst; rewrite ?Hgp, HG; simpl;
        repeat (case_match; simplify_eq/=); try done;
        match goal with Hn : negb (GPU _) = false |- _ =>
          by rewrite HG in Hn end.
    + exists e, st'. split; [done|].
      by apply Tensor_init_inv in Hrun as (_&_&_&_&?).
  - intros b gp Hgp Hk.
    unfold Tensor_init, cuda_, bind, gets, ret, raise, lift, modify, alloc.
    destruct b as [k s d e]; simpl in *; subst k.
    destruct gp as [g|]; simpl in Hgp; subst; rewrite ?Hgp; simpl;
      destruct (bool_decide (d ≠ Float32) && negb (did_float_warning st));
      simpl; by rewrite HG.
Qed.

(** X3. Only float32 goes to the accelerator: [cuda] on a host tensor of
    another element type fails its assertion, with the state unchanged. *)
Theorem cuda_rejects_non_float32 st self T :
  heap st !! self = Some T → gpu T = false → GPU st = true →
  dtype (data T) ≠ Float32 →
  Tensor_cuda self st = (Raise (AssertionError None), st).
Proof.
  intros Hself Hg HG Hd. unfold Tensor_cuda.
  rewrite gets_run, cuda_from_S, gets_run, HG. simpl.
  rewrite (read_run _ T) by done. by rewrite Hg, decide_False.
Qed.

(** [cuda] on a host tensor whose gradient is a host tensor without
    gradient of its own. *)
Lemma cuda_from_with_grad fuel self T g G st :
  2 ≤ fuel →
  heap st !! self = Some T → gpu T = false → GPU st = true →
  dtype (data T) = Float32 → kind (data T) = NdArray → grad T = Some g →
  heap st !! g = Some G → gpu G = false → dtype (data G) = Float32 →
  kind (data G) = NdArray → grad G = None →
  cuda_from fuel self st =
    (Ok (length (heap st)),
     set_heap (λ h, h ++ [mkTensor (cl_Buffer (data T))
                                   (Some (S (length (heap st)))) None true;
                          mkTensor (cl_Buffer (data G)) None None true]) st).
Proof.
  intros Hfuel. destruct fuel as [|[|fuel]]; [lia..|]. clear Hfuel.
  intros Hself Hg HG Hd Hk Hgr HgG HgGpu HGd HGk HGgr.
  rewrite cuda_from_S, gets_run, HG. simpl.
  rewrite (read_run _ T) by done. rewrite Hg, decide_True by done.
  rewrite Hk. erewrite bind_run by by apply Tensor_init_device.
  rewrite Hgr.
  set (st1 := set_heap _ st).
  assert (HgG1 : heap st1 !! g = Some G).
  { unfold st1. simpl. by apply lookup_app_l_Some. }
  erewrite bind_run by by eapply cuda_from_plain.
  unfold set_grad. rewrite modify_run. unfold ret. f_equal.
  unfold st1. rewrite !set_heap_set_heap. apply set_heap_ext.
  simpl. rewrite length_app. simpl.
  rewrite <- (assoc_L (++)). simpl. rewrite alter_new. simpl.
  do 4 f_equal. lia.
Qed.

(** [cuda] on a host tensor whose gradient is on the accelerator. *)
Lemma cuda_from_shared_grad fuel self T g G st :
  2 ≤ fuel →
  heap st !! self = Some T → gpu T = false → GPU st = true →
  dtype (data T) = Float32 → kind (data T) = NdArray → grad T = Some g →
  heap st !! g = Some G → gpu G = true →
  cuda_from fuel self st =
    (Ok (length (heap st)),
     set_heap (λ h, h ++ [mkTensor (cl_Buffer (data T)) (Some g) None true])
              st).
Proof.
  intros Hfuel. destruct fuel as [|[|fuel]]; [lia..|]. clear Hfuel.
  intros Hself Hg HG Hd Hk Hgr HgG HgGpu.
  rewrite cuda_from_S, gets_run, HG. simpl.
  rewrite (read_run _ T) by done. rewrite Hg, decide_True by done.
  rewrite Hk. erewrite bind_run by by apply Tensor_init_device.
  rewrite Hgr.
  set (st1 := set_heap _ st).
  assert (HgG1 : heap st1 !! g = Some G).
  { unfold st1. simpl. by apply lookup_app_l_Some. }
  erewrite bind_run by by eapply cuda_from_device.
  unfold set_grad. rewrite modify_run. unfold ret. f_equal.
  unfold st1. rewrite set_heap_set_heap. apply set_heap_ext.
  by rewrite alter_new.
Qed.

Lemma heap_nonempty st a T :
  heap st !! a = Some T → length (heap st) = S (pred (length (heap st))).
Proof. intros Ha%lookup_lt_Some. lia. Qed.

Lemma Tensor_init_host_copy (d : Buffer elem) st :
  Tensor_init (PBuf (host_copy d)) (Some false) st =
    (Ok (length (heap st)),
     set_heap (λ h, h ++ [mkTensor (host_copy d) None None false]) st).
Proof. by rewrite Tensor_init_ndarray. Qed.

Lemma cpu_from_host fuel self T st :
  heap st !! self = Some T → gpu T = false →
  cpu_from (S fuel) self st = (Ok self, st).
Proof.
  intros Hself Hg. rewrite cpu_from_S.
  rewrite (read_run _ T) by done. by rewrite Hg.
Qed.

Lemma cpu_from_plain fuel self T st :
  heap st !! self = Some T → gpu T = true → GPU st = true →
  kind (data T) = ClBuffer → grad T = None →
  cpu_from (S fuel) self st =
    (Ok (length (heap st)),
     set_heap (λ h, h ++ [mkTensor (host_copy (data T)) None None false]) st).
Proof.
  intros Hself Hg HG Hk Hgr. rewrite cpu_from_S.
  rewrite (read_run _ T) by done. rewrite Hg.
  erewrite bind_run by apply Tensor_init_host_copy.
  rewrite gets_run. simpl. rewrite HG. simpl. by rewrite Hk, Hgr.
Qed.

Lemma cpu_from_with_grad fuel self T g G st :
  2 ≤ fuel →
  heap st !! self = Some T → gpu T = true → GPU st = true →
  kind (data T) = ClBuffer → grad T = Some g →
  heap st !! g = Some G → gpu G = true → kind (data G) = ClBuffer →
  grad G = None →
  cpu_from fuel self st =
    (Ok (length (heap st)),
     set_heap (λ h, h ++ [mkTensor (host_copy (data T))
                                   (Some (S (length (heap st)))) None false;
                          mkTensor (host_copy (data G)) None None false]) st).
Proof.
  intros Hfuel. destruct fuel as [|[|fuel]]; [lia..|]. clear Hfuel.
  intros Hself Hg HG Hk Hgr HgG HgGpu HGk HGgr. rewrite cpu_from_S.
  rewrite (read_run _ T) by done. rewrite Hg.
  erewrite bind_run by apply Tensor_init_host_copy.
  rewrite gets_run. simpl. rewrite HG. simpl. rewrite Hk, Hgr.
  set (st1 := set_heap _ st).
  assert (HgG1 : heap st1 !! g = Some G).
  { unfold st1. simpl. by apply lookup_app_l_Some. }
  erewrite bind_run by by eapply cpu_from_plain.
  unfold set_grad. rewrite modify_run. unfold ret. f_equal.
  unfold st1. rewrite !set_heap_set_heap. apply set_heap_ext.
  simpl. rewrite length_app. simpl.
  rewrite <- (assoc_L (++)). simpl. rewrite alter_new. simpl.
  do 4 f_equal. lia.
Qed.

(** A device copy brought back is the array it was made from. *)
Lemma host_copy_cl_Buffer (d : Buffer elem) :
  kind d = NdArray → dtype d = Float32 → host_copy (cl_Buffer d) = d.
Proof. destruct d as [k s t e]. simpl. by intros -> ->. Qed.

(** X4. [cuda] on a float32 host tensor builds a new tensor on the
    accelerator around a device copy of the buffer: shape, element type
    and elements are kept, the new tensor has no producer, whatever the
    receiver's, and the receiver is untouched.  A gradient travels with
    it: one on the host is copied in the same way, one already on the
    accelerator is shared. *)
Theorem cuda_copies st self T :
  heap st !! self = Some T → gpu T = false → GPU st = true →
  dtype (data T) = Float32 → kind (data T) = NdArray →
  let n := length (heap st) in
  match grad T with
  | None =>
      Tensor_cuda self st =
        (Ok n, set_heap
                 (λ h, h ++ [mkTensor (cl_Buffer (data T)) None None true]) st)
  | Some g =>
      ∀ G, heap st !! g = Some G →
        (gpu G = true →
           Tensor_cuda self st =
             (Ok n, set_heap
                      (λ h, h ++ [mkTensor (cl_Buffer (data T)) (Some g)
                                           None true]) st)) ∧
        (gpu G = false → dtype (data G) = Float32 →
         kind (data G) = NdArray → grad G = None →
           Tensor_cuda self st =
             (Ok n, set_heap
                      (λ h, h ++ [mkTensor (cl_Buffer (data T)) (Some (S n))
                                           None true;
                                  mkTensor (cl_Buffer (data G)) None None
                                           true]) st))
  end.
Proof.
  intros Hself Hg HG Hd Hk n. unfold Tensor_cuda. rewrite gets_run.
  destruct (grad T) as [g|] eqn:Hgr.
  - intros G HgG.
    pose proof (lookup_lt_Some _ _ _ Hself).
    split; intros.
    + eapply cuda_from_shared_grad; [lia|done..].
    + eapply cuda_from_with_grad; [lia|done..].
  - by eapply cuda_from_plain.
Qed.

(** X5. Round trip: for a float32 host tensor, [x.cuda().cpu()] is a new
    host tensor with the buffer of [x] (shape, element type and elements),
    without producer; [x] itself is untouched.  A gradient of [x] makes
    the same round trip and arrives as a copy. *)
Theorem cuda_cpu_round_trip st self T :
  heap st !! self = Some T → gpu T = false → GPU st = true →
  dtype (data T) = Float32 → kind (data T) = NdArray →
  (∀ g, grad T = Some g →
     ∃ G, heap st !! g = Some G ∧ gpu G = false ∧ dtype (data G) = Float32 ∧
          kind (data G) = NdArray ∧ grad G = None) →
  ∃ r st1 r' st2 R',
    Tensor_cuda self st = (Ok r, st1) ∧ Tensor_cpu r st1 = (Ok r', st2) ∧
    heap st2 !! r' = Some R' ∧ data R' = data T ∧ gpu R' = false ∧
    _ctx R' = None ∧ r' ≠ self ∧ heap st2 !! self = Some T ∧
    match grad T with
    | None => grad R' = None
    | Some g =>
        ∃ g' G' G, grad R' = Some g' ∧ g' ≠ g ∧ heap st2 !! g' = Some G' ∧
                   heap st !! g = Some G ∧ data G' = data G ∧ gpu G' = false
    end.
Proof.
  intros Hself Hg HG Hd Hk Hgrad.
  pose proof (lookup_lt_Some _ _ _ Hself) as Hlt.
  set (n := length (heap st)).
  destruct (grad T) as [g|] eqn:Hgr.
  - destruct (Hgrad g eq_refl) as (G & HgG & HgGpu & HGd & HGk & HGgr).
    pose proof (lookup_lt_Some _ _ _ HgG) as Hltg.
    set (R := mkTensor (cl_Buffer (data T)) (Some (S n)) None true).
    set (G1 := mkTensor (cl_Buffer (data G)) None None true).
    set (st1 := set_heap (λ h, h ++ [R; G1]) st).
    assert (Hl1 : length (heap st1) = S (S n)).
    { unfold st1. simpl. rewrite length_app. simpl. lia. }
    set (R2 := mkTensor (host_copy (data R)) (Some (S (length (heap st1))))
                        None false).
    set (G2 := mkTensor (host_copy (data G1)) None None false).
    set (st2 := set_heap (λ h, h ++ [R2; G2]) st1).
    assert (Hr1 : heap st1 !! n = Some R).
    { unfold st1. simpl. by rewrite list_lookup_middle. }
    assert (Hg1 : heap st1 !! S n = Some G1).
    { unfold st1. simpl. rewrite (lookup_app_r (heap st)) by (unfold n; lia).
      by replace (S n - length (heap st)) with 1 by (unfold n; lia). }
    exists n, st1, (length (heap st1)), st2, R2. split.
    { unfold Tensor_cuda. rewrite gets_run.
      eapply cuda_from_with_grad; [lia|done..]. }
    split.
    { unfold Tensor_cpu. rewrite gets_run.
      eapply cpu_from_with_grad; [lia|done..]. }
    split; [unfold st2; simpl; by rewrite list_lookup_middle|].
    split; [by apply host_copy_cl_Buffer|].
    split; [done|]. split; [done|]. split; [lia|].
    split.
    { unfold st2, st1. simpl. rewrite <- (assoc_L (++)).
      by apply lookup_app_l_Some. }
    exists (S (length (heap st1))), G2, G. split; [done|]. split; [lia|].
    split.
    { change (heap st2) with (heap st1 ++ [R2; G2]).
      rewrite (lookup_app_r (heap st1)) by lia.
      by replace (S (length (heap st1)) - length (heap st1)) with 1 by lia. }
    split; [done|]. split; [by apply host_copy_cl_Buffer|done].
  - set (R := mkTensor (cl_Buffer (data T)) None None true).
    set (st1 := set_heap (λ h, h ++ [R]) st).
    assert (Hl1 : length (heap st1) = S n).
    { unfold st1. simpl. rewrite length_app. simpl. lia. }
    set (R2 := mkTensor (host_copy (data R)) None None false).
    set (st2 := set_heap (λ h, h ++ [R2]) st1).
    assert (Hr1 : heap st1 !! n = Some R).
    { unfold st1. simpl. by rewrite list_lookup_middle. }
    exists n, st1, (length (heap st1)), st2, R2. split.
    { unfold Tensor_cuda. rewrite gets_run. by eapply cuda_from_plain. }
    split.
    { unfold Tensor_cpu. rewrite gets_run. by eapply cpu_from_plain. }
    split; [unfold st2; simpl; by rewrite list_lookup_middle|].
    split; [by apply host_copy_cl_Buffer|].
    split; [done|]. split; [done|]. split; [lia|].
    split; [|done].
    unfold st2, st1. simpl. rewrite <- (assoc_L (++)).
    by apply lookup_app_l_Some.
Qed.

(** X6. [cuda_] moves the buffer and nothing else: afterwards the receiver
    holds the device copy of its buffer and is flagged as on the
    accelerator, its producer and its [grad] reference are the ones it
    had, and every other tensor, the gradient included, is as before (a
    gradient on the host stays on the host). *)
Theorem cuda__moves_data_only st self T :
  heap st !! self = Some T → gpu T = false → GPU st = true →
  dtype (data T) = Float32 → kind (data T) = NdArray →
  (∀ g, grad T = Some g →
     ∃ G, heap st !! g = Some G ∧ gpu G = false ∧ dtype (data G) = Float32 ∧
          kind (data G) = NdArray ∧ grad G = None) →
  ∃ st',
    Tensor_cuda_ self st = (Ok tt, st') ∧
    heap st' !! self =
      Some (mkTensor (cl_Buffer (data T)) (grad T) (_ctx T) true) ∧
    (∀ a, a ≠ self → a < length (heap st) → heap st' !! a = heap st !! a).
Proof.
  intros Hself Hg HG Hd Hk Hgrad.
  pose proof (lookup_lt_Some _ _ _ Hself) as Hlt.
  assert (∃ R l,
    Tensor_cuda self st =
      (Ok (length (heap st)), set_heap (λ h, h ++ R :: l) st) ∧
    data R = cl_Buffer (data T)) as (R & l & Hrun & HR).
  { unfold Tensor_cuda. rewrite gets_run.
    destruct (grad T) as [g|] eqn:Hgr.
    - destruct (Hgrad g eq_refl) as (G & HgG & HgGpu & HGd & HGk & HGgr).
      eexists _, _. split.
      + eapply cuda_from_with_grad; [lia|done..].
      + done.
    - eexists _, _. split; [by eapply cuda_from_plain|done]. }
  eexists. split.
  { unfold Tensor_cuda_. erewrite bind_run by exact Hrun.
    erewrite read_run by (simpl; apply list_lookup_middle; done).
    unfold set_data. rewrite modify_run.
    unfold set_gpu, modify. reflexivity. }
  simpl. split.
  - rewrite list_lookup_alter_eq, list_lookup_alter_eq.
    rewrite (lookup_app_l_Some _ _ _ _ Hself). simpl. by rewrite HR.
  - intros a Ha Hla.
    rewrite list_lookup_alter_ne, list_lookup_alter_ne by done.
    by rewrite lookup_app_l.
Qed.

(** X7. [detach] builds a new tensor around the receiver's own buffer, on
    the receiver's device, with neither producer nor gradient; the
    receiver keeps both.  [backward] on the detached tensor does nothing:
    no gradient flows through a detached tensor. *)
Theorem detach_cuts_graph st self T allow_fill :
  heap st !! self = Some T →
  (gpu T = false ∧ kind (data T) = NdArray ∧
   (dtype (data T) = Float32 ∨ did_float_warning st = true)) ∨
  (gpu T = true ∧ kind (data T) = ClBuffer ∧ GPU st = true) →
  let st' := set_heap (λ h, h ++ [mkTensor (data T) None None (gpu T)]) st in
  Tensor_detach self st = (Ok (length (heap st)), st') ∧
  heap st' !! self = Some T ∧
  Tensor_backward (length (heap st)) allow_fill st' = (Ok tt, st').
Proof.
  intros Hself Hcase st'. split; [|split].
  - unfold Tensor_detach, st'. rewrite (read_run _ T) by done.
    destruct Hcase as [(Hg & Hk & Hw)|(Hg & Hk & HG)]; rewrite Hg.
    + rewrite Tensor_init_ndarray by done.
      replace (bool_decide (dtype (data T) ≠ Float32) &&
               negb (did_float_warning st)) with false; [done|].
      destruct Hw as [->| ->]; [done|]. by rewrite andb_false_r.
    + by rewrite Tensor_init_device.
  - unfold st'. simpl. by apply lookup_app_l_Some.
  - unfold Tensor_backward.
    erewrite read_run by (unfold st'; simpl; by apply list_lookup_middle).
    done.
Qed.

(** X8. A tensor built from a device buffer is on the accelerator whatever
    the [gpu] argument says, [gpu=False] included; the buffer is taken as
    it is and nothing is printed. *)
Theorem device_buffer_stays_on_device b gp st :
  kind b = ClBuffer → GPU st = true →
  Tensor_init (PBuf b) gp st =
    (Ok (length (heap st)),
     set_heap (λ h, h ++ [mkTensor b None None true]) st).
Proof. apply Tensor_init_device. Qed.

Lemma Tensor_init_accel b gp st :
  kind b = NdArray → GPU st = true → default (default_gpu st) gp = true →
  Tensor_init (PBuf b) gp st =
    if decide (dtype b = Float32)
    then (Ok (length (heap st)),
          set_heap (λ h, h ++ [mkTensor (cl_Buffer b) None None true]) st)
    else (Raise (AssertionError None),
          if did_float_warning st then st else warn_float (shape b) st).
Proof.
  intros Hk HG Hgp.
  unfold Tensor_init, cuda_, bind, gets, ret, raise, lift, modify, alloc.
  destruct b as [k s d e]; simpl in *; subst k.
  assert (Hgp' : match gp with Some g => g | None => default_gpu st end
                 = true) by (by destruct gp).
  destruct gp as [g|]; simpl in Hgp; subst; rewrite ?Hgp; simpl.
  all: destruct (decide (d = Float32)) as [->|Hd]; simpl;
    [rewrite HG; simpl; by rewrite ?HG|].
  all: rewrite (bool_decide_eq_true_2 _ Hd); simpl;
    destruct (did_float_warning st); simpl; by rewrite HG.
Qed.

(** X9. Construction for the accelerator from a host array: float32 data
    is copied to a device buffer; for any other element type the warning
    is printed first (if it has not been printed before) and then the
    assertion of [cuda] fails, so no tensor is built but the one warning
    of the process is spent. *)
Theorem accelerator_construction b gp st :
  kind b = NdArray → GPU st = true → default (default_gpu st) gp = true →
  Tensor_init (PBuf b) gp st =
    if decide (dtype b = Float32)
    then (Ok (length (heap st)),
          set_heap (λ h, h ++ [mkTensor (cl_Buffer b) None None true]) st)
    else (Raise (AssertionError None),
          if did_float_warning st then st else warn_float (shape b) st).
Proof. apply Tensor_init_accel. Qed.


(** ** The registry *)

Lemma length_append (s1 s2 : string) :
  String.length (s1 +:+ s2) = String.length s1 + String.length s2.
Proof.
  induction s1 as [|a s1 IH]; [done|].
  change (String a s1 +:+ s2) with (String a (s1 +:+ s2)). simpl.
  by rewrite IH.
Qed.

Lemma special_name_ne (pre name : string) :
  pre +:+ name +:+ "__" ≠ name.
Proof.
  intros Heq. apply (f_equal String.length) in Heq.
  rewrite !length_append in Heq. simpl in Heq. lia.
Qed.

Lemma register_run name (fxn : Function elem) (gp : bool) st :
  register name fxn gp st =
    (Ok tt,
     set_methods
       (λ ms, if bool_decide (name ∈ arithmetic)
              then <["__i" +:+ name +:+ "__" := InPlace name]>
                     (<["__" +:+ name +:+ "__" := Dispatch name]>
                        (<[name := Dispatch name]> ms))
              else <[name := Dispatch name]> ms)
       ((if gp then set_opsgpu (<[name := fxn]>)
         else set_ops (<[name := fxn]>)) st)).
Proof.
  unfold register, bind, modify, ret.
  by destruct (bool_decide (name ∈ arithmetic)), gp.
Qed.


Lemma register_heap name (fxn : Function elem) (gp : bool) st :
  heap (register name fxn gp st).2 = heap st.
Proof. rewrite register_run. by destruct gp. Qed.



Lemma getattr_run name m st :
  methods st !! name = Some m → getattr name st = (Ok m, st).
Proof. intros Hm. unfold getattr. rewrite gets_run. by rewrite Hm. Qed.

Lemma dispatch_run name x0 xs kw T0 st :
  heap st !! x0 = Some T0 →
  dispatch name (x0 :: xs) kw st =
    match (if gpu T0 then opsgpu st else ops st) !! name with
    | None => (Raise KeyError, st)
    | Some f => Function_apply f (x0 :: xs) kw st
    end.
Proof.
  intros Hx0. unfold dispatch. rewrite (read_run _ T0) by done.
  rewrite gets_run.
  destruct (gpu T0); [by destruct (opsgpu st !! name)|
                      by destruct (ops st !! name)].
Qed.



(** X12. Operators come with the four arithmetic names only: registering
    an operation under any other name installs that one attribute and
    leaves every other attribute of the class as it was, so the operator
    spelled [__<name>__] still raises [TypeError] if it did before. *)
Theorem operators_only_for_arithmetic name (fxn : Function elem) (gp : bool)
    st :
  name ∉ arithmetic →
  let st' := (register name fxn gp st).2 in
  (∀ k, k ≠ name → methods st' !! k = methods st !! k) ∧
  (∀ a1 a2, methods st !! ("__" +:+ name +:+ "__") = None →
     Tensor_binop name a1 a2 st' = (Raise TypeError, st')).
Proof.
  intros Hname st'.
  assert (Hm : ∀ k, k ≠ name → methods st' !! k = methods st !! k).
  { intros k Hk. unfold st'. rewrite register_run. simpl.
    rewrite bool_decide_eq_false_2 by done.
    destruct gp; simpl; by rewrite lookup_insert_ne. }
  split; [done|]. intros a1 a2 Hnone.
  unfold Tensor_binop. rewrite gets_run.
  rewrite Hm by apply special_name_ne. by rewrite Hnone.
Qed.

(** ** [assign] *)

(** X13. [assign] checks nothing: it stores the other tensor's buffer and
    keeps [grad], producer and device.  When the new buffer has another
    shape than the old one, a gradient that matched the data no longer
    does. *)
Theorem assign_ignores_shape st self x T X g G :
  heap st !! self = Some T → heap st !! x = Some X →
  grad T = Some g → heap st !! g = Some G → g ≠ self →
  shape (data G) = shape (data T) → shape (data X) ≠ shape (data T) →
  ∃ st',
    Tensor_assign self x st = (Ok tt, st') ∧
    heap st' !! self = Some (mkTensor (data X) (grad T) (_ctx T) (gpu T)) ∧
    (∀ a, a ≠ self → heap st' !! a = heap st !! a) ∧
    grad_ok (heap st) self ∧ ¬ grad_ok (heap st') self.
Proof.
  intros Hself Hx Hgr Hg Hne HsG HsX.
  eexists. split.
  { unfold Tensor_assign. rewrite (read_run _ X) by done.
    unfold set_data, modify. reflexivity. }
  simpl.
  assert (Hself' : alter (λ t, mkTensor (data X) (grad t) (_ctx t) (gpu t))
                     self (heap st) !! self =
                   Some (mkTensor (data X) (grad T) (_ctx T) (gpu T))).
  { by rewrite list_lookup_alter_eq, Hself. }
  split; [done|].
  split; [intros a Ha; by rewrite list_lookup_alter_ne|].
  split.
  - intros T' g' HT' Hg'. simplify_eq. by exists G.
  - intros Hok. destruct (Hok _ g Hself' Hgr) as (G' & HG' & Hs).
    rewrite list_lookup_alter_ne in HG' by done. simplify_eq/=. congruence.
Qed.


(** ** More on [backward] *)

Lemma unit_bind_ret (m : M elem unit) st : bind m (λ _, ret tt) st = m st.
Proof. unfold bind, ret. by destruct (m st) as [[[]|e] st']. Qed.

Lemma fill_grad_skip self T af st :
  heap st !! self = Some T → grad T ≠ None ∨ af = false →
  fill_grad self af st = (Ok tt, st).
Proof.
  intros Hself Hcase. unfold fill_grad. rewrite (read_run _ T) by done.
  destruct (grad T); [done|]. by destruct Hcase as [?| ->].
Qed.

Lemma Tensor_backward_loop self T c af st :
  heap st !! self = Some T → _ctx T = Some c →
  grad T ≠ None ∨ af = false →
  Tensor_backward self af st =
    (nodes <- walk self ; forM_ (backward_node c) (reverse nodes)) st.
Proof.
  intros Hself Hc Hcase. unfold Tensor_backward.
  rewrite (read_run _ T) by done. rewrite Hc.
  by erewrite bind_run by by eapply fill_grad_skip.
Qed.



(** The loop of [backward] on a chain [x -> u] whose end [u] has a
    gradient: one call of the kernel's [backward], one pair. *)
Lemma chain_loop st x u U cu c g0 G0 grads :
  unproduced (heap st) x →
  heap st !! u = Some U → _ctx U = Some cu → parents (inst cu) = [x] →
  grad U = Some g0 → heap st !! g0 = Some G0 →
  backward (cls cu) (inst cu) (data G0) = Ok grads →
  (nodes <- walk u ; forM_ (backward_node c) (reverse nodes)) st =
    accumulate c x grads st.
Proof.
  intros Hx HU HcU HpU HgU HG0 Hb.
  erewrite bind_run by (eapply walk_chain; [done|by exists U]).
  change (reverse [u]) with [u]. simpl. rewrite unit_bind_ret.
  erewrite backward_node_run by done.
  rewrite HpU. simpl. erewrite bind_run by reflexivity.
  simpl. apply unit_bind_ret.
Qed.

(** X15. A gradient that is already there is used as it is: [backward] on
    a result [u] whose [grad] is set does not seed, and neither the shape
    of [u] nor the shape of that gradient is checked.  On a chain
    [x -> u] the parent [x] receives what the kernel's [backward] makes
    of the gradient found in [u.grad]; [u] keeps it. *)
Theorem backward_uses_preset_grad st x u X U cu g0 G0 g allow_fill :
  default_gpu st = false →
  heap st !! x = Some X → _ctx X = None → grad X = None →
  heap st !! u = Some U → _ctx U = Some cu → parents (inst cu) = [x] →
  grad U = Some g0 → heap st !! g0 = Some G0 →
  backward (cls cu) (inst cu) (data G0) = Ok (PBuf g) →
  kind g = NdArray → shape g = shape (data X) →
  ∃ st',
    Tensor_backward u allow_fill st = (Ok tt, st') ∧
    heap st' !! x =
      Some (mkTensor (data X) (Some (length (heap st))) None (gpu X)) ∧
    heap st' !! length (heap st) = Some (mkTensor g None None false) ∧
    heap st' !! u = Some U.
Proof.
  intros Hdg HX HcX HgX HU HcU HpU HgU HG0 Hb Hkg Hsg.
  assert (x ≠ u) by (intros ->; congruence).
  destruct (accumulate_adopt cu x X g st HX HgX)
    as (st' & Hacc & _ & Hheap); [done..|].
  destruct (heap_step _ _ _ _ _ _ Hheap HX) as (Hx' & Hnew & Hold & _).
  exists st'. split; [|split; [|split]].
  - erewrite Tensor_backward_loop; [|done|done|left; congruence].
    erewrite chain_loop; [exact Hacc|by exists X|done..].
  - rewrite Hx'. simpl. by rewrite HcX.
  - specialize (Hnew 0). by rewrite Nat.add_0_r in Hnew.
  - rewrite Hold; [done|done|by eapply lookup_lt_Some].
Qed.

(** X16. Gradients are never reset: on a chain [x -> u] with [u] of shape
    [(1,)], a second [u.backward()] adds to what the first left.  After
    the first call [x.grad] holds the gradient [g] that the kernel
    computes from the seed; after the second it holds the elementwise sum
    of [g] and [g]. *)
Theorem backward_twice_accumulates st x u X U cu fadd g :
  methods st !! "__add__" = Some (Dispatch "add") →
  ops st !! "add" = Some fadd → adds_elementwise fadd →
  default_gpu st = false →
  is_leaf (heap st) x X → is_output (heap st) u U cu [x] →
  gpu U = false → shape (data U) = [1] →
  backward (cls cu) (inst cu) (np_ones [1] (dtype (data U))) = Ok (PBuf g) →
  kind g = NdArray → shape g = shape (data X) →
  ∃ st1 st2 r1 R1 r2 R2 X1 X2,
    Tensor_backward u true st = (Ok tt, st1) ∧
    heap st1 !! x = Some X1 ∧ grad X1 = Some r1 ∧
    heap st1 !! r1 = Some R1 ∧ data R1 = g ∧
    Tensor_backward u true st1 = (Ok tt, st2) ∧
    heap st2 !! x = Some X2 ∧ grad X2 = Some r2 ∧
    heap st2 !! r2 = Some R2 ∧
    shape (data R2) = shape g ∧
    elems (data R2) = zip_with add (elems g) (elems g).
Proof.
  intros Hadd Hops Hel Hdg (HX & HcX & HgX) (HU & HcU & HpU & HgU)
    HgpuU HsU Hb Hkg Hsg.
  set (n := length (heap st)).
  set (seed := np_ones [1] (dtype (data U))) in *.
  assert (x ≠ u) by (intros ->; congruence).
  assert (x < n) by by eapply lookup_lt_Some.
  assert (u < n) by by eapply lookup_lt_Some.
  (* the first call: seed, then one pair *)
  destruct (fill_grad_seed st u U cu HU HcU HgU HsU)
    as (sta & _ & Hrega & Hlena & Hua & Hna & Holda & Hbw).
  { by rewrite HgpuU. }
  rewrite HgpuU in Hua, Hna. simpl in Hna. fold n seed in Hua, Hna, Hlena.
  assert (Hxa : heap sta !! x = Some X) by by rewrite Holda.
  assert (Hdga : default_gpu sta = false)
    by (destruct Hrega as (_ & _ & _ & _ & ->); done).
  destruct (accumulate_adopt cu x X g sta Hxa HgX)
    as (st1 & Hacc1 & Hreg1 & Hheap1); [done..|].
  destruct (heap_step _ _ _ _ _ _ Hheap1 Hxa) as (Hx1 & Hnew1 & Hold1 & Hlen1).
  rewrite Hlena in Hx1, Hnew1, Hlen1. simpl in Hlen1.
  assert (Hr1 : heap st1 !! S n = Some (mkTensor g None None false)).
  { specialize (Hnew1 0). by rewrite Nat.add_0_r in Hnew1. }
  assert (Hu1 : heap st1 !! u =
            Some (mkTensor (data U) (Some n) (Some cu) false)).
  { rewrite Hold1; [done|done|lia]. }
  assert (Hn1 : heap st1 !! n = Some (mkTensor seed None None false)).
  { rewrite Hold1; [done|lia|lia]. }
  assert (Hfirst : Tensor_backward u true st = (Ok tt, st1)).
  { rewrite Hbw. erewrite chain_loop; [exact Hacc1|by exists X|done..]. }
  (* the second call: no seed, the pair is added *)
  assert (Hreg : same_registry st st1)
    by (eapply same_registry_trans; done).
  destruct Hreg as (Hops1 & _ & Hm1 & _ & Hdg1).
  destruct (accumulate_add cu x _ (S n) _ g fadd st1 Hx1 eq_refl Hr1)
    as (st2 & cx & Hacc2 & _ & _ & _ & Hheap2);
    [done|done|done|done|done|congruence|congruence|congruence|done|].
  destruct (heap_step _ _ _ _ _ _ Hheap2 Hx1) as (Hx2 & Hnew2 & _ & _).
  eexists st1, st2, (S n), _, (S (length (heap st1))), _, _, _.
  split; [done|]. split; [exact Hx1|]. split; [done|].
  split; [exact Hr1|]. split; [done|].
  split.
  { erewrite Tensor_backward_loop; [|exact Hu1|done|by left].
    erewrite chain_loop; [exact Hacc2|..]; try done.
    exists (mkTensor (data X) (Some (S n)) (_ctx X) (gpu X)).
    split; [done|]. by simpl. }
  split; [exact Hx2|]. split; [done|].
  split.
  { specialize (Hnew2 1).
    replace (length (heap st1) + 1) with (S (length (heap st1))) in Hnew2
      by lia.
    exact Hnew2. }
  done.
Qed.

Lemma walk_chain3 st x u y cu cy :
  unproduced (heap st) x → produced (heap st) u cu [x] →
  produced (heap st) y cy [u] →
  walk y st = (Ok [u; y], st).
Proof.
  intros (X & HX & HcX) (U & HU & HcU & HpU) (Y & HY & HcY & HpY).
  assert (x ≠ u) by (intros ->; congruence).
  assert (x ≠ y) by (intros ->; congruence).
  assert (u ≠ y) by (intros ->; congruence).
  assert (∃ k, length (heap st) = S (S k)) as [k Hlen].
  { apply lookup_lt_Some in HX, HU, HY.
    destruct (length (heap st)) as [|[|k]]; [lia|lia|eauto]. }
  assert (Hrun : ∃ vis, deepwalk (S (S (S k))) (heap st) y (∅, [])
                        = Ok (vis, [u; y])).
  { eexists. rewrite deepwalk_S, HY, HcY, HpY. simpl.
    rewrite decide_False by set_solver.
    rewrite deepwalk_S, HU, HcU, HpU. simpl.
    rewrite decide_False by set_solver.
    rewrite deepwalk_S, HX, HcX. simpl. reflexivity. }
  destruct Hrun as (vis & Hrun).
  unfold walk, bind, gets, lift, ret. by rewrite Hlen, Hrun.
Qed.

(** X17. A tensor that is the result of an operation must have received a
    gradient when its turn comes.  On a chain [x -> u -> y] where the
    [backward] of the operation that made [y] returns [None] for [u],
    [y.backward()] seeds [y.grad], skips the pair, and then fails the
    assertion [t0.grad is not None] on [u]; the seed stays. *)
Theorem none_gradient_starves_parent st x u y U Y cu cy :
  unproduced (heap st) x →
  is_output (heap st) u U cu [x] → is_output (heap st) y Y cy [u] →
  gpu Y = false → shape (data Y) = [1] →
  backward (cls cy) (inst cy) (np_ones [1] (dtype (data Y))) = Ok PNone →
  ∃ st',
    fill_grad y true st = (Ok tt, st') ∧
    Tensor_backward y true st = (Raise (AssertionError None), st') ∧
    heap st' !! y =
      Some (mkTensor (data Y) (Some (length (heap st))) (Some cy) false) ∧
    heap st' !! x = heap st !! x ∧ heap st' !! u = Some U.
Proof.
  intros (X & HX & HcX) (HU & HcU & HpU & HgU) (HY & HcY & HpY & HgY)
    HgpuY HsY Hb.
  assert (x ≠ u) by (intros ->; congruence).
  assert (x ≠ y) by (intros ->; congruence).
  assert (u ≠ y) by (intros ->; congruence).
  pose proof (lookup_lt_Some _ _ _ HX).
  pose proof (lookup_lt_Some _ _ _ HU).
  destruct (fill_grad_seed st y Y cy HY HcY HgY HsY)
    as (st1 & Hfill & _ & _ & Hy1 & Hn1 & Hold1 & Hbw).
  { by rewrite HgpuY. }
  rewrite HgpuY in Hy1, Hn1. simpl in Hn1.
  assert (Hx1 : heap st1 !! x = Some X) by by rewrite Hold1.
  assert (Hu1 : heap st1 !! u = Some U) by by rewrite Hold1.
  exists st1. split; [done|]. split; [|split; [done|split; [congruence|done]]].
  rewrite Hbw.
  erewrite bind_run; last first.
  { apply (walk_chain3 st1 x u y cu cy); [by exists X|by exists U|].
    eexists. split; [exact Hy1|done]. }
  change (reverse [u; y]) with [y; u]. simpl.
  erewrite bind_run; last first.
  { erewrite backward_node_run; [|exact Hy1|done|done|exact Hn1|exact Hb].
    rewrite HpY. simpl. erewrite bind_run by reflexivity.
    simpl. rewrite unit_bind_ret. apply accumulate_None. }
  erewrite bind_fail; [done|].
  unfold backward_node. rewrite (read_run _ U) by done. by rewrite HgU.
Qed.

Lemma zip_take_both {A B} (l : list A) (k : list B) :
  zip (take (length k) l) (take (length l) k) = zip l k.
Proof.
  revert k. induction l as [|a l IH]; intros [|b k]; simpl; try done.
  by rewrite IH.
Qed.

(** X18. What a kernel's [backward] returns is wrapped in a list when the
    operation has one parent and iterated otherwise, without a check of
    its type.  So a tuple returned for a single parent fails with
    [AttributeError] (a tuple has no [shape]); [None] returned for
    several parents fails with [TypeError] (it cannot be iterated); and a
    single host array returned for several parents is split along its
    first axis, one slice per parent.  In the two failing cases the state
    is unchanged.  The number of gradients is not checked either: of a
    tuple that is shorter or longer than the parents only the pairs that
    [zip] forms are used. *)
Theorem backward_value_used_as_is c t0 T0 g0 G0 c0 st :
  heap st !! t0 = Some T0 → grad T0 = Some g0 → _ctx T0 = Some c0 →
  heap st !! g0 = Some G0 →
  (∀ p l, parents (inst c0) = [p] →
     backward (cls c0) (inst c0) (data G0) = Ok (PTuple l) →
     backward_node c t0 st = (Raise AttributeError, st)) ∧
  (length (parents (inst c0)) ≠ 1 →
     backward (cls c0) (inst c0) (data G0) = Ok PNone →
     backward_node c t0 st = (Raise TypeError, st)) ∧
  (∀ g slices, length (parents (inst c0)) ≠ 1 →
     backward (cls c0) (inst c0) (data G0) = Ok (PBuf g) →
     kind g = NdArray → rows g = Ok slices →
     backward_node c t0 st =
       forM_ (λ p, accumulate c p.1 p.2) (zip (parents (inst c0)) slices) st) ∧
  (∀ gs, length (parents (inst c0)) ≠ 1 →
     backward (cls c0) (inst c0) (data G0) = Ok (PTuple gs) →
     backward_node c t0 st =
       forM_ (λ p, accumulate c p.1 p.2)
             (zip (take (length gs) (parents (inst c0)))
                  (take (length (parents (inst c0))) gs)) st).
Proof.
  intros Ht0 Hgr Hc0 Hg0. split; [|split; [|split]].
  - intros p l Hp Hb. erewrite backward_node_run by done.
    rewrite Hp. simpl. erewrite bind_run by reflexivity. simpl.
    by erewrite bind_fail.
  - intros Hlen Hb. erewrite backward_node_run by done.
    rewrite decide_False by done. by erewrite bind_fail.
  - intros g slices Hlen Hb Hk Hrows. erewrite backward_node_run by done.
    rewrite decide_False by done. simpl. rewrite Hk, Hrows.
    by erewrite bind_run by reflexivity.
  - intros gs Hlen Hb. erewrite backward_node_run by done.
    rewrite decide_False by done. simpl.
    erewrite bind_run by reflexivity. by rewrite <- zip_take_both.
Qed.


(** ** Invariants of programs *)

Section Stable.
Variable R : relation (State elem).
Context {HR : PreOrder R}.

Lemma stable_ret {A} (a : A) : stable R (ret a).
Proof using HR. intros st r st' [= <- <-]. reflexivity. Qed.

Lemma stable_raise {A} e : stable R (@raise elem A e).
Proof using HR. intros st r st' [= <- <-]. reflexivity. Qed.

Lemma stable_gets {A} (g : State elem → A) : stable R (gets g).
Proof using HR. intros st r st' [= <- <-]. reflexivity. Qed.

Lemma stable_lift {A} (r : Result A) : stable R (lift r).
Proof using HR. intros st r' st' [= <- <-]. reflexivity. Qed.

Lemma stable_read a : stable R (read a).
Proof using HR.
  intros st r st'. unfold read.
  destruct (heap st !! a); intros [= <- <-]; reflexivity.
Qed.

Lemma stable_bind {A B} (m : M elem A) (k : A → M elem B) :
  stable R m → (∀ a, stable R (k a)) → stable R (bind m k).
Proof using HR.
  intros Hm Hk st r st'. unfold bind.
  destruct (m st) as [[a|e] st1] eqn:Hrun.
  - intros Hrun'. etrans; [by eapply Hm|by eapply Hk].
  - intros [= <- <-]. by eapply Hm.
Qed.

Lemma stable_forM_ {A} (k : A → M elem unit) (l : list A) :
  (∀ a, stable R (k a)) → stable R (forM_ k l).
Proof using HR.
  intros Hk. induction l as [|a l IH]; simpl.
  - apply stable_ret.
  - apply stable_bind; [apply Hk|by intros _].
Qed.

Lemma stable_forM {A B} (k : A → M elem B) (l : list A) :
  (∀ a, stable R (k a)) → stable R (forM k l).
Proof using HR.
  intros Hk. induction l as [|a l IH]; simpl.
  - apply stable_ret.
  - apply stable_bind; [apply Hk|intros b].
    apply stable_bind; [apply IH|intros bs]. apply stable_ret.
Qed.

(** What is left to show for a given relation: the two places that
    create tensors, the assignments to [grad] and [data], the last two
    assignments of [cuda_], and [register]. *)
Hypothesis R_init : ∀ o gp, stable R (Tensor_init o gp).
Hypothesis R_apply : ∀ f x kw, stable R (Function_apply f x kw).
Hypothesis R_set_grad : ∀ a g, stable R (set_grad a g).
Hypothesis R_assign : ∀ self x, stable R (Tensor_assign self x).
Hypothesis R_cuda_ :
  (∀ self, stable R (Tensor_cuda self)) → ∀ self, stable R (Tensor_cuda_ self).
Hypothesis R_register : ∀ name fxn gp, stable R (register name fxn gp).

Ltac stable_step known :=
  first
    [ known
    | apply stable_ret | apply stable_raise | apply stable_gets
    | apply stable_lift | apply stable_read
    | apply R_init | apply R_apply | apply R_set_grad | apply R_assign
    | apply R_register
    | apply stable_bind; [|intros ?]
    | apply stable_forM_; intros ?
    | apply stable_forM; intros ?
    | match goal with
      | |- stable _ (match ?x with _ => _ end) => destruct x
      end ].

Ltac stable_go known := repeat stable_step known.

Lemma stable_dispatch name x kw : stable R (dispatch name x kw).
Proof using HR R_apply. unfold dispatch. stable_go fail. Qed.

Lemma stable_invoke m args kw : stable R (invoke m args kw).
Proof using HR R_apply R_assign.
  unfold invoke. stable_go ltac:(apply stable_dispatch).
Qed.

Lemma stable_getattr name : stable R (getattr name).
Proof using HR. unfold getattr. stable_go fail. Qed.

Lemma stable_receiver r : stable R (receiver r).
Proof using HR. unfold receiver. stable_go fail. Qed.

Lemma stable_invoke_None m self : stable R (invoke_None m self).
Proof using HR. unfold invoke_None. stable_go fail. Qed.

Lemma stable_binop name a1 a2 : stable R (Tensor_binop name a1 a2).
Proof using HR R_apply R_assign.
  unfold Tensor_binop. stable_go ltac:(apply stable_invoke).
Qed.

Lemma stable_plus a1 a2 : stable R (Tensor_plus a1 a2).
Proof using HR R_apply R_assign.
  unfold Tensor_plus. stable_go ltac:(apply stable_invoke).
Qed.

Lemma stable_accumulate c t o : stable R (accumulate c t o).
Proof using HR R_init R_apply R_assign R_set_grad.
  unfold accumulate. destruct o; stable_go ltac:(apply stable_plus).
Qed.

Lemma stable_backward_node c t0 : stable R (backward_node c t0).
Proof using HR R_init R_apply R_assign R_set_grad.
  unfold backward_node. stable_go ltac:(apply stable_accumulate).
Qed.

Lemma stable_fill_grad self af : stable R (fill_grad self af).
Proof using HR R_init R_set_grad. unfold fill_grad. stable_go fail. Qed.

Lemma stable_walk self : stable R (walk self).
Proof using HR. unfold walk. stable_go fail. Qed.

Lemma stable_backward self af : stable R (Tensor_backward self af).
Proof using HR R_init R_apply R_assign R_set_grad.
  unfold Tensor_backward.
  stable_go ltac:(first [apply stable_fill_grad | apply stable_walk
                        | apply stable_backward_node]).
Qed.

Lemma stable_cuda_from fuel self : stable R (cuda_from fuel self).
Proof using HR R_init R_set_grad.
  revert self. induction fuel as [|fuel IH]; intros self.
  - apply stable_raise.
  - rewrite cuda_from_S. stable_go ltac:(apply IH).
Qed.

Lemma stable_cuda self : stable R (Tensor_cuda self).
Proof using HR R_init R_set_grad.
  unfold Tensor_cuda. stable_go ltac:(apply stable_cuda_from).
Qed.

Lemma stable_cpu_from fuel self : stable R (cpu_from fuel self).
Proof using HR R_init R_set_grad.
  revert self. induction fuel as [|fuel IH]; intros self.
  - apply stable_raise.
  - rewrite cpu_from_S. stable_go ltac:(apply IH).
Qed.

Lemma stable_cpu self : stable R (Tensor_cpu self).
Proof using HR R_init R_set_grad.
  unfold Tensor_cpu. stable_go ltac:(apply stable_cpu_from).
Qed.

Lemma stable_detach self : stable R (Tensor_detach self).
Proof using HR R_init. unfold Tensor_detach. stable_go fail. Qed.

Ltac stable_calls :=
  first [apply stable_getattr | apply stable_invoke | apply stable_receiver
        | apply stable_invoke_None | apply stable_binop].

Lemma stable_mean self : stable R (Tensor_mean self).
Proof using HR R_init R_apply R_assign.
  unfold Tensor_mean. stable_go stable_calls.
Qed.

Lemma stable_sqrt self : stable R (Tensor_sqrt self).
Proof using HR R_init R_apply R_assign.
  unfold Tensor_sqrt. stable_go stable_calls.
Qed.

Lemma stable_div self y : stable R (Tensor_div self y).
Proof using HR R_init R_apply R_assign.
  unfold Tensor_div. stable_go stable_calls.
Qed.

Lemma stable_swish self : stable R (Tensor_swish self).
Proof using HR R_apply R_assign.
  unfold Tensor_swish. stable_go stable_calls.
Qed.

Lemma stable_tanh self : stable R (Tensor_tanh self).
Proof using HR R_init R_apply R_assign.
  unfold Tensor_tanh. stable_go stable_calls.
Qed.

Lemma stable_class_method name args body :
  stable R body → stable R (class_method name args body).
Proof using HR R_apply R_assign.
  intros Hbody. unfold class_method.
  stable_go ltac:(first [apply stable_invoke | exact Hbody]).
Qed.

Lemma stable_after {A} (m : M elem A) st : stable R m → R st (after m st).
Proof.
  intros Hm. unfold after. destruct (m st) as [r st'] eqn:Hrun.
  by eapply Hm.
Qed.

Lemma call_stable cl st : R st (call cl st).
Proof using All.
  destruct cl; simpl; apply stable_after.
  - apply R_init.
  - apply R_init.
  - apply R_init.
  - apply R_init.
  - apply R_assign.
  - apply R_register.
  - apply R_apply.
  - apply stable_bind; [apply stable_getattr|intros m; apply stable_invoke].
  - apply stable_binop.
  - apply stable_backward.
  - apply stable_cuda.
  - apply R_cuda_, stable_cuda.
  - apply stable_cpu.
  - apply stable_detach.
  - apply stable_class_method, stable_mean.
  - apply stable_class_method, stable_sqrt.
  - apply stable_class_method, stable_div.
  - apply stable_class_method, stable_swish.
  - apply stable_class_method, stable_tanh.
Qed.

Lemma run_stable cs st : R st (run cs st).
Proof using All.
  unfold run. revert st. induction cs as [|cl cs IH]; intros st; simpl.
  - reflexivity.
  - etrans; [apply call_stable|apply IH].
Qed.

End Stable.


Ltac sbind := apply stable_bind; [apply _| |].
Ltac sread := apply stable_read; apply _.
Ltac sret := apply stable_ret; apply _.
Ltac slift := apply stable_lift; apply _.

Lemma stable_modify (R : relation (State elem)) (g : State elem → State elem) :
  (∀ st, R st (g st)) → stable R (modify g).
Proof. intros Hg st r st' [= <- <-]. apply Hg. Qed.

(** *** Acyclicity *)

Lemma keeps_dag_preorder : PreOrder (@keeps_dag elem).
Proof.
  split.
  - by intros st Hd.
  - intros st1 st2 st3 H12 H23 Hd. by apply H23, H12.
Qed.

#[local] Existing Instance keeps_dag_preorder.

Lemma parents_of_alter (F : Tensor elem → Tensor elem) a h a' :
  (∀ T, _ctx (F T) = _ctx T) → parents_of (alter F a h) a' = parents_of h a'.
Proof.
  intros HF. unfold parents_of.
  destruct (decide (a = a')) as [->|Hne].
  - rewrite list_lookup_alter_eq. destruct (h !! a') as [T|]; simpl; [|done].
    by rewrite HF.
  - by rewrite list_lookup_alter_ne.
Qed.

Lemma dag_alter (F : Tensor elem → Tensor elem) a st :
  (∀ T, _ctx (F T) = _ctx T) → keeps_dag st (set_heap (alter F a) st).
Proof.
  intros HF Hdag a' p. simpl. rewrite parents_of_alter by done. apply Hdag.
Qed.

Lemma dag_set_grad a g : stable (@keeps_dag elem) (set_grad a g).
Proof. apply stable_modify. intros st. by apply dag_alter. Qed.

Lemma dag_set_data a b : stable (@keeps_dag elem) (set_data a b).
Proof. apply stable_modify. intros st. by apply dag_alter. Qed.

Lemma dag_set_gpu a g : stable (@keeps_dag elem) (set_gpu a g).
Proof. apply stable_modify. intros st. by apply dag_alter. Qed.

Lemma dag_init o gp : stable (@keeps_dag elem) (Tensor_init o gp).
Proof. intros st r st' Hrun Hd. by eapply Tensor_init_dag. Qed.

Lemma dag_apply f (x : list addr) kw : stable (@keeps_dag elem) (Function_apply f x kw).
Proof. intros st r st' Hrun Hd. by eapply Function_apply_dag. Qed.

Lemma dag_assign self x : stable (@keeps_dag elem) (Tensor_assign self x).
Proof.
  unfold Tensor_assign. sbind; [sread|intros X].
  apply dag_set_data.
Qed.

Lemma dag_cuda_ :
  (∀ self, stable (@keeps_dag elem) (Tensor_cuda self)) →
  ∀ self, stable (@keeps_dag elem) (Tensor_cuda_ self).
Proof.
  intros Hcuda self. unfold Tensor_cuda_.
  sbind; [apply Hcuda|intros r].
  sbind; [sread|intros R].
  sbind; [apply dag_set_data|intros _]. apply dag_set_gpu.
Qed.

Lemma dag_register name (fxn : Function elem) (gp : bool) :
  stable (@keeps_dag elem) (register name fxn gp).
Proof.
  intros st r st' Hrun Hdag.
  replace st' with (register name fxn gp st).2 by by rewrite Hrun.
  by rewrite register_heap.
Qed.

(** X19. Every program keeps the store acyclic.  Whatever calls a client
    makes on the module (constructions, registrations, operations,
    operators, in-place operators, [assign], [backward], moves between
    devices, [detach], the composed operations), in whatever order and
    whether they return or raise: if every parent was created before the
    tensor it feeds at the start, this is so at the end.  It is the
    condition under which [deepwalk] terminates with a topological
    order. *)
Theorem programs_keep_dag cs st :
  dag (heap st) → dag (heap (run cs st)).
Proof.
  apply (run_stable (@keeps_dag elem) dag_init dag_apply dag_set_grad dag_assign
           dag_cuda_ dag_register).
Qed.

(** *** Without the accelerator module *)

Lemma stays_on_host_preorder : PreOrder (@stays_on_host elem).
Proof.
  split.
  - by intros st Hd.
  - intros st1 st2 st3 H12 H23 Hd. by apply H23, H12.
Qed.

#[local] Existing Instance stays_on_host_preorder.














(** *** The warning *)

Lemma warns_once_preorder : PreOrder (@warns_once elem).
Proof.
  split.
  - intros st. unfold warns_once. lia.
  - intros st1 st2 st3. unfold warns_once. lia.
Qed.

#[local] Existing Instance warns_once_preorder.

Lemma warn_set_heap F st : warns_once st (set_heap F st).
Proof. unfold warns_once, warnings_bound. simpl. lia. Qed.

Lemma warn_set_grad a g : stable (@warns_once elem) (set_grad a g).
Proof. apply stable_modify. intros st. apply warn_set_heap. Qed.

Lemma warn_set_data a b : stable (@warns_once elem) (set_data a b).
Proof. apply stable_modify. intros st. apply warn_set_heap. Qed.

Lemma warn_set_gpu a g : stable (@warns_once elem) (set_gpu a g).
Proof. apply stable_modify. intros st. apply warn_set_heap. Qed.

Lemma warn_set_ctx a (cx : option (Ctx elem)) : stable (@warns_once elem) (set_ctx a cx).
Proof. apply stable_modify. intros st. apply warn_set_heap. Qed.

Lemma warn_init o gp : stable (@warns_once elem) (Tensor_init o gp).
Proof.
  intros st r st' Hrun.
  apply Tensor_init_inv in Hrun as (_ & Hw & Hle & Hnew & _).
  unfold warns_once, warnings_bound.
  destruct (did_float_warning st) eqn:Hflag.
  - destruct (Hw eq_refl) as [-> ->]. lia.
  - destruct (decide (length (stdout st') = S (length (stdout st))))
      as [Heq|Hne].
    + destruct (Hnew Heq) as [_ ->]. lia.
    + destruct (did_float_warning st'); lia.
Qed.

Lemma warn_apply f (x : list addr) kw :
  stable (@warns_once elem) (Function_apply f x kw).
Proof.
  unfold Function_apply.
  sbind; [apply stable_forM; [apply _|]; intros a; sread|].
  intros ts. sbind; [slift|intros r].
  sbind; [apply warn_init|intros out].
  sbind; [apply warn_set_ctx|intros _]. sret.
Qed.

Lemma warn_assign self x : stable (@warns_once elem) (Tensor_assign self x).
Proof.
  unfold Tensor_assign. sbind; [sread|intros X].
  apply warn_set_data.
Qed.

Lemma warn_cuda_ :
  (∀ self, stable (@warns_once elem) (Tensor_cuda self)) →
  ∀ self, stable (@warns_once elem) (Tensor_cuda_ self).
Proof.
  intros Hcuda self. unfold Tensor_cuda_.
  sbind; [apply Hcuda|intros r].
  sbind; [sread|intros R].
  sbind; [apply warn_set_data|intros _]. apply warn_set_gpu.
Qed.

Lemma warn_register name (fxn : Function elem) (gp : bool) :
  stable (@warns_once elem) (register name fxn gp).
Proof.
  intros st r st' Hrun.
  replace st' with (register name fxn gp st).2 by by rewrite Hrun.
  rewrite register_run. unfold warns_once, warnings_bound.
  destruct gp; simpl; lia.
Qed.

(** X21. One warning per process, whatever the program: over any sequence
    of calls on the module, the precision warning is printed at most once
    if it has not been printed before, and never again if it has.  Every
    tensor that an operation, [backward], a move between devices or a
    composed operation builds goes through the same constructor and the
    same flag. *)
Theorem programs_warn_once cs st :
  length (stdout (run cs st)) ≤
    length (stdout st) + (if did_float_warning st then 0 else 1).
Proof.
  pose proof (run_stable (@warns_once elem) warn_init warn_apply warn_set_grad
                warn_assign warn_cuda_ warn_register cs st) as Hrun.
  unfold warns_once, warnings_bound in Hrun.
  destruct (did_float_warning (run cs st)); lia.
Qed.


(** ** The composed operations *)

Lemma ctx_parents f (x : list addr) (kw : gmap string (PyObj elem)) sv :
  parents (inst (mkCtx f (save_for_backward (resolve f x kw) sv))) = x.
Proof.
  change (parents (resolve f x kw) = x). apply resolve_attrs.
Qed.

Ltac attr_known :=
  apply getattr_run;
  repeat match goal with
         | Hm : methods _ = methods _ |- _ => rewrite Hm
         end;
  eassumption.

(** A registered operation called on host tensors, when its kernel
    returns a host array. *)
Lemma invoke_host name f x0 xs kw T0 ts s b st :
  heap st !! x0 = Some T0 → gpu T0 = false → ops st !! name = Some f →
  Forall2 (λ a T, heap st !! a = Some T) (x0 :: xs) ts →
  forward f (resolve f (x0 :: xs) kw) (map data ts) kw = Ok (s, PBuf b) →
  kind b = NdArray → default_gpu st = false →
  ∃ st',
    invoke (Dispatch name) (x0 :: xs) kw st =
      (Ok (Some (length (heap st))), st') ∧
    same_registry st st' ∧
    heap st' = heap st ++
      [mkTensor b None
         (Some (mkCtx f (save_for_backward (resolve f (x0 :: xs) kw) s)))
         false].
Proof.
  intros Hx0 Hg Hf Hts Hfwd Hk Hdg.
  destruct (Function_apply_host f (x0 :: xs) kw st ts s b Hts Hfwd Hk Hdg)
    as (st' & Hrun & Hreg & Hheap).
  exists st'. split; [|done].
  unfold invoke. erewrite bind_run; [reflexivity|].
  rewrite (dispatch_run _ _ _ _ T0) by done. by rewrite Hg, Hf.
Qed.

Lemma Tensor_init_on_host b st :
  kind b = NdArray →
  ∃ st',
    Tensor_init (PBuf b) (Some false) st = (Ok (length (heap st)), st') ∧
    same_registry st st' ∧
    heap st' = heap st ++ [mkTensor b None None false].
Proof.
  intros Hk. rewrite Tensor_init_ndarray by done.
  eexists. split; [reflexivity|]. split; [|by destruct (_ && _)].
  destruct (_ && _); [|apply same_registry_set_heap].
  eapply same_registry_trans;
    [apply same_registry_warn|apply same_registry_set_heap].
Qed.

(** X22. [mean] on a host tensor, given kernels ["sum"] and ["mul"] that
    do what their names say: the result is a new tensor of shape [(1,)]
    whose one element is the sum of all elements of the receiver times
    [1/N], with [N] the product of the receiver's shape.  It is the
    result of the ["mul"] kernel on the sum and on the constant [1/N],
    and the constant has the element type of the receiver. *)
Theorem mean_is_sum_times_recip st self T fsum fmul total :
  heap st !! self = Some T → gpu T = false → kind (data T) = NdArray →
  default_gpu st = false →
  methods st !! "sum" = Some (Dispatch "sum") →
  methods st !! "mul" = Some (Dispatch "mul") →
  ops st !! "sum" = Some fsum → ops st !! "mul" = Some fmul →
  sums_all total fsum → multiplies_elementwise fmul →
  let n := length (heap st) in
  ∃ st' D S R cs cm,
    Tensor_mean self st = (Ok (Some (n + 2)), st') ∧
    heap st' !! self = Some T ∧
    heap st' !! n = Some D ∧ _ctx D = None ∧
    data D = mkBuffer NdArray [1] (dtype (data T))
               [recip (dtype (data T)) (foldr Nat.mul 1 (shape (data T)))] ∧
    heap st' !! (n + 1) = Some S ∧ _ctx S = Some cs ∧ cls cs = fsum ∧
    parents (inst cs) = [self] ∧
    heap st' !! (n + 2) = Some R ∧ _ctx R = Some cm ∧ cls cm = fmul ∧
    parents (inst cm) = [n + 1; n] ∧
    data R = mkBuffer NdArray [1] (dtype (data T))
               [mul (total (elems (data T)))
                    (recip (dtype (data T))
                           (foldr Nat.mul 1 (shape (data T))))].
Proof.
  intros Hself Hg Hk Hdg Hmsum Hmmul Hsum Hmul Hfsum Hfmul n.
  pose proof (lookup_lt_Some _ _ _ Hself) as Hlt.
  set (dbuf := mkBuffer NdArray [1] (dtype (data T))
                 [recip (dtype (data T)) (foldr Nat.mul 1 (shape (data T)))]).
  destruct (Tensor_init_on_host dbuf st eq_refl) as (st1 & Hinit & Hreg1 & Hh1).
  assert (Hl1 : length (heap st1) = n + 1)
    by (rewrite Hh1, length_app; simpl; lia).
  assert (Hself1 : heap st1 !! self = Some T)
    by (rewrite Hh1; by apply lookup_app_l_Some).
  destruct Hreg1 as (Hops1 & _ & Hm1 & _ & Hdg1).
  destruct (Hfsum (resolve fsum [self] ∅) (data T) Hk) as (ss & Hfwd1).
  destruct (invoke_host "sum" fsum self [] ∅ T [T] ss
              (np_sum total (data T)) st1)
    as (st2 & Hrun2 & Hreg2 & Hh2); try done; try congruence.
  { by repeat constructor. }
  assert (Hl2 : length (heap st2) = n + 2)
    by (rewrite Hh2, length_app; simpl; lia).
  destruct Hreg2 as (Hops2 & _ & Hm2 & _ & Hdg2).
  set (Sd := mkTensor (np_sum total (data T)) None
               (Some (mkCtx fsum (save_for_backward
                                    (resolve fsum [self] ∅) ss))) false) in *.
  set (Dd := mkTensor dbuf None None false) in *.
  assert (HS2 : heap st2 !! (n + 1) = Some Sd).
  { rewrite Hh2, <- Hl1. by apply list_lookup_middle. }
  assert (HD2 : heap st2 !! n = Some Dd).
  { rewrite Hh2, Hh1. rewrite lookup_app_l by (rewrite length_app; simpl; lia).
    by apply list_lookup_middle. }
  destruct (Hfmul (resolve fmul [n + 1; n] ∅) (np_sum total (data T)) dbuf)
    as (sm & Hfwd2); try done.
  destruct (invoke_host "mul" fmul (n + 1) [n] ∅ Sd [Sd; Dd] sm
              (np_mul (np_sum total (data T)) dbuf) st2)
    as (st3 & Hrun3 & _ & Hh3); try done; try congruence.
  { by repeat constructor. }
  eexists st3, Dd, Sd, _, _, _. split.
  { unfold Tensor_mean. rewrite (read_run _ T) by done. rewrite Hg.
    erewrite bind_run by exact Hinit.
    erewrite bind_run by attr_known.
    rewrite Hl1 in Hrun2. erewrite bind_run by exact Hrun2.
    unfold receiver. rewrite ret_run.
    erewrite bind_run by attr_known.
    rewrite Hl2 in Hrun3. exact Hrun3. }
  assert (Hold : ∀ a X, heap st2 !! a = Some X → heap st3 !! a = Some X).
  { intros a X Ha. rewrite Hh3. by apply lookup_app_l_Some. }
  split. { apply Hold. rewrite Hh2. by apply lookup_app_l_Some. }
  split; [by apply Hold|]. split; [done|]. split; [done|].
  split; [by apply Hold|]. split; [done|]. split; [done|].
  split; [apply ctx_parents|].
  split. { rewrite Hh3, <- Hl2. by apply list_lookup_middle. }
  split; [done|]. split; [done|].
  split; [apply ctx_parents|].
  simpl. unfold np_mul. simpl. by rewrite decide_True.
Qed.


Lemma walk_fork st x s r cs cr :
  unproduced (heap st) x → produced (heap st) s cs [x] →
  produced (heap st) r cr [x; s] →
  walk r st = (Ok [s; r], st).
Proof.
  intros (X & HX & HcX) (S0 & HS & HcS & HpS) (R0 & HR & HcR & HpR).
  assert (x ≠ s) by (intros ->; congruence).
  assert (x ≠ r) by (intros ->; congruence).
  assert (s ≠ r) by (intros ->; congruence).
  assert (∃ k, length (heap st) = S (S k)) as [k Hlen].
  { apply lookup_lt_Some in HX, HS, HR.
    destruct (length (heap st)) as [|[|k]]; [lia|lia|eauto]. }
  assert (Hrun : ∃ vis, deepwalk (S (S (S k))) (heap st) r (∅, [])
                        = Ok (vis, [s; r])).
  { eexists. rewrite deepwalk_S, HR, HcR, HpR. simpl.
    rewrite decide_False by set_solver.
    rewrite deepwalk_S, HX, HcX. simpl.
    rewrite decide_False by set_solver.
    rewrite deepwalk_S, HS, HcS, HpS. simpl.
    rewrite decide_True by set_solver. reflexivity. }
  destruct Hrun as (vis & Hrun).
  unfold walk, bind, gets, lift, ret. by rewrite Hlen, Hrun.
Qed.

(** X24. [swish] builds [x.mul(x.sigmoid())]: two new tensors, the result
    of the ["sigmoid"] kernel with parent [x] and the result of the
    ["mul"] kernel with parents [x] and that tensor.  [x] is a parent
    twice over, and the walk of [backward] from the result lists the two
    results once each, the inner one first. *)
Theorem swish_builds_two_nodes st self T fsig fmul ss bs sm bm :
  heap st !! self = Some T → gpu T = false → _ctx T = None →
  default_gpu st = false →
  methods st !! "sigmoid" = Some (Dispatch "sigmoid") →
  methods st !! "mul" = Some (Dispatch "mul") →
  ops st !! "sigmoid" = Some fsig → ops st !! "mul" = Some fmul →
  forward fsig (resolve fsig [self] ∅) [data T] ∅ = Ok (ss, PBuf bs) →
  kind bs = NdArray →
  forward fmul (resolve fmul [self; length (heap st)] ∅) [data T; bs] ∅
    = Ok (sm, PBuf bm) →
  kind bm = NdArray →
  let n := length (heap st) in
  ∃ st' cs cm,
    Tensor_swish self st = (Ok (Some (n + 1)), st') ∧
    heap st' = heap st ++ [mkTensor bs None (Some cs) false;
                           mkTensor bm None (Some cm) false] ∧
    cls cs = fsig ∧ parents (inst cs) = [self] ∧
    cls cm = fmul ∧ parents (inst cm) = [self; n] ∧
    walk (n + 1) st' = (Ok [n; n + 1], st').
Proof.
  intros Hself Hg HcT Hdg Hmsig Hmmul Hsig Hmul Hfwd1 Hkbs Hfwd2 Hkbm n.
  pose proof (lookup_lt_Some _ _ _ Hself) as Hlt.
  destruct (invoke_host "sigmoid" fsig self [] ∅ T [T] ss bs st)
    as (st1 & Hrun1 & Hreg1 & Hh1); try done.
  { by repeat constructor. }
  assert (Hl1 : length (heap st1) = n + 1)
    by (rewrite Hh1, length_app; simpl; lia).
  destruct Hreg1 as (Hops1 & _ & Hm1 & _ & Hdg1).
  set (Sd := mkTensor bs None
               (Some (mkCtx fsig (save_for_backward
                                    (resolve fsig [self] ∅) ss))) false) in *.
  assert (Hself1 : heap st1 !! self = Some T)
    by (rewrite Hh1; by apply lookup_app_l_Some).
  assert (HS1 : heap st1 !! n = Some Sd)
    by (rewrite Hh1; by apply list_lookup_middle).
  destruct (invoke_host "mul" fmul self [n] ∅ T [T; Sd] sm bm st1)
    as (st2 & Hrun2 & _ & Hh2); try done; try congruence.
  { by repeat constructor. }
  set (Rd := mkTensor bm None
               (Some (mkCtx fmul (save_for_backward
                                    (resolve fmul [self; n] ∅) sm))) false) in *.
  eexists st2, _, _. split.
  { unfold Tensor_swish.
    erewrite bind_run by attr_known.
    erewrite bind_run by attr_known.
    erewrite bind_run by exact Hrun1.
    rewrite Hl1 in Hrun2. exact Hrun2. }
  split. { rewrite Hh2, Hh1. by rewrite <- (assoc_L (++)). }
  split; [done|].
  split; [apply ctx_parents|].
  split; [done|].
  split; [apply ctx_parents|].
  assert (HR2 : heap st2 !! (n + 1) = Some Rd).
  { rewrite Hh2, <- Hl1. by apply list_lookup_middle. }
  assert (HS2 : heap st2 !! n = Some Sd)
    by (rewrite Hh2; by apply lookup_app_l_Some).
  assert (Hself2 : heap st2 !! self = Some T)
    by (rewrite Hh2; by apply lookup_app_l_Some).
  assert (Hl2 : length (heap st2) = S (S n))
    by (rewrite Hh2, length_app; simpl; lia).
  eapply (walk_fork st2 self n (n + 1)).
  - by exists T.
  - exists Sd. split; [done|]. split; [done|]. apply ctx_parents.
  - exists Rd. split; [done|]. split; [done|]. apply ctx_parents.
Qed.


(** ** Construction from lists and the static constructors *)

Lemma Lit_nested_ind (P : Lit elem → Prop) :
  (∀ v, P (LNum v)) → (∀ l, Forall P l → P (LList l)) → ∀ x, P x.
Proof.
  intros HN HL. fix IH 1. intros [v|l]; [apply HN|].
  apply HL. induction l as [|x l IHl]; constructor; [apply IH|exact IHl].
Qed.

Lemma lit_shape_LList (l : list (Lit elem)) :
  lit_shape (LList l) =
    match map lit_shape l with
    | [] => Some [0]
    | Some s :: rest =>
        if forallb (λ sh, bool_decide (sh = Some s)) rest
        then Some (length l :: s) else None
    | None :: _ => None
    end.
Proof. by destruct l. Qed.

Lemma length_concat_uniform {A} (ls : list (list A)) n :
  Forall (λ l, length l = n) ls → length (concat ls) = length ls * n.
Proof.
  induction 1 as [|l ls Hl _ IH]; simpl; [done|].
  rewrite length_app, IH, Hl. lia.
Qed.

(** The array that [np.array] builds from a nested list has as many
    elements as its shape says. *)
Lemma lit_flat_length (x : Lit elem) s :
  lit_shape x = Some s → length (lit_flat x) = foldr Nat.mul 1 s.
Proof.
  revert s. induction x as [v|l IH] using Lit_nested_ind; intros s.
  - by intros [= <-].
  - rewrite lit_shape_LList.
    destruct (map lit_shape l) as [|[s0|] rest] eqn:Hmap; [| |done].
    + intros [= <-]. by destruct l.
    + destruct (forallb _ rest) eqn:Hall; [|done]. intros [= <-].
      change (length (concat (map lit_flat l))
              = length l * foldr Nat.mul 1 s0).
      rewrite <- (length_map lit_flat l).
      apply length_concat_uniform. apply Forall_fmap.
      assert (Hs : Forall (λ x, lit_shape x = Some s0) l).
      { assert (Hs' : Forall (λ sh, sh = Some s0) (map lit_shape l)).
        { rewrite Hmap. constructor; [done|].
          apply Forall_forall. intros sh Ho.
          rewrite forallb_forall in Hall.
          eapply bool_decide_eq_true. apply Hall. by apply list_elem_of_In. }
        apply Forall_fmap in Hs'. eapply Forall_impl; [exact Hs'|done]. }
      clear Hmap Hall. induction l as [|x l IHl]; [constructor|].
      apply Forall_cons in IH as [IHx IH]. apply Forall_cons in Hs as [Hx Hs].
      constructor; [by apply IHx|by apply IHl].
Qed.

(** X25. Construction from a nested list on the host: a rectangular
    nesting gives a float32 host tensor whose first dimension is the
    length of the list and whose number of elements is the product of its
    shape; nothing is printed (lists are always converted to float32).  A
    nesting that is not rectangular raises [ValueError] and builds
    nothing. *)
Theorem list_construction l gp st :
  default (default_gpu st) gp = false →
  match Tensor_init (PList l) gp st with
  | (Ok n, st') =>
      ∃ b, lit_shape (LList l) = Some (shape b) ∧
           n = length (heap st) ∧
           st' = set_heap (λ h, h ++ [mkTensor b None None false]) st ∧
           kind b = NdArray ∧ dtype b = Float32 ∧
           head (shape b) = Some (length l) ∧
           length (elems b) = foldr Nat.mul 1 (shape b)
  | (Raise e, st') =>
      e = ValueError ∧ st' = st ∧ lit_shape (LList l) = None
  end.
Proof.
  intros Hgp.
  assert (Hrun : Tensor_init (PList l) gp st =
            match lit_shape (LList l) with
            | Some s =>
                (Ok (length (heap st)),
                 set_heap (λ h, h ++ [mkTensor
                   (mkBuffer NdArray s Float32 (lit_flat (LList l)))
                   None None false]) st)
            | None => (Raise ValueError, st)
            end).
  { unfold Tensor_init, bind, gets, ret, lift, np_array, alloc.
    destruct gp as [g|]; simpl in Hgp; subst; rewrite ?Hgp;
      by destruct (lit_shape (LList l)). }
  rewrite Hrun. destruct (lit_shape (LList l)) as [s|] eqn:Hs; [|done].
  exists (mkBuffer NdArray s Float32 (lit_flat (LList l))).
  split; [done|]. split; [done|]. split; [done|].
  split; [done|]. split; [done|]. split.
  - simpl. rewrite lit_shape_LList in Hs.
    destruct (map lit_shape l) as [|[s0|] rest] eqn:Hmap; [| |done].
    + injection Hs as <-. by destruct l.
    + destruct (forallb _ rest); [|done]. by injection Hs as <-.
  - by apply lit_flat_length.
Qed.

Lemma flat_map_lookup {A} (f : nat → list A) n (l : list nat) i j :
  (∀ k, length (f k) = n) → j < n →
  flat_map f l !! (i * n + j) = l !! i ≫= λ k, f k !! j.
Proof.
  intros Hf Hj. revert i. induction l as [|a l IH]; intros i; simpl.
  - by rewrite !lookup_nil.
  - destruct i as [|i]; simpl.
    + rewrite lookup_app_l by (rewrite Hf; lia). done.
    + rewrite lookup_app_r by (rewrite Hf; lia).
      rewrite Hf. replace (n + i * n + j - n) with (i * n + j) by lia.
      apply IH.
Qed.

Lemma np_eye_lookup dim i j :
  i < dim → j < dim →
  elems (np_eye dim) !! (i * dim + j)
    = Some (if decide (i = j) then one else zero).
Proof.
  intros Hi Hj. unfold np_eye. simpl.
  rewrite (flat_map_lookup _ dim) by (by intros; rewrite ?length_map, ?length_seq).
  rewrite lookup_seq_lt by done. simpl.
  rewrite list_lookup_fmap, lookup_seq_lt by done. done.
Qed.

Lemma length_np_full s d (v : elem) :
  length (elems (np_full s d v)) = foldr Nat.mul 1 s.
Proof. apply length_replicate. Qed.

(** The static constructors hand a float32 host array to the
    constructor without a [gpu] argument. *)
Lemma Tensor_init_float32 b st :
  kind b = NdArray → dtype b = Float32 →
  default_gpu st = false ∨ GPU st = true →
  Tensor_init (PBuf b) None st =
    (Ok (length (heap st)),
     set_heap (λ h, h ++ [mkTensor (if default_gpu st then cl_Buffer b else b)
                                   None None (default_gpu st)]) st).
Proof.
  intros Hk Hd Hcase. destruct (default_gpu st) eqn:Hdg.
  - destruct Hcase as [?|HG]; [done|].
    rewrite Tensor_init_accel by done. by rewrite decide_True.
  - rewrite Tensor_init_ndarray by done.
    by rewrite Hd, bool_decide_eq_false_2 by (by intros ?).
Qed.

(** X26. [zeros], [ones] and [eye] build float32 tensors of the shape
    asked for, filled with zeros, with ones, and with ones on the
    diagonal and zeros elsewhere.  They never print the warning.  They
    follow [Tensor.default_gpu]: on the host by default, on the
    accelerator when the default says so and the module is there, in
    which case the float32 array passes the assertion of [cuda]. *)
Theorem static_constructors st s dim :
  default_gpu st = false ∨ GPU st = true →
  let built := λ b : Buffer elem,
    (Ok (length (heap st)),
     set_heap (λ h, h ++ [mkTensor (if default_gpu st then cl_Buffer b else b)
                                   None None (default_gpu st)]) st) in
  Tensor_zeros s st = built (np_zeros s Float32) ∧
  Tensor_ones s st = built (np_ones s Float32) ∧
  Tensor_eye dim st = built (np_eye dim) ∧
  elems (np_zeros s Float32) = replicate (foldr Nat.mul 1 s) zero ∧
  elems (np_ones s Float32) = replicate (foldr Nat.mul 1 s) one ∧
  shape (np_eye dim) = [dim; dim] ∧
  (∀ i j, i < dim → j < dim →
     elems (np_eye dim) !! (i * dim + j)
       = Some (if decide (i = j) then one else zero)).
Proof.
  intros Hcase built.
  split; [by apply Tensor_init_float32|].
  split; [by apply Tensor_init_float32|].
  split; [by apply Tensor_init_float32|].
  split; [done|]. split; [done|]. split; [done|].
  intros i j. apply np_eye_lookup.
Qed.


(** *** Silence after the warning *)

Lemma quiet_preorder : PreOrder (@quiet elem).
Proof.
  split.
  - by intros st Hw.
  - intros st1 st2 st3 H12 H23 Hw.
    destruct (H12 Hw) as [Hw2 Ho2]. destruct (H23 Hw2) as [Hw3 Ho3].
    split; [done|congruence].
Qed.

#[local] Existing Instance quiet_preorder.






End MoreProperties.

(** * The further statements on explicit stores *)

Lemma transfer_to_own_device_witness :
  Tensor_cuda 1 Devices.st_device = (Ok 1, Devices.st_device) ∧
  Tensor_cpu 0 Devices.st_device = (Ok 0, Devices.st_device).
Proof.
  split.
  - apply (proj1 (transfer_to_own_device Devices.st_device 1
                    (mkTensor (cl_Buffer (Examples.vec [1; 2]%Z))
                              None None true) eq_refl));
      reflexivity.
  - apply (proj2 (transfer_to_own_device Devices.st_device 0
                    (Examples.leaf (Examples.vec [1; 2]%Z)) eq_refl));
      reflexivity.
Defined.

Lemma accelerator_needs_module_witness :
  Tensor_cuda 0 Examples.st_leaf = (Raise Exception, Examples.st_leaf) ∧
  (Tensor_init (PBuf Examples.double_array) (Some true) Examples.st_leaf).1
    = Raise Exception.
Proof.
  split.
  - apply (accelerator_needs_module Examples.st_leaf eq_refl).
  - apply (accelerator_needs_module Examples.st_leaf eq_refl); reflexivity.
Defined.

Lemma cuda_rejects_non_float32_witness :
  Tensor_cuda 0 Devices.st_double
    = (Raise (AssertionError None), Devices.st_double).
Proof.
  apply (cuda_rejects_non_float32 Devices.st_double 0
           (Examples.leaf Examples.double_array) eq_refl eq_refl eq_refl).
  discriminate.
Defined.

Lemma cuda_copies_witness :
  Tensor_cuda 0 Devices.st_graded_module =
    (Ok 4,
     set_heap
       (λ h, h ++ [mkTensor (cl_Buffer (Examples.vec [3%Z])) (Some 5) None true;
                   mkTensor (cl_Buffer (Examples.vec [2%Z])) None None true])
       Devices.st_graded_module).
Proof.
  pose proof (cuda_copies Devices.st_graded_module 0
                (mkTensor (Examples.vec [3%Z]) (Some 3) None false)
                eq_refl eq_refl eq_refl eq_refl eq_refl) as Hc.
  apply (Hc (mkTensor (Examples.vec [2%Z]) None None false));
    reflexivity.
Defined.

Lemma cuda_cpu_round_trip_witness :
  ∃ r st1 r' st2 R',
    Tensor_cuda 0 Devices.st_graded_module = (Ok r, st1) ∧
    Tensor_cpu r st1 = (Ok r', st2) ∧
    heap st2 !! r' = Some R' ∧ data R' = Examples.vec [3%Z].
Proof.
  destruct (cuda_cpu_round_trip Devices.st_graded_module 0
              (mkTensor (Examples.vec [3%Z]) (Some 3) None false)
              eq_refl eq_refl eq_refl eq_refl eq_refl)
    as (r & st1 & r' & st2 & R' & H1 & H2 & H3 & H4 & _).
  { intros g [= <-].
    exists (mkTensor (Examples.vec [2%Z]) None None false).
    repeat split; reflexivity. }
  exists r, st1, r', st2, R'. repeat split; assumption.
Defined.

Lemma cuda__moves_data_only_witness :
  ∃ st',
    Tensor_cuda_ 0 Devices.st_graded_module = (Ok tt, st') ∧
    heap st' !! 0 =
      Some (mkTensor (cl_Buffer (Examples.vec [3%Z])) (Some 3) None true) ∧
    heap st' !! 3 = Some (mkTensor (Examples.vec [2%Z]) None None false).
Proof.
  destruct (cuda__moves_data_only Devices.st_graded_module 0
              (mkTensor (Examples.vec [3%Z]) (Some 3) None false)
              eq_refl eq_refl eq_refl eq_refl eq_refl)
    as (st' & Hrun & Hself & Hother).
  { intros g [= <-].
    exists (mkTensor (Examples.vec [2%Z]) None None false).
    repeat split; reflexivity. }
  exists st'. split; [exact Hrun|]. split; [exact Hself|].
  rewrite Hother; [reflexivity|lia|vm_compute; lia].
Defined.

Lemma detach_cuts_graph_witness :
  let st' := set_heap
               (λ h, h ++ [mkTensor (Examples.vec [1; 2]%Z) None None false])
               Examples.st_leaf in
  Tensor_detach 0 Examples.st_leaf = (Ok 1, st') ∧
  heap st' !! 0 = Some (Examples.leaf (Examples.vec [1; 2]%Z)) ∧
  Tensor_backward 1 true st' = (Ok tt, st').
Proof.
  apply (detach_cuts_graph Examples.st_leaf 0
           (Examples.leaf (Examples.vec [1; 2]%Z)) true eq_refl).
  left. repeat split; try reflexivity. left. reflexivity.
Defined.

Lemma device_buffer_stays_on_device_witness :
  Tensor_init (PBuf (cl_Buffer (Examples.vec [1; 2]%Z))) (Some false)
              Devices.st_host =
    (Ok 1,
     set_heap (λ h, h ++ [mkTensor (cl_Buffer (Examples.vec [1; 2]%Z))
                                   None None true]) Devices.st_host).
Proof.
  apply (device_buffer_stays_on_device
           (cl_Buffer (Examples.vec [1; 2]%Z)) (Some false) Devices.st_host);
    reflexivity.
Defined.

Lemma accelerator_construction_witness :
  Tensor_init (PBuf Examples.double_array) (Some true) Devices.st_host =
    (Raise (AssertionError None), warn_float [2] Devices.st_host).
Proof.
  apply (accelerator_construction Examples.double_array (Some true)
           Devices.st_host); reflexivity.
Defined.



Lemma operators_only_for_arithmetic_witness :
  Tensor_binop "scale" 0 0
    (register "scale" Examples.Scale false Examples.st_leaf).2 =
    (Raise TypeError,
     (register "scale" Examples.Scale false Examples.st_leaf).2).
Proof.
  apply (operators_only_for_arithmetic "scale" Examples.Scale false
           Examples.st_leaf).
  - apply (proj1 (bool_decide_eq_false _)). vm_compute. reflexivity.
  - vm_compute. reflexivity.
Defined.

Lemma assign_ignores_shape_witness :
  ∃ st', Tensor_assign 0 4 Devices.st_reshaped = (Ok tt, st') ∧
         grad_ok (heap Devices.st_reshaped) 0 ∧ ¬ grad_ok (heap st') 0.
Proof.
  destruct (assign_ignores_shape Devices.st_reshaped 0 4
              (mkTensor (Examples.vec [3%Z]) (Some 3) None false)
              (Examples.leaf (Examples.vec [1; 2]%Z)) 3
              (mkTensor (Examples.vec [2%Z]) None None false)
              eq_refl eq_refl eq_refl eq_refl)
    as (st' & Hrun & _ & _ & Hok & Hbad).
  - lia.
  - reflexivity.
  - simpl. discriminate.
  - exists st'. repeat split; assumption.
Defined.


Lemma backward_uses_preset_grad_witness :
  ∃ st',
    Tensor_backward 1 true Devices.st_preset = (Ok tt, st') ∧
    heap st' !! 3 =
      Some (mkTensor (mkBuffer NdArray [1; 1] Float32 [2%Z]) None None false).
Proof.
  edestruct (backward_uses_preset_grad Devices.st_preset 0 1)
    as (st' & Hrun & _ & Hnew & _).
  - reflexivity.
  - vm_compute. reflexivity.
  - reflexivity.
  - reflexivity.
  - vm_compute. reflexivity.
  - reflexivity.
  - reflexivity.
  - reflexivity.
  - vm_compute. reflexivity.
  - vm_compute. reflexivity.
  - reflexivity.
  - reflexivity.
  - exists st'. split; [exact Hrun|exact Hnew].
Defined.

Lemma backward_twice_accumulates_witness :
  ∃ st1 st2 X2 r2 R2,
    Tensor_backward 1 true Examples.st_chain = (Ok tt, st1) ∧
    Tensor_backward 1 true st1 = (Ok tt, st2) ∧
    heap st2 !! 0 = Some X2 ∧ grad X2 = Some r2 ∧
    heap st2 !! r2 = Some R2 ∧ elems (data R2) = [4%Z].
Proof.
  edestruct (backward_twice_accumulates Examples.st_chain 0 1)
    as (st1 & st2 & r1 & R1 & r2 & R2 & X1 & X2 & H1 & _ & _ & _ & _ &
        H2 & HX2 & Hg2 & HR2 & _ & He2).
  - vm_compute. reflexivity.
  - vm_compute. reflexivity.
  - apply Add_adds_elementwise.
  - reflexivity.
  - split; [vm_compute; reflexivity|]. split; reflexivity.
  - split; [vm_compute; reflexivity|]. split; [reflexivity|].
    split; reflexivity.
  - reflexivity.
  - reflexivity.
  - vm_compute. reflexivity.
  - reflexivity.
  - reflexivity.
  - exists st1, st2, X2, r2, R2. repeat split; assumption.
Defined.

Lemma none_gradient_starves_parent_witness :
  ∃ st',
    fill_grad 2 true Devices.st_starved = (Ok tt, st') ∧
    Tensor_backward 2 true Devices.st_starved
      = (Raise (AssertionError None), st').
Proof.
  edestruct (none_gradient_starves_parent Devices.st_starved 0 1 2)
    as (st' & Hfill & Hrun & _).
  - eexists. split; [vm_compute; reflexivity|reflexivity].
  - split; [vm_compute; reflexivity|]. split; [reflexivity|].
    split; reflexivity.
  - split; [vm_compute; reflexivity|]. split; [reflexivity|].
    split; reflexivity.
  - reflexivity.
  - reflexivity.
  - reflexivity.
  - exists st'. split; assumption.
Defined.

Lemma backward_value_used_as_is_witness :
  backward_node (mkCtx (Devices.Returning PNone) (mkContext [] [] ∅)) 2
                (Devices.st_returning (PTuple [PNone]) [0])
    = (Raise AttributeError, Devices.st_returning (PTuple [PNone]) [0]) ∧
  backward_node (mkCtx (Devices.Returning PNone) (mkContext [] [] ∅)) 2
                (Devices.st_returning PNone [0; 1])
    = (Raise TypeError, Devices.st_returning PNone [0; 1]).
Proof.
  split.
  - edestruct (@backward_value_used_as_is Z)
      with (c := mkCtx (Devices.Returning PNone) (mkContext [] [] ∅))
           (t0 := 2) (st := Devices.st_returning (PTuple [PNone]) [0])
      as (Htuple & _).
    + vm_compute. reflexivity.
    + reflexivity.
    + reflexivity.
    + vm_compute. reflexivity.
    + eapply Htuple; reflexivity.
  - edestruct (@backward_value_used_as_is Z)
      with (c := mkCtx (Devices.Returning PNone) (mkContext [] [] ∅))
           (t0 := 2) (st := Devices.st_returning PNone [0; 1])
      as (_ & Hnone & _).
    + vm_compute. reflexivity.
    + reflexivity.
    + reflexivity.
    + vm_compute. reflexivity.
    + apply Hnone; [simpl; lia|reflexivity].
Defined.

Lemma QSum_sums_all : sums_all Rationals.total Rationals.QSum.
Proof.
  intros c x _. exists [PBuf x]. simpl.
  by rewrite decide_True by apply map_size_empty.
Qed.

Lemma QMul_multiplies : multiplies_elementwise Rationals.QMul.
Proof.
  intros c x y _ _ Hs. exists [PBuf x; PBuf y]. simpl.
  rewrite decide_True by apply map_size_empty.
  unfold Rationals.same_shape. by rewrite decide_True.
Qed.


Lemma programs_keep_dag_witness :
  dag (heap (run Rationals.client Rationals.q_x)).
Proof.
  apply programs_keep_dag. apply dag_check_sound. vm_compute. reflexivity.
Defined.


Lemma mean_is_sum_times_recip_witness :
  ∃ st' R,
    Tensor_mean 0 Rationals.q_x = (Ok (Some 3), st') ∧
    heap st' !! 3 = Some R ∧ elems (data R) = [Rationals.num 3].
Proof.
  edestruct (mean_is_sum_times_recip Rationals.q_x 0)
    as (st' & D & S0 & R & cs & cm & Hrun & _ & _ & _ & _ & _ & _ & _ & _ &
        HR & _ & _ & _ & Hdata).
  - vm_compute. reflexivity.
  - reflexivity.
  - reflexivity.
  - reflexivity.
  - vm_compute. reflexivity.
  - vm_compute. reflexivity.
  - vm_compute. reflexivity.
  - vm_compute. reflexivity.
  - apply QSum_sums_all.
  - apply QMul_multiplies.
  - exists st', R. split; [exact Hrun|]. split; [exact HR|].
    rewrite Hdata. vm_compute. reflexivity.
Defined.


Lemma swish_builds_two_nodes_witness :
  ∃ st', Tensor_swish 0 Rationals.q_x = (Ok (Some 2), st') ∧
         walk 2 st' = (Ok [1; 2], st').
Proof.
  edestruct (swish_builds_two_nodes Rationals.q_x 0)
    as (st' & cs & cm & Hrun & _ & _ & _ & _ & _ & Hwalk).
  - vm_compute. reflexivity.
  - reflexivity.
  - reflexivity.
  - reflexivity.
  - vm_compute. reflexivity.
  - vm_compute. reflexivity.
  - vm_compute. reflexivity.
  - vm_compute. reflexivity.
  - vm_compute. reflexivity.
  - reflexivity.
  - vm_compute. reflexivity.
  - reflexivity.
  - exists st'. split; [exact Hrun|exact Hwalk].
Defined.

Lemma list_construction_witness :
  match Tensor_init (PList [LList [LNum 1; LNum 2]; LList [LNum 3; LNum 4]]%Z)
                    None Examples.st0 with
  | (Ok n, st') =>
      ∃ b, lit_shape (LList [LList [LNum 1; LNum 2];
                             LList [LNum 3; LNum 4]]%Z) = Some (shape b) ∧
           n = length (heap Examples.st0) ∧
           st' = set_heap (λ h, h ++ [mkTensor b None None false])
                          Examples.st0 ∧
           kind b = NdArray ∧ dtype b = Float32 ∧
           head (shape b) = Some 2 ∧
           length (elems b) = foldr Nat.mul 1 (shape b)
  | (Raise e, st') =>
      e = ValueError ∧ st' = Examples.st0 ∧
      lit_shape (LList [LList [LNum 1; LNum 2];
                        LList [LNum 3; LNum 4]]%Z) = None
  end.
Proof.
  apply (list_construction
           [LList [LNum 1; LNum 2]; LList [LNum 3; LNum 4]]%Z None
           Examples.st0).
  reflexivity.
Defined.

Lemma static_constructors_witness :
  Tensor_eye 2 Rationals.q0 =
    (Ok 0, set_heap (λ h, h ++ [mkTensor (np_eye 2) None None false])
                    Rationals.q0) ∧
  elems (np_eye 2) !! 3 = Some (Rationals.num 1).
Proof.
  destruct (static_constructors Rationals.q0 [2; 3] 2 (or_introl eq_refl))
    as (_ & _ & Heye & _ & _ & _ & Hdiag).
  split; [exact Heye|]. apply (Hdiag 1 1); lia.
Defined.

